(** * Kinematic character controller (libraries/physics/src/CharacterController.cpp)

    A shallow embedding of the controller's per-tick pipeline
    (scanDown, stepUp, stepForward, stepDown), of penetration recovery, of
    the jump / hover logic, of the pending-flags bookkeeping and of the
    pre/post-simulation adapters, together with the properties stated about
    them.

    Modelling conventions.
    - [btScalar] and [float] are modelled by the real numbers [R]: rounding,
      infinities and NaN are not represented.  A division of the controller
      whose divisor is computed at run time is modelled as a partial
      operation ([Scalar.div]), so that "no division by zero" is a provable
      property.  The engine's conversion between a quaternion and the basis
      of a transform ([Basis.setRotation], [Basis.getRotation]) divides by
      the squared length of the quaternion, which the engine requires not to
      be zero, and by a square root that is then positive; it is written
      with the division of [R], and what is stated about it is stated for
      quaternions of length one.
    - [uint32_t] and [quint64] are modelled by [Z] with explicit wrap-around.
    - The collision engine (ray cast, convex sweep, overlapping pairs) is an
      oracle that hands candidate contacts to the controller's callbacks; the
      callbacks themselves are embedded from the source.
    - Member functions become functions on an explicit [State] record. *)

From Stdlib Require Import Reals Lra Psatz ZArith List Bool.
Import ListNotations.

Open Scope R_scope.

(** ** Scalars *)

Module Scalar.

Definition ltb (a b : R) : bool := if Rlt_dec a b then true else false.
Definition gtb (a b : R) : bool := ltb b a.
Definition neqb (a b : R) : bool := if Req_dec_T a b then false else true.

(** [a / b] with a divisor computed at run time. *)
Definition div (a b : R) : option R :=
  if Req_dec_T b 0 then None else Some (a / b).

(** [fabsf] *)
Definition fabsf (a : R) : R := Rabs a.

(** [glm::max] *)
Definition max (a b : R) : R := if ltb a b then b else a.

(** [FLT_EPSILON] of <cfloat>: 2^-23. *)
Definition FLT_EPSILON : R := / 8388608.

End Scalar.

(** ** Vectors ([btVector3], [glm::vec3]) *)

Module Vec3.

Record t : Type := mk { x : R; y : R; z : R }.

Definition zero : t := mk 0 0 0.
Definition add (a b : t) : t := mk (x a + x b) (y a + y b) (z a + z b).
Definition sub (a b : t) : t := mk (x a - x b) (y a - y b) (z a - z b).
Definition neg (a : t) : t := mk (- x a) (- y a) (- z a).
Definition scale (s : R) (a : t) : t := mk (s * x a) (s * y a) (s * z a).
Definition dot (a b : t) : R := x a * x b + y a * y b + z a * z b.
Definition cross (a b : t) : t :=
  mk (y a * z b - z a * y b) (z a * x b - x a * z b) (x a * y b - y a * x b).
Definition length2 (a : t) : R := dot a a.
Definition length (a : t) : R := sqrt (length2 a).

(** [v /= s], that is [v *= 1 / s]. *)
Definition div_assign (v : t) (s : R) : option t :=
  match Scalar.div 1 s with
  | Some r => Some (scale r v)
  | None => None
  end.

(** [setInterpolate3(v0, v1, rt)] *)
Definition interpolate3 (v0 v1 : t) (rt : R) : t :=
  let s := 1 - rt in
  mk (s * x v0 + rt * x v1) (s * y v0 + rt * y v1) (s * z v0 + rt * z v1).

(** [btAcos]: the argument is clamped to [-1, 1]. *)
Definition btAcos (c : R) : R :=
  if Scalar.ltb c (-1) then acos (-1)
  else if Scalar.gtb c 1 then acos 1
  else acos c.

(** [a.angle(b)]: undefined when one of the vectors has length zero. *)
Definition angle (a b : t) : option R :=
  match Scalar.div (dot a b) (sqrt (length2 a * length2 b)) with
  | Some c => Some (btAcos c)
  | None => None
  end.

(** [a > b] on angles; a comparison with an undefined angle is false, as
    a comparison with NaN is in the source. *)
Definition angle_gtb (a b : option R) : bool :=
  match a, b with
  | Some a', Some b' => Scalar.gtb a' b'
  | _, _ => false
  end.

End Vec3.

Notation "a +v b" := (Vec3.add a b) (at level 50, left associativity).
Notation "a -v b" := (Vec3.sub a b) (at level 50, left associativity).
Notation "s *v a" := (Vec3.scale s a) (at level 40, left associativity).

(** ** Rotations: 3x3 bases ([btMatrix3x3]) and quaternions *)

Module Mat3.

Record t : Type := mk { r0 : Vec3.t; r1 : Vec3.t; r2 : Vec3.t }.

Definition identity : t :=
  mk (Vec3.mk 1 0 0) (Vec3.mk 0 1 0) (Vec3.mk 0 0 1).

Definition mulv (m : t) (v : Vec3.t) : Vec3.t :=
  Vec3.mk (Vec3.dot (r0 m) v) (Vec3.dot (r1 m) v) (Vec3.dot (r2 m) v).

End Mat3.

Module Quat.

Record t : Type := mk { x : R; y : R; z : R; w : R }.

Definition identity : t := mk 0 0 0 1.

(** [q * v] of glm: the vector [v] rotated by the quaternion [q]. *)
Definition rotate (q : t) (v : Vec3.t) : Vec3.t :=
  let qv := Vec3.mk (x q) (y q) (z q) in
  let uv := Vec3.cross qv v in
  let uuv := Vec3.cross qv uv in
  v +v 2 *v (w q *v uv +v uuv).

Definition neg (q : t) : t := mk (- x q) (- y q) (- z q) (- w q).

(** [btQuaternion::length2] *)
Definition length2 (q : t) : R := x q * x q + y q * y q + z q * z q + w q * w q.

(** [operator*(const btQuaternion&, const btVector3&)] *)
Definition mulv (q : t) (v : Vec3.t) : t :=
  mk (w q * Vec3.x v + y q * Vec3.z v - z q * Vec3.y v)
     (w q * Vec3.y v + z q * Vec3.x v - x q * Vec3.z v)
     (w q * Vec3.z v + x q * Vec3.y v - y q * Vec3.x v)
     (- x q * Vec3.x v - y q * Vec3.y v - z q * Vec3.z v).

(** [btQuaternion::operator*=] *)
Definition mul (a b : t) : t :=
  mk (w a * x b + x a * w b + y a * z b - z a * y b)
     (w a * y b + y a * w b + z a * x b - x a * z b)
     (w a * z b + z a * w b + x a * y b - y a * x b)
     (w a * w b - x a * x b - y a * y b - z a * z b).

(** [btQuaternion::inverse], which is the conjugate. *)
Definition inverse (q : t) : t := mk (- x q) (- y q) (- z q) (w q).

(** Bullet's [quatRotate(rotation, v)]. *)
Definition quatRotate (rotation : t) (v : Vec3.t) : Vec3.t :=
  let q := mulv rotation v in
  let q := mul q (inverse rotation) in
  Vec3.mk (x q) (y q) (z q).

End Quat.

(** The basis of a [btTransform]: [btMatrix3x3::setRotation], by which
    [btTransform(q, c)] builds its basis from the quaternion [q], and
    [btMatrix3x3::getRotation], by which [btTransform::getRotation] reads a
    quaternion back. *)
Module Basis.

(** [m_el[i]] *)
Definition row (m : Mat3.t) (i : nat) : Vec3.t :=
  match i with
  | O => Mat3.r0 m
  | S O => Mat3.r1 m
  | _ => Mat3.r2 m
  end.

Definition coord (v : Vec3.t) (j : nat) : R :=
  match j with
  | O => Vec3.x v
  | S O => Vec3.y v
  | _ => Vec3.z v
  end.

(** [m_el[i][j]] *)
Definition el (m : Mat3.t) (i j : nat) : R := coord (row m i) j.

Definition setRotation (q : Quat.t) : Mat3.t :=
  let d := Quat.length2 q in
  let s := 2 / d in
  let xs := Quat.x q * s in
  let ys := Quat.y q * s in
  let zs := Quat.z q * s in
  let wx := Quat.w q * xs in
  let wy := Quat.w q * ys in
  let wz := Quat.w q * zs in
  let xx := Quat.x q * xs in
  let xy := Quat.x q * ys in
  let xz := Quat.x q * zs in
  let yy := Quat.y q * ys in
  let yz := Quat.y q * zs in
  let zz := Quat.z q * zs in
  Mat3.mk (Vec3.mk (1 - (yy + zz)) (xy - wz) (xz + wy))
          (Vec3.mk (xy + wz) (1 - (xx + zz)) (yz - wx))
          (Vec3.mk (xz - wy) (yz + wx) (1 - (xx + yy))).

Definition getRotation (m : Mat3.t) : Quat.t :=
  let trace := el m 0 0 + el m 1 1 + el m 2 2 in
  if Scalar.gtb trace 0 then
    let s := sqrt (trace + 1) in
    let temp3 := s * (1 / 2) in
    let s := (1 / 2) / s in
    Quat.mk ((el m 2 1 - el m 1 2) * s)
            ((el m 0 2 - el m 2 0) * s)
            ((el m 1 0 - el m 0 1) * s)
            temp3
  else
    let i :=
      if Scalar.ltb (el m 0 0) (el m 1 1) then
        (if Scalar.ltb (el m 1 1) (el m 2 2) then 2 else 1)%nat
      else
        (if Scalar.ltb (el m 0 0) (el m 2 2) then 2 else 0)%nat in
    let j := ((i + 1) mod 3)%nat in
    let k := ((i + 2) mod 3)%nat in
    let s := sqrt (el m i i - el m j j - el m k k + 1) in
    let temp_i := s * (1 / 2) in
    let s := (1 / 2) / s in
    let temp3 := (el m k j - el m j k) * s in
    let temp_j := (el m j i + el m i j) * s in
    let temp_k := (el m k i + el m i k) * s in
    let temp (n : nat) : R :=
      if Nat.eqb n i then temp_i
      else if Nat.eqb n j then temp_j
      else temp_k in
    Quat.mk (temp 0%nat) (temp 1%nat) (temp 2%nat) temp3.

End Basis.

(** [btTransform(q, c).getRotation()]: the quaternion read back from a
    transform that was built from the quaternion [q]. *)
Definition transformRotation (q : Quat.t) : Quat.t :=
  Basis.getRotation (Basis.setRotation q).

(** ** The collision engine's interface

    Collision objects, the results the engine reports, and the engine's
    closest-hit callbacks ([btCollisionWorld::ClosestRayResultCallback],
    [btCollisionWorld::ClosestConvexResultCallback]) that the controller's
    callbacks derive from.  An object pointer is modelled by the object's
    identity [objId]; a null pointer by [None]. *)

Record CollisionObject : Type := mkCollisionObject {
  objId : nat;
  hasContactResponse : bool;
  worldBasis : Mat3.t
}.

Definition same_object (o : CollisionObject) (me : option nat) : bool :=
  match me with
  | Some g => Nat.eqb (objId o) g
  | None => false
  end.

Module LocalRayResult.
Record t : Type := mk {
  m_collisionObject : CollisionObject;
  m_hitNormalLocal : Vec3.t;
  m_hitFraction : R
}.
End LocalRayResult.

Module LocalConvexResult.
Record t : Type := mk {
  m_hitCollisionObject : CollisionObject;
  m_hitNormalLocal : Vec3.t;
  m_hitPointLocal : Vec3.t;
  m_hitFraction : R
}.

(** The hit normal in world space: the reported normal itself, or the
    reported normal transformed by the basis of the hit object. *)
Definition worldNormal (convexResult : t) (normalInWorldSpace : bool)
    : Vec3.t :=
  if normalInWorldSpace then m_hitNormalLocal convexResult
  else Mat3.mulv (worldBasis (m_hitCollisionObject convexResult))
         (m_hitNormalLocal convexResult).

End LocalConvexResult.

Module ClosestRayResultCallback.

Record t : Type := mk {
  m_closestHitFraction : R;
  m_collisionObject : option CollisionObject;
  m_rayFromWorld : Vec3.t;
  m_rayToWorld : Vec3.t;
  m_hitNormalWorld : Vec3.t;
  m_hitPointWorld : Vec3.t
}.

Definition init (rayFromWorld rayToWorld : Vec3.t) : t :=
  mk 1 None rayFromWorld rayToWorld Vec3.zero Vec3.zero.

Definition hasHit (cb : t) : bool :=
  match m_collisionObject cb with Some _ => true | None => false end.

(** The engine's closest-hit bookkeeping: the reported result becomes the
    closest hit. *)
Definition addSingleResult (cb : t) (rayResult : LocalRayResult.t)
    (normalInWorldSpace : bool) : t * R :=
  let obj := LocalRayResult.m_collisionObject rayResult in
  let f := LocalRayResult.m_hitFraction rayResult in
  let n :=
    if normalInWorldSpace then LocalRayResult.m_hitNormalLocal rayResult
    else Mat3.mulv (worldBasis obj) (LocalRayResult.m_hitNormalLocal rayResult) in
  (mk f (Some obj) (m_rayFromWorld cb) (m_rayToWorld cb) n
      (Vec3.interpolate3 (m_rayFromWorld cb) (m_rayToWorld cb) f),
   f).

End ClosestRayResultCallback.

Module ClosestConvexResultCallback.

Record t : Type := mk {
  m_closestHitFraction : R;
  m_hitCollisionObject : option CollisionObject;
  m_hitNormalWorld : Vec3.t;
  m_hitPointWorld : Vec3.t
}.

Definition init : t := mk 1 None Vec3.zero Vec3.zero.

Definition hasHit (cb : t) : bool :=
  match m_hitCollisionObject cb with Some _ => true | None => false end.

(** The engine's closest-hit bookkeeping: the reported result becomes the
    closest hit. *)
Definition addSingleResult (cb : t) (convexResult : LocalConvexResult.t)
    (normalInWorldSpace : bool) : t * R :=
  let obj := LocalConvexResult.m_hitCollisionObject convexResult in
  let n := LocalConvexResult.worldNormal convexResult normalInWorldSpace in
  (mk (LocalConvexResult.m_hitFraction convexResult) (Some obj) n
      (LocalConvexResult.m_hitPointLocal convexResult),
   LocalConvexResult.m_hitFraction convexResult).

End ClosestConvexResultCallback.

(** A query visits the candidate contacts in the engine's order and reports
    to the callback each one that is nearer than the closest hit recorded so
    far; the callback decides whether it records it. *)
Definition rayTest
    (add : ClosestRayResultCallback.t -> LocalRayResult.t -> bool ->
           ClosestRayResultCallback.t * R)
    (candidates : list (LocalRayResult.t * bool))
    (callback : ClosestRayResultCallback.t) : ClosestRayResultCallback.t :=
  fold_left
    (fun cb c =>
       if Scalar.ltb (LocalRayResult.m_hitFraction (fst c))
                     (ClosestRayResultCallback.m_closestHitFraction cb)
       then fst (add cb (fst c) (snd c)) else cb)
    candidates callback.

Definition convexSweepTest
    (add : ClosestConvexResultCallback.t -> LocalConvexResult.t -> bool ->
           ClosestConvexResultCallback.t * R)
    (candidates : list (LocalConvexResult.t * bool))
    (callback : ClosestConvexResultCallback.t) : ClosestConvexResultCallback.t :=
  fold_left
    (fun cb c =>
       if Scalar.ltb (LocalConvexResult.m_hitFraction (fst c))
                     (ClosestConvexResultCallback.m_closestHitFraction cb)
       then fst (add cb (fst c) (snd c)) else cb)
    candidates callback.

(** Contact manifolds of the overlapping pairs of the ghost object. *)
Record ManifoldPoint : Type := mkManifoldPoint {
  getDistance : R;
  m_normalWorldOnB : Vec3.t;
  getPositionWorldOnA : Vec3.t;
  getPositionWorldOnB : Vec3.t
}.

Record PersistentManifold : Type := mkPersistentManifold {
  getBody0 : nat;
  contactPoints : list ManifoldPoint
}.

Record BroadphasePair : Type := mkBroadphasePair {
  obj0 : option CollisionObject;
  obj1 : option CollisionObject;
  (** [m_algorithm], when not null, with its contact manifolds *)
  m_algorithm : option (list PersistentManifold)
}.

(** What the collision world answers to the controller's queries. *)
Record CollisionWorld : Type := mkCollisionWorld {
  (** candidates of a ray from the first point to the second *)
  rayCandidates : Vec3.t -> Vec3.t -> list (LocalRayResult.t * bool);
  (** candidates of a sweep of the capsule, with the given margin, from the
      first point to the second *)
  sweepCandidates : R -> Vec3.t -> Vec3.t -> list (LocalConvexResult.t * bool);
  (** overlapping pairs of the ghost object placed at the given point, after
      the pair cache has been refreshed and dispatched *)
  overlappingPairs : Vec3.t -> list BroadphasePair
}.

(** ** The controller's callbacks *)

(** [btKinematicClosestNotMeRayResultCallback] *)
Module KinematicClosestNotMeRayResultCallback.

Definition addSingleResult (me : option nat)
    (cb : ClosestRayResultCallback.t) (rayResult : LocalRayResult.t)
    (normalInWorldSpace : bool) : ClosestRayResultCallback.t * R :=
  if same_object (LocalRayResult.m_collisionObject rayResult) me then (cb, 1)
  else ClosestRayResultCallback.addSingleResult cb rayResult normalInWorldSpace.

End KinematicClosestNotMeRayResultCallback.

(** [btKinematicClosestNotMeConvexResultCallback] *)
Module KinematicClosestNotMeConvexResultCallback.

Definition addSingleResult (me : option nat) (up : Vec3.t) (minSlopeDot : R)
    (cb : ClosestConvexResultCallback.t) (convexResult : LocalConvexResult.t)
    (normalInWorldSpace : bool) : ClosestConvexResultCallback.t * R :=
  let obj := LocalConvexResult.m_hitCollisionObject convexResult in
  if same_object obj me then (cb, 1)
  else if negb (hasContactResponse obj) then (cb, 1)
  else
    let hitNormalWorld :=
      LocalConvexResult.worldNormal convexResult normalInWorldSpace in
    let dotUp := Vec3.dot up hitNormalWorld in
    if Scalar.ltb dotUp minSlopeDot then (cb, 1)
    else ClosestConvexResultCallback.addSingleResult cb convexResult
           normalInWorldSpace.

(** The contacts that [addSingleResult] hands on to the engine's
    bookkeeping. *)
Definition accepts (me : option nat) (up : Vec3.t) (minSlopeDot : R)
    (convexResult : LocalConvexResult.t) (normalInWorldSpace : bool) : bool :=
  let obj := LocalConvexResult.m_hitCollisionObject convexResult in
  negb (same_object obj me)
  && hasContactResponse obj
  && negb (Scalar.ltb
             (Vec3.dot up
                (LocalConvexResult.worldNormal convexResult normalInWorldSpace))
             minSlopeDot).

End KinematicClosestNotMeConvexResultCallback.

(** [StepDownConvexResultCallback]: the sweep callback of the stepDown
    phase. *)
Module StepDownConvexResultCallback.

Definition addSingleResult (me : option nat) (up start step pushDirection : Vec3.t)
    (minSlopeDot radius halfHeight : R)
    (cb : ClosestConvexResultCallback.t) (convexResult : LocalConvexResult.t)
    (normalInWorldSpace : bool) : ClosestConvexResultCallback.t * R :=
  let obj := LocalConvexResult.m_hitCollisionObject convexResult in
  if same_object obj me then (cb, 1)
  else if negb (hasContactResponse obj) then (cb, 1)
  else
    let hitNormalWorld :=
      LocalConvexResult.worldNormal convexResult normalInWorldSpace in
    let dotUp := Vec3.dot up hitNormalWorld in
    let ignored :=
      if Scalar.ltb dotUp minSlopeDot then
        if Scalar.gtb (Vec3.dot hitNormalWorld pushDirection) 0 then true
        else
          let fractionalStep :=
            LocalConvexResult.m_hitFraction convexResult *v step in
          let localHit :=
            LocalConvexResult.m_hitPointLocal convexResult -v start
              +v fractionalStep in
          let angle := Vec3.angle localHit (Vec3.neg up) in
          let side :=
            Vec3.mk radius
              (- (halfHeight - Vec3.length step + Vec3.dot fractionalStep up))
              0 in
          let maxAngle := Vec3.angle side (Vec3.neg up) in
          Vec3.angle_gtb angle maxAngle
      else false in
    if ignored then (cb, 1)
    else ClosestConvexResultCallback.addSingleResult cb convexResult
           normalInWorldSpace.

End StepDownConvexResultCallback.

(** ** Geometric helpers *)

Definition computeReflectionDirection (direction normal : Vec3.t) : Vec3.t :=
  direction -v (2 * Vec3.dot direction normal) *v normal.

Definition parallelComponent (direction normal : Vec3.t) : Vec3.t :=
  let magnitude := Vec3.dot direction normal in
  magnitude *v normal.

Definition perpindicularComponent (direction normal : Vec3.t) : Vec3.t :=
  direction -v parallelComponent direction normal.

(** ** The static helper [getNormalizedVector] *)

Definition getNormalizedVector (v : Vec3.t) : option Vec3.t :=
  let vLength := Vec3.length v in
  if Scalar.ltb vLength Scalar.FLT_EPSILON then Some (Vec3.mk 0 0 0)
  else Vec3.div_assign v vLength.

(** ** Pending flags ([uint32_t]) *)

Definition PENDING_FLAG_ADD_TO_SIMULATION : Z := Z.shiftl 1 0.
Definition PENDING_FLAG_REMOVE_FROM_SIMULATION : Z := Z.shiftl 1 1.
Definition PENDING_FLAG_UPDATE_SHAPE : Z := Z.shiftl 1 2.
Definition PENDING_FLAG_JUMP : Z := Z.shiftl 1 3.

(** [~ x] on 32 bits *)
Definition not32 (x : Z) : Z := Z.lxor x 4294967295.

(** [(bool) x] *)
Definition to_bool (x : Z) : bool := negb (Z.eqb x 0).

(** ** Constants *)

Definition LOCAL_UP_AXIS : Vec3.t := Vec3.mk 0 1 0.
Definition DEFAULT_GRAVITY : R := 5.
Definition TERMINAL_VELOCITY : R := 55.
Definition JUMP_SPEED : R := 5.

(** [USECS_PER_SECOND] is declared outside this file; as its name says, the
    number of microseconds in a second. *)
Definition USECS_PER_SECOND : Z := 1000000.

(** ** The controller's state

    The members of [CharacterController].  [ghostObject] is the identity of
    the ghost object ([None] for a null [_ghostObject]); [ghostOrigin] and
    [ghostRotation] are its world transform: what [getOrigin()] and
    [getRotation()] return for it.  The controller reads the basis of that
    transform only through [getRotation()], so the basis is kept as the
    quaternion read back from it.  [shapeMargin] is the margin of
    [_convexShape]; [dynamicsWorld] is the identity of the world the
    controller is registered in. *)

Record State : Type := mkState {
  enabled : bool;
  dynamicsWorld : option nat;
  ghostObject : option nat;
  ghostOrigin : Vec3.t;
  ghostRotation : Quat.t;
  currentPosition : Vec3.t;
  targetPosition : Vec3.t;
  currentUp : Vec3.t;
  verticalVelocity : R;
  verticalOffset : R;
  walkDirection : Vec3.t;
  normalizedDirection : Vec3.t;
  velocityTimeInterval : R;
  gravity : R;
  maxFallSpeed : R;
  jumpSpeed : R;
  isOnGround : bool;
  isJumping : bool;
  isHovering : bool;
  jumpToHoverStart : Z;
  maxSlopeCosine : R;
  lastStepUp : R;
  radius : R;
  halfHeight : R;
  stepUpHeight : R;
  stepDownHeight : R;
  addedMargin : R;
  shapeMargin : R;
  floorNormal : Vec3.t;
  touchingContact : bool;
  pendingFlags : Z;
  lastPosition : Vec3.t;
  stepDt : R;
  shapeLocalOffset : Vec3.t
}.

Definition set_enabled (v : bool) (s : State) : State :=
  mkState v (dynamicsWorld s) (ghostObject s) (ghostOrigin s)
    (ghostRotation s) (currentPosition s) (targetPosition s) (currentUp s)
    (verticalVelocity s) (verticalOffset s) (walkDirection s)
    (normalizedDirection s) (velocityTimeInterval s) (gravity s)
    (maxFallSpeed s) (jumpSpeed s) (isOnGround s) (isJumping s) (isHovering s)
    (jumpToHoverStart s) (maxSlopeCosine s) (lastStepUp s) (radius s)
    (halfHeight s) (stepUpHeight s) (stepDownHeight s) (addedMargin s)
    (shapeMargin s) (floorNormal s) (touchingContact s) (pendingFlags s)
    (lastPosition s) (stepDt s) (shapeLocalOffset s).

Definition set_dynamicsWorld (v : option nat) (s : State) : State :=
  mkState (enabled s) v (ghostObject s) (ghostOrigin s) (ghostRotation s)
    (currentPosition s) (targetPosition s) (currentUp s) (verticalVelocity s)
    (verticalOffset s) (walkDirection s) (normalizedDirection s)
    (velocityTimeInterval s) (gravity s) (maxFallSpeed s) (jumpSpeed s)
    (isOnGround s) (isJumping s) (isHovering s) (jumpToHoverStart s)
    (maxSlopeCosine s) (lastStepUp s) (radius s) (halfHeight s)
    (stepUpHeight s) (stepDownHeight s) (addedMargin s) (shapeMargin s)
    (floorNormal s) (touchingContact s) (pendingFlags s) (lastPosition s)
    (stepDt s) (shapeLocalOffset s).

Definition set_ghostOrigin (v : Vec3.t) (s : State) : State :=
  mkState (enabled s) (dynamicsWorld s) (ghostObject s) v (ghostRotation s)
    (currentPosition s) (targetPosition s) (currentUp s) (verticalVelocity s)
    (verticalOffset s) (walkDirection s) (normalizedDirection s)
    (velocityTimeInterval s) (gravity s) (maxFallSpeed s) (jumpSpeed s)
    (isOnGround s) (isJumping s) (isHovering s) (jumpToHoverStart s)
    (maxSlopeCosine s) (lastStepUp s) (radius s) (halfHeight s)
    (stepUpHeight s) (stepDownHeight s) (addedMargin s) (shapeMargin s)
    (floorNormal s) (touchingContact s) (pendingFlags s) (lastPosition s)
    (stepDt s) (shapeLocalOffset s).

Definition set_ghostRotation (v : Quat.t) (s : State) : State :=
  mkState (enabled s) (dynamicsWorld s) (ghostObject s) (ghostOrigin s) v
    (currentPosition s) (targetPosition s) (currentUp s) (verticalVelocity s)
    (verticalOffset s) (walkDirection s) (normalizedDirection s)
    (velocityTimeInterval s) (gravity s) (maxFallSpeed s) (jumpSpeed s)
    (isOnGround s) (isJumping s) (isHovering s) (jumpToHoverStart s)
    (maxSlopeCosine s) (lastStepUp s) (radius s) (halfHeight s)
    (stepUpHeight s) (stepDownHeight s) (addedMargin s) (shapeMargin s)
    (floorNormal s) (touchingContact s) (pendingFlags s) (lastPosition s)
    (stepDt s) (shapeLocalOffset s).

Definition set_currentPosition (v : Vec3.t) (s : State) : State :=
  mkState (enabled s) (dynamicsWorld s) (ghostObject s) (ghostOrigin s)
    (ghostRotation s) v (targetPosition s) (currentUp s) (verticalVelocity s)
    (verticalOffset s) (walkDirection s) (normalizedDirection s)
    (velocityTimeInterval s) (gravity s) (maxFallSpeed s) (jumpSpeed s)
    (isOnGround s) (isJumping s) (isHovering s) (jumpToHoverStart s)
    (maxSlopeCosine s) (lastStepUp s) (radius s) (halfHeight s)
    (stepUpHeight s) (stepDownHeight s) (addedMargin s) (shapeMargin s)
    (floorNormal s) (touchingContact s) (pendingFlags s) (lastPosition s)
    (stepDt s) (shapeLocalOffset s).

Definition set_targetPosition (v : Vec3.t) (s : State) : State :=
  mkState (enabled s) (dynamicsWorld s) (ghostObject s) (ghostOrigin s)
    (ghostRotation s) (currentPosition s) v (currentUp s) (verticalVelocity s)
    (verticalOffset s) (walkDirection s) (normalizedDirection s)
    (velocityTimeInterval s) (gravity s) (maxFallSpeed s) (jumpSpeed s)
    (isOnGround s) (isJumping s) (isHovering s) (jumpToHoverStart s)
    (maxSlopeCosine s) (lastStepUp s) (radius s) (halfHeight s)
    (stepUpHeight s) (stepDownHeight s) (addedMargin s) (shapeMargin s)
    (floorNormal s) (touchingContact s) (pendingFlags s) (lastPosition s)
    (stepDt s) (shapeLocalOffset s).

Definition set_currentUp (v : Vec3.t) (s : State) : State :=
  mkState (enabled s) (dynamicsWorld s) (ghostObject s) (ghostOrigin s)
    (ghostRotation s) (currentPosition s) (targetPosition s) v
    (verticalVelocity s) (verticalOffset s) (walkDirection s)
    (normalizedDirection s) (velocityTimeInterval s) (gravity s)
    (maxFallSpeed s) (jumpSpeed s) (isOnGround s) (isJumping s) (isHovering s)
    (jumpToHoverStart s) (maxSlopeCosine s) (lastStepUp s) (radius s)
    (halfHeight s) (stepUpHeight s) (stepDownHeight s) (addedMargin s)
    (shapeMargin s) (floorNormal s) (touchingContact s) (pendingFlags s)
    (lastPosition s) (stepDt s) (shapeLocalOffset s).

Definition set_verticalVelocity (v : R) (s : State) : State :=
  mkState (enabled s) (dynamicsWorld s) (ghostObject s) (ghostOrigin s)
    (ghostRotation s) (currentPosition s) (targetPosition s) (currentUp s) v
    (verticalOffset s) (walkDirection s) (normalizedDirection s)
    (velocityTimeInterval s) (gravity s) (maxFallSpeed s) (jumpSpeed s)
    (isOnGround s) (isJumping s) (isHovering s) (jumpToHoverStart s)
    (maxSlopeCosine s) (lastStepUp s) (radius s) (halfHeight s)
    (stepUpHeight s) (stepDownHeight s) (addedMargin s) (shapeMargin s)
    (floorNormal s) (touchingContact s) (pendingFlags s) (lastPosition s)
    (stepDt s) (shapeLocalOffset s).

Definition set_verticalOffset (v : R) (s : State) : State :=
  mkState (enabled s) (dynamicsWorld s) (ghostObject s) (ghostOrigin s)
    (ghostRotation s) (currentPosition s) (targetPosition s) (currentUp s)
    (verticalVelocity s) v (walkDirection s) (normalizedDirection s)
    (velocityTimeInterval s) (gravity s) (maxFallSpeed s) (jumpSpeed s)
    (isOnGround s) (isJumping s) (isHovering s) (jumpToHoverStart s)
    (maxSlopeCosine s) (lastStepUp s) (radius s) (halfHeight s)
    (stepUpHeight s) (stepDownHeight s) (addedMargin s) (shapeMargin s)
    (floorNormal s) (touchingContact s) (pendingFlags s) (lastPosition s)
    (stepDt s) (shapeLocalOffset s).

Definition set_walkDirection (v : Vec3.t) (s : State) : State :=
  mkState (enabled s) (dynamicsWorld s) (ghostObject s) (ghostOrigin s)
    (ghostRotation s) (currentPosition s) (targetPosition s) (currentUp s)
    (verticalVelocity s) (verticalOffset s) v (normalizedDirection s)
    (velocityTimeInterval s) (gravity s) (maxFallSpeed s) (jumpSpeed s)
    (isOnGround s) (isJumping s) (isHovering s) (jumpToHoverStart s)
    (maxSlopeCosine s) (lastStepUp s) (radius s) (halfHeight s)
    (stepUpHeight s) (stepDownHeight s) (addedMargin s) (shapeMargin s)
    (floorNormal s) (touchingContact s) (pendingFlags s) (lastPosition s)
    (stepDt s) (shapeLocalOffset s).

Definition set_normalizedDirection (v : Vec3.t) (s : State) : State :=
  mkState (enabled s) (dynamicsWorld s) (ghostObject s) (ghostOrigin s)
    (ghostRotation s) (currentPosition s) (targetPosition s) (currentUp s)
    (verticalVelocity s) (verticalOffset s) (walkDirection s) v
    (velocityTimeInterval s) (gravity s) (maxFallSpeed s) (jumpSpeed s)
    (isOnGround s) (isJumping s) (isHovering s) (jumpToHoverStart s)
    (maxSlopeCosine s) (lastStepUp s) (radius s) (halfHeight s)
    (stepUpHeight s) (stepDownHeight s) (addedMargin s) (shapeMargin s)
    (floorNormal s) (touchingContact s) (pendingFlags s) (lastPosition s)
    (stepDt s) (shapeLocalOffset s).

Definition set_velocityTimeInterval (v : R) (s : State) : State :=
  mkState (enabled s) (dynamicsWorld s) (ghostObject s) (ghostOrigin s)
    (ghostRotation s) (currentPosition s) (targetPosition s) (currentUp s)
    (verticalVelocity s) (verticalOffset s) (walkDirection s)
    (normalizedDirection s) v (gravity s) (maxFallSpeed s) (jumpSpeed s)
    (isOnGround s) (isJumping s) (isHovering s) (jumpToHoverStart s)
    (maxSlopeCosine s) (lastStepUp s) (radius s) (halfHeight s)
    (stepUpHeight s) (stepDownHeight s) (addedMargin s) (shapeMargin s)
    (floorNormal s) (touchingContact s) (pendingFlags s) (lastPosition s)
    (stepDt s) (shapeLocalOffset s).

Definition set_gravity (v : R) (s : State) : State :=
  mkState (enabled s) (dynamicsWorld s) (ghostObject s) (ghostOrigin s)
    (ghostRotation s) (currentPosition s) (targetPosition s) (currentUp s)
    (verticalVelocity s) (verticalOffset s) (walkDirection s)
    (normalizedDirection s) (velocityTimeInterval s) v (maxFallSpeed s)
    (jumpSpeed s) (isOnGround s) (isJumping s) (isHovering s)
    (jumpToHoverStart s) (maxSlopeCosine s) (lastStepUp s) (radius s)
    (halfHeight s) (stepUpHeight s) (stepDownHeight s) (addedMargin s)
    (shapeMargin s) (floorNormal s) (touchingContact s) (pendingFlags s)
    (lastPosition s) (stepDt s) (shapeLocalOffset s).

Definition set_maxFallSpeed (v : R) (s : State) : State :=
  mkState (enabled s) (dynamicsWorld s) (ghostObject s) (ghostOrigin s)
    (ghostRotation s) (currentPosition s) (targetPosition s) (currentUp s)
    (verticalVelocity s) (verticalOffset s) (walkDirection s)
    (normalizedDirection s) (velocityTimeInterval s) (gravity s) v
    (jumpSpeed s) (isOnGround s) (isJumping s) (isHovering s)
    (jumpToHoverStart s) (maxSlopeCosine s) (lastStepUp s) (radius s)
    (halfHeight s) (stepUpHeight s) (stepDownHeight s) (addedMargin s)
    (shapeMargin s) (floorNormal s) (touchingContact s) (pendingFlags s)
    (lastPosition s) (stepDt s) (shapeLocalOffset s).

Definition set_jumpSpeed (v : R) (s : State) : State :=
  mkState (enabled s) (dynamicsWorld s) (ghostObject s) (ghostOrigin s)
    (ghostRotation s) (currentPosition s) (targetPosition s) (currentUp s)
    (verticalVelocity s) (verticalOffset s) (walkDirection s)
    (normalizedDirection s) (velocityTimeInterval s) (gravity s)
    (maxFallSpeed s) v (isOnGround s) (isJumping s) (isHovering s)
    (jumpToHoverStart s) (maxSlopeCosine s) (lastStepUp s) (radius s)
    (halfHeight s) (stepUpHeight s) (stepDownHeight s) (addedMargin s)
    (shapeMargin s) (floorNormal s) (touchingContact s) (pendingFlags s)
    (lastPosition s) (stepDt s) (shapeLocalOffset s).

Definition set_isOnGround (v : bool) (s : State) : State :=
  mkState (enabled s) (dynamicsWorld s) (ghostObject s) (ghostOrigin s)
    (ghostRotation s) (currentPosition s) (targetPosition s) (currentUp s)
    (verticalVelocity s) (verticalOffset s) (walkDirection s)
    (normalizedDirection s) (velocityTimeInterval s) (gravity s)
    (maxFallSpeed s) (jumpSpeed s) v (isJumping s) (isHovering s)
    (jumpToHoverStart s) (maxSlopeCosine s) (lastStepUp s) (radius s)
    (halfHeight s) (stepUpHeight s) (stepDownHeight s) (addedMargin s)
    (shapeMargin s) (floorNormal s) (touchingContact s) (pendingFlags s)
    (lastPosition s) (stepDt s) (shapeLocalOffset s).

Definition set_isJumping (v : bool) (s : State) : State :=
  mkState (enabled s) (dynamicsWorld s) (ghostObject s) (ghostOrigin s)
    (ghostRotation s) (currentPosition s) (targetPosition s) (currentUp s)
    (verticalVelocity s) (verticalOffset s) (walkDirection s)
    (normalizedDirection s) (velocityTimeInterval s) (gravity s)
    (maxFallSpeed s) (jumpSpeed s) (isOnGround s) v (isHovering s)
    (jumpToHoverStart s) (maxSlopeCosine s) (lastStepUp s) (radius s)
    (halfHeight s) (stepUpHeight s) (stepDownHeight s) (addedMargin s)
    (shapeMargin s) (floorNormal s) (touchingContact s) (pendingFlags s)
    (lastPosition s) (stepDt s) (shapeLocalOffset s).

Definition set_isHovering (v : bool) (s : State) : State :=
  mkState (enabled s) (dynamicsWorld s) (ghostObject s) (ghostOrigin s)
    (ghostRotation s) (currentPosition s) (targetPosition s) (currentUp s)
    (verticalVelocity s) (verticalOffset s) (walkDirection s)
    (normalizedDirection s) (velocityTimeInterval s) (gravity s)
    (maxFallSpeed s) (jumpSpeed s) (isOnGround s) (isJumping s) v
    (jumpToHoverStart s) (maxSlopeCosine s) (lastStepUp s) (radius s)
    (halfHeight s) (stepUpHeight s) (stepDownHeight s) (addedMargin s)
    (shapeMargin s) (floorNormal s) (touchingContact s) (pendingFlags s)
    (lastPosition s) (stepDt s) (shapeLocalOffset s).

Definition set_jumpToHoverStart (v : Z) (s : State) : State :=
  mkState (enabled s) (dynamicsWorld s) (ghostObject s) (ghostOrigin s)
    (ghostRotation s) (currentPosition s) (targetPosition s) (currentUp s)
    (verticalVelocity s) (verticalOffset s) (walkDirection s)
    (normalizedDirection s) (velocityTimeInterval s) (gravity s)
    (maxFallSpeed s) (jumpSpeed s) (isOnGround s) (isJumping s) (isHovering s)
    v (maxSlopeCosine s) (lastStepUp s) (radius s) (halfHeight s)
    (stepUpHeight s) (stepDownHeight s) (addedMargin s) (shapeMargin s)
    (floorNormal s) (touchingContact s) (pendingFlags s) (lastPosition s)
    (stepDt s) (shapeLocalOffset s).

Definition set_lastStepUp (v : R) (s : State) : State :=
  mkState (enabled s) (dynamicsWorld s) (ghostObject s) (ghostOrigin s)
    (ghostRotation s) (currentPosition s) (targetPosition s) (currentUp s)
    (verticalVelocity s) (verticalOffset s) (walkDirection s)
    (normalizedDirection s) (velocityTimeInterval s) (gravity s)
    (maxFallSpeed s) (jumpSpeed s) (isOnGround s) (isJumping s) (isHovering s)
    (jumpToHoverStart s) (maxSlopeCosine s) v (radius s) (halfHeight s)
    (stepUpHeight s) (stepDownHeight s) (addedMargin s) (shapeMargin s)
    (floorNormal s) (touchingContact s) (pendingFlags s) (lastPosition s)
    (stepDt s) (shapeLocalOffset s).

Definition set_shapeMargin (v : R) (s : State) : State :=
  mkState (enabled s) (dynamicsWorld s) (ghostObject s) (ghostOrigin s)
    (ghostRotation s) (currentPosition s) (targetPosition s) (currentUp s)
    (verticalVelocity s) (verticalOffset s) (walkDirection s)
    (normalizedDirection s) (velocityTimeInterval s) (gravity s)
    (maxFallSpeed s) (jumpSpeed s) (isOnGround s) (isJumping s) (isHovering s)
    (jumpToHoverStart s) (maxSlopeCosine s) (lastStepUp s) (radius s)
    (halfHeight s) (stepUpHeight s) (stepDownHeight s) (addedMargin s) v
    (floorNormal s) (touchingContact s) (pendingFlags s) (lastPosition s)
    (stepDt s) (shapeLocalOffset s).

Definition set_floorNormal (v : Vec3.t) (s : State) : State :=
  mkState (enabled s) (dynamicsWorld s) (ghostObject s) (ghostOrigin s)
    (ghostRotation s) (currentPosition s) (targetPosition s) (currentUp s)
    (verticalVelocity s) (verticalOffset s) (walkDirection s)
    (normalizedDirection s) (velocityTimeInterval s) (gravity s)
    (maxFallSpeed s) (jumpSpeed s) (isOnGround s) (isJumping s) (isHovering s)
    (jumpToHoverStart s) (maxSlopeCosine s) (lastStepUp s) (radius s)
    (halfHeight s) (stepUpHeight s) (stepDownHeight s) (addedMargin s)
    (shapeMargin s) v (touchingContact s) (pendingFlags s) (lastPosition s)
    (stepDt s) (shapeLocalOffset s).

Definition set_touchingContact (v : bool) (s : State) : State :=
  mkState (enabled s) (dynamicsWorld s) (ghostObject s) (ghostOrigin s)
    (ghostRotation s) (currentPosition s) (targetPosition s) (currentUp s)
    (verticalVelocity s) (verticalOffset s) (walkDirection s)
    (normalizedDirection s) (velocityTimeInterval s) (gravity s)
    (maxFallSpeed s) (jumpSpeed s) (isOnGround s) (isJumping s) (isHovering s)
    (jumpToHoverStart s) (maxSlopeCosine s) (lastStepUp s) (radius s)
    (halfHeight s) (stepUpHeight s) (stepDownHeight s) (addedMargin s)
    (shapeMargin s) (floorNormal s) v (pendingFlags s) (lastPosition s)
    (stepDt s) (shapeLocalOffset s).

Definition set_pendingFlags (v : Z) (s : State) : State :=
  mkState (enabled s) (dynamicsWorld s) (ghostObject s) (ghostOrigin s)
    (ghostRotation s) (currentPosition s) (targetPosition s) (currentUp s)
    (verticalVelocity s) (verticalOffset s) (walkDirection s)
    (normalizedDirection s) (velocityTimeInterval s) (gravity s)
    (maxFallSpeed s) (jumpSpeed s) (isOnGround s) (isJumping s) (isHovering s)
    (jumpToHoverStart s) (maxSlopeCosine s) (lastStepUp s) (radius s)
    (halfHeight s) (stepUpHeight s) (stepDownHeight s) (addedMargin s)
    (shapeMargin s) (floorNormal s) (touchingContact s) v (lastPosition s)
    (stepDt s) (shapeLocalOffset s).

Definition set_lastPosition (v : Vec3.t) (s : State) : State :=
  mkState (enabled s) (dynamicsWorld s) (ghostObject s) (ghostOrigin s)
    (ghostRotation s) (currentPosition s) (targetPosition s) (currentUp s)
    (verticalVelocity s) (verticalOffset s) (walkDirection s)
    (normalizedDirection s) (velocityTimeInterval s) (gravity s)
    (maxFallSpeed s) (jumpSpeed s) (isOnGround s) (isJumping s) (isHovering s)
    (jumpToHoverStart s) (maxSlopeCosine s) (lastStepUp s) (radius s)
    (halfHeight s) (stepUpHeight s) (stepDownHeight s) (addedMargin s)
    (shapeMargin s) (floorNormal s) (touchingContact s) (pendingFlags s) v
    (stepDt s) (shapeLocalOffset s).

Definition set_stepDt (v : R) (s : State) : State :=
  mkState (enabled s) (dynamicsWorld s) (ghostObject s) (ghostOrigin s)
    (ghostRotation s) (currentPosition s) (targetPosition s) (currentUp s)
    (verticalVelocity s) (verticalOffset s) (walkDirection s)
    (normalizedDirection s) (velocityTimeInterval s) (gravity s)
    (maxFallSpeed s) (jumpSpeed s) (isOnGround s) (isJumping s) (isHovering s)
    (jumpToHoverStart s) (maxSlopeCosine s) (lastStepUp s) (radius s)
    (halfHeight s) (stepUpHeight s) (stepDownHeight s) (addedMargin s)
    (shapeMargin s) (floorNormal s) (touchingContact s) (pendingFlags s)
    (lastPosition s) v (shapeLocalOffset s).
(** ** Penetration recovery *)

(** The body of the innermost loop of [recoverFromPenetration], for one
    contact point.  The accumulator holds the locals [maxPen] and
    [penetration] and the controller; [currentPosition0] is the local copy
    [currentPosition] taken before the loops. *)
Definition recoverContact (currentPosition0 : Vec3.t) (directionSign : R)
    (acc : R * bool * State) (pt : ManifoldPoint) : R * bool * State :=
  let '(maxPen, penetration, s) := acc in
  let dist := getDistance pt in
  if Scalar.ltb dist 0 then
    let normal := directionSign *v m_normalWorldOnB pt in
    let normalDotUp := Vec3.dot normal (currentUp s) in
    let useContact :=
      if Scalar.ltb normalDotUp (maxSlopeCosine s) then
        let collisionPoint :=
          if Scalar.gtb directionSign 0 then getPositionWorldOnB pt
          else getPositionWorldOnA pt in
        let characterBase :=
          currentPosition0 -v (radius s + halfHeight s) *v currentUp s in
        let collisionPoint := collisionPoint -v characterBase in
        let collisionHeight := Vec3.dot collisionPoint (currentUp s) in
        if Scalar.ltb collisionHeight (lastStepUp s) then false else true
      else true in
    if useContact then
      let '(maxPen, s) :=
        if Scalar.ltb dist maxPen then (dist, set_floorNormal normal s)
        else (maxPen, s) in
      let INCREMENTAL_RESOLUTION_FACTOR := 2 / 10 in
      (maxPen, true,
       set_currentPosition
         (currentPosition s
            +v (Scalar.fabsf dist * INCREMENTAL_RESOLUTION_FACTOR) *v normal) s)
    else acc
  else acc.

(** The local [directionSign]: 1 when body 0 of the manifold is the ghost
    object, -1 otherwise. *)
Definition directionSign (ghost : option nat) (manifold : PersistentManifold)
    : R :=
  match ghost with
  | Some g => if Nat.eqb (getBody0 manifold) g then 1 else -1
  | None => -1
  end.

Definition recoverManifold (currentPosition0 : Vec3.t)
    (acc : R * bool * State) (manifold : PersistentManifold)
    : R * bool * State :=
  fold_left
    (recoverContact currentPosition0
       (directionSign (ghostObject (snd acc)) manifold))
    (contactPoints manifold) acc.

Definition lacksContactResponse (o : option CollisionObject) : bool :=
  match o with
  | Some obj => negb (hasContactResponse obj)
  | None => false
  end.

Definition recoverPair (currentPosition0 : Vec3.t)
    (acc : R * bool * State) (collisionPair : BroadphasePair)
    : R * bool * State :=
  if lacksContactResponse (obj0 collisionPair)
     || lacksContactResponse (obj1 collisionPair)
  then acc
  else
    let manifoldArray :=
      match m_algorithm collisionPair with
      | Some manifolds => manifolds
      | None => []
      end in
    fold_left (recoverManifold currentPosition0) manifoldArray acc.

Definition recoverFromPenetration (collisionWorld : CollisionWorld)
    (s : State) : bool * State :=
  let pairs := overlappingPairs collisionWorld (ghostOrigin s) in
  let s := set_currentPosition (ghostOrigin s) s in
  let currentPosition0 := currentPosition s in
  let '(_, penetration, s) :=
    fold_left (recoverPair currentPosition0) pairs (0, false, s) in
  (penetration, set_ghostOrigin (currentPosition s) s).

(** The [while] loop of [preStep]; [fuel] bounds the number of calls, and
    five are enough since the loop breaks once [numPenetrationLoops > 4]. *)
Fixpoint preStep_loop (fuel : nat) (collisionWorld : CollisionWorld)
    (numPenetrationLoops : Z) (s : State) : State :=
  match fuel with
  | O => s
  | S fuel' =>
      let '(penetration, s) := recoverFromPenetration collisionWorld s in
      if penetration then
        let numPenetrationLoops := (numPenetrationLoops + 1)%Z in
        let s := set_touchingContact true s in
        if (4 <? numPenetrationLoops)%Z then s
        else preStep_loop fuel' collisionWorld numPenetrationLoops s
      else s
  end.

Definition preStep (collisionWorld : CollisionWorld) (s : State) : State :=
  if negb (enabled s) then s
  else
    let s := set_touchingContact false s in
    let s := preStep_loop 5 collisionWorld 0%Z s in
    set_currentPosition (ghostOrigin s) s.

(** ** The phases of a step *)

(** The ray cast that [scanDown] makes, with its callback. *)
Definition scanDown_ray (world : CollisionWorld) (s : State)
    : ClosestRayResultCallback.t :=
  let start := currentPosition s in
  let MAX_SCAN_HEIGHT := 20 + halfHeight s + radius s in
  let end_ := start -v MAX_SCAN_HEIGHT *v currentUp s in
  rayTest
    (KinematicClosestNotMeRayResultCallback.addSingleResult (ghostObject s))
    (rayCandidates world start end_)
    (ClosestRayResultCallback.init (Vec3.mk 0 0 0) (Vec3.mk 0 0 0)).

Definition scanDown (world : CollisionWorld) (s : State) : State :=
  let MAX_SCAN_HEIGHT := 20 + halfHeight s + radius s in
  let MIN_HOVER_HEIGHT := 3 + halfHeight s + radius s in
  let callback := scanDown_ray world s in
  if negb (ClosestRayResultCallback.hasHit callback) then
    set_isHovering true s
  else if isHovering s
          && Scalar.ltb
               (ClosestRayResultCallback.m_closestHitFraction callback
                  * MAX_SCAN_HEIGHT)
               MIN_HOVER_HEIGHT then
    set_isHovering false s
  else s.

(** The sweep that [stepUp] makes, with its callback. *)
Definition stepUp_sweep (world : CollisionWorld) (s : State)
    : ClosestConvexResultCallback.t :=
  let start :=
    currentPosition s +v (shapeMargin s + addedMargin s) *v currentUp s in
  let end_ := currentPosition s +v stepUpHeight s *v currentUp s in
  let sweepDirNegative := Vec3.neg (currentUp s) in
  convexSweepTest
    (KinematicClosestNotMeConvexResultCallback.addSingleResult (ghostObject s)
       sweepDirNegative (7071 / 10000))
    (sweepCandidates world (shapeMargin s) start end_)
    ClosestConvexResultCallback.init.

Definition stepUp (world : CollisionWorld) (s : State) : State :=
  let callback := stepUp_sweep world s in
  let s :=
    set_targetPosition (currentPosition s +v stepUpHeight s *v currentUp s) s in
  if ClosestConvexResultCallback.hasHit callback then
    let s := set_verticalVelocity 0 s in
    let s := set_verticalOffset 0 s in
    if Scalar.gtb
         (Vec3.dot (ClosestConvexResultCallback.m_hitNormalWorld callback)
            (currentUp s)) 0
    then
      let s :=
        set_lastStepUp
          (stepUpHeight s
             * ClosestConvexResultCallback.m_closestHitFraction callback) s in
      set_currentPosition
        (Vec3.interpolate3 (currentPosition s) (targetPosition s)
           (ClosestConvexResultCallback.m_closestHitFraction callback)) s
    else
      let s := set_lastStepUp (stepUpHeight s) s in
      set_currentPosition (targetPosition s) s
  else
    let s := set_currentPosition (targetPosition s) s in
    set_lastStepUp (stepUpHeight s) s.

(** A sweep made by a phase, as the engine sees it: where it starts, where
    it ends, and the callback once the sweep is over. *)
Record Sweep : Type := mkSweep {
  sweepStart : Vec3.t;
  sweepEnd : Vec3.t;
  sweepResult : ClosestConvexResultCallback.t
}.

Definition sweepHit (r : Sweep) : bool :=
  ClosestConvexResultCallback.hasHit (sweepResult r).

Definition MIN_STEP_DISTANCE_SQUARED : R := / 1000000.

(** The forward sweep of one iteration of [stepForward]. *)
Definition stepForward_sweep (collisionWorld : CollisionWorld) (s : State)
    : ClosestConvexResultCallback.t :=
  let sweepDirNegative := currentPosition s -v targetPosition s in
  convexSweepTest
    (KinematicClosestNotMeConvexResultCallback.addSingleResult (ghostObject s)
       sweepDirNegative 0)
    (sweepCandidates collisionWorld (shapeMargin s) (currentPosition s)
       (targetPosition s))
    ClosestConvexResultCallback.init.

(** The [while] loop of [stepForward], by recursion on [maxIter]; next to
    the controller it returns the sweeps it made, in order. *)
Fixpoint stepForward_loop (collisionWorld : CollisionWorld) (maxIter : nat)
    (stepLength2 : R) (s : State) : State * list Sweep :=
  if Scalar.gtb stepLength2 MIN_STEP_DISTANCE_SQUARED then
    match maxIter with
    | O => (s, [])
    | S maxIter' =>
        let callback := stepForward_sweep collisionWorld s in
        let this_sweep :=
          mkSweep (currentPosition s) (targetPosition s) callback in
        if ClosestConvexResultCallback.hasHit callback then
          let step := targetPosition s -v currentPosition s in
          let stepDotNormal :=
            Vec3.dot step (ClosestConvexResultCallback.m_hitNormalWorld callback) in
          let step :=
            step
              +v (stepDotNormal
                  * (1 - ClosestConvexResultCallback.m_closestHitFraction callback))
                 *v ClosestConvexResultCallback.m_hitNormalWorld callback in
          let s := set_targetPosition (currentPosition s +v step) s in
          let stepLength2 := Vec3.length2 step in
          let '(s, sweeps) :=
            stepForward_loop collisionWorld maxIter' stepLength2 s in
          (s, this_sweep :: sweeps)
        else
          (set_currentPosition (targetPosition s) s, [this_sweep])
    end
  else (s, []).

Definition stepForward_sweeps (collisionWorld : CollisionWorld)
    (movement : Vec3.t) (s : State) : State * list Sweep :=
  let s := set_targetPosition (currentPosition s +v movement) s in
  let margin := shapeMargin s in
  let s := set_shapeMargin (margin + addedMargin s) s in
  let step := targetPosition s -v currentPosition s in
  let stepLength2 := Vec3.length2 step in
  let maxIter := 10%nat in
  let '(s, sweeps) := stepForward_loop collisionWorld maxIter stepLength2 s in
  (set_shapeMargin margin s, sweeps).

Definition stepForward (collisionWorld : CollisionWorld) (movement : Vec3.t)
    (s : State) : State :=
  fst (stepForward_sweeps collisionWorld movement s).

(** [stepDown]; next to the controller it returns the sweeps it made, in
    order.  The second callback is constructed before [_currentPosition] is
    moved to the end of the first sweep, so its [_start] is the start of the
    first sweep. *)
Definition stepDown_sweeps (collisionWorld : CollisionWorld) (dt : R)
    (s : State) : State * list Sweep :=
  let step := (verticalVelocity s * dt - lastStepUp s) *v currentUp s in
  let callback_add :=
    StepDownConvexResultCallback.addSingleResult (ghostObject s) (currentUp s)
      (currentPosition s) step (walkDirection s) (maxSlopeCosine s)
      (radius s) (halfHeight s) in
  let s := set_targetPosition (currentPosition s +v step) s in
  let callback :=
    convexSweepTest callback_add
      (sweepCandidates collisionWorld (shapeMargin s) (currentPosition s)
         (targetPosition s))
      ClosestConvexResultCallback.init in
  let sweep1 := mkSweep (currentPosition s) (targetPosition s) callback in
  let s := set_isOnGround false s in
  if ClosestConvexResultCallback.hasHit callback then
    let s :=
      set_currentPosition
        (currentPosition s
           +v ClosestConvexResultCallback.m_closestHitFraction callback *v step)
        s in
    let s := set_verticalVelocity 0 s in
    let s := set_verticalOffset 0 s in
    let s := set_isJumping false s in
    (set_isOnGround true s, [sweep1])
  else if negb (isJumping s) then
    let step := (- stepDownHeight s) *v currentUp s in
    let callback2_add :=
      StepDownConvexResultCallback.addSingleResult (ghostObject s)
        (currentUp s) (currentPosition s) step (walkDirection s)
        (maxSlopeCosine s) (radius s) (halfHeight s) in
    let s := set_currentPosition (targetPosition s) s in
    let s := set_targetPosition (currentPosition s +v step) s in
    let callback2 :=
      convexSweepTest callback2_add
        (sweepCandidates collisionWorld (shapeMargin s) (currentPosition s)
           (targetPosition s))
        ClosestConvexResultCallback.init in
    let sweep2 := mkSweep (currentPosition s) (targetPosition s) callback2 in
    if ClosestConvexResultCallback.hasHit callback2 then
      let s :=
        set_currentPosition
          (currentPosition s
             +v ClosestConvexResultCallback.m_closestHitFraction callback2
                *v step)
          s in
      let s := set_verticalVelocity 0 s in
      let s := set_verticalOffset 0 s in
      let s := set_isJumping false s in
      (set_isOnGround true s, [sweep1; sweep2])
    else
      (set_lastStepUp 0 s, [sweep1; sweep2])
  else
    (set_currentPosition (targetPosition s) s, [sweep1]).

Definition stepDown (collisionWorld : CollisionWorld) (dt : R) (s : State)
    : State :=
  fst (stepDown_sweeps collisionWorld dt s).

(** ** Per-tick orchestration *)

(** The update of the fall velocity at the start of [playerStep]. *)
Definition updateFallVelocity (dt : R) (s : State) : State :=
  if isHovering s then
    let HOVER_RELAXATION_TIMESCALE := 1 in
    set_verticalVelocity
      (verticalVelocity s * (1 - dt / HOVER_RELAXATION_TIMESCALE)) s
  else
    let s := set_verticalVelocity (verticalVelocity s - gravity s * dt) s in
    if Scalar.gtb (verticalVelocity s) (jumpSpeed s) then
      set_verticalVelocity (jumpSpeed s) s
    else if Scalar.ltb (verticalVelocity s) (- maxFallSpeed s) then
      set_verticalVelocity (- maxFallSpeed s) s
    else s.

Definition playerStep (collisionWorld : CollisionWorld) (dt : R) (s : State)
    : State :=
  if negb (enabled s) then s
  else
    let s := updateFallVelocity dt s in
    let s := set_verticalOffset (verticalVelocity s * dt) s in
    let xform_rotation := ghostRotation s in
    let s := scanDown collisionWorld s in
    let s := stepUp collisionWorld s in
    let dtMoving :=
      if Scalar.ltb dt (velocityTimeInterval s) then dt
      else velocityTimeInterval s in
    let s := set_velocityTimeInterval (velocityTimeInterval s - dt) s in
    let s := set_stepDt (stepDt s + dt) s in
    let move := dtMoving *v walkDirection s in
    let s := stepForward collisionWorld move s in
    let s := stepDown collisionWorld dt s in
    set_ghostOrigin (currentPosition s) (set_ghostRotation xform_rotation s).

Definition setMaxFallSpeed (speed : R) (s : State) : State :=
  set_maxFallSpeed speed s.

Definition setJumpSpeed (jumpSpeed' : R) (s : State) : State :=
  set_jumpSpeed jumpSpeed' s.

Definition setGravity (gravity' : R) (s : State) : State :=
  set_gravity gravity' s.

Definition canJump (s : State) : bool := isOnGround s.

Definition onGround (s : State) : bool := isOnGround s.

(** [jump]; [now] is what [usecTimestampNow()] returns during the call, a
    [quint64]. *)
Definition jump (now : Z) (s : State) : State :=
  let s := set_pendingFlags (Z.lor (pendingFlags s) PENDING_FLAG_JUMP) s in
  if negb (isHovering s) then
    if negb (isJumping s) then set_jumpToHoverStart now s
    else
      let JUMP_TO_HOVER_PERIOD := USECS_PER_SECOND in
      if ((now - jumpToHoverStart s) mod 2 ^ 64 <? JUMP_TO_HOVER_PERIOD)%Z
      then set_isHovering true s
      else s
  else s.

Definition setVelocityForTimeInterval (velocity : Vec3.t) (timeInterval : R)
    (s : State) : option State :=
  let s := set_walkDirection velocity s in
  match getNormalizedVector (walkDirection s) with
  | Some n =>
      let s := set_normalizedDirection n s in
      Some (set_velocityTimeInterval (velocityTimeInterval s + timeInterval) s)
  | None => None
  end.

(** [reset], on the controller; flushing the pair cache is the world's
    business. *)
Definition reset (s : State) : State :=
  let s := set_verticalVelocity 0 s in
  let s := set_verticalOffset 0 s in
  let s := set_isOnGround false s in
  let s := set_isJumping false s in
  let s := set_walkDirection (Vec3.mk 0 0 0) s in
  set_velocityTimeInterval 0 s.

Definition warp (origin : Vec3.t) (s : State) : State :=
  set_ghostOrigin origin
    (set_ghostRotation (Basis.getRotation Mat3.identity) s).

(** ** Enrollment in the simulation *)

Definition needsAddition (s : State) : bool :=
  to_bool (Z.land (pendingFlags s) PENDING_FLAG_ADD_TO_SIMULATION).

Definition needsRemoval (s : State) : bool :=
  to_bool (Z.land (pendingFlags s) PENDING_FLAG_REMOVE_FROM_SIMULATION).

Definition isRegistered (s : State) : bool :=
  match dynamicsWorld s with Some _ => true | None => false end.

Definition setEnabled (enabled' : bool) (s : State) : State :=
  if negb (Bool.eqb enabled' (enabled s)) then
    let s :=
      if enabled' then
        let s :=
          set_pendingFlags
            (Z.lor (pendingFlags s) PENDING_FLAG_ADD_TO_SIMULATION) s in
        set_isHovering true s
      else
        let s :=
          if isRegistered s then
            set_pendingFlags
              (Z.lor (pendingFlags s) PENDING_FLAG_REMOVE_FROM_SIMULATION) s
          else s in
        let s :=
          set_pendingFlags
            (Z.land (pendingFlags s) (not32 PENDING_FLAG_ADD_TO_SIMULATION)) s in
        set_isOnGround false s in
    set_enabled enabled' s
  else s.

Definition same_world (a b : option nat) : bool :=
  match a, b with
  | Some x, Some y => Nat.eqb x y
  | None, None => true
  | _, _ => false
  end.

(** [setDynamicsWorld], on the controller; adding and removing the ghost
    object and the action is the world's business. *)
Definition setDynamicsWorld (world : option nat) (s : State) : State :=
  let s :=
    if negb (same_world (dynamicsWorld s) world) then
      let s := if isRegistered s then set_dynamicsWorld None s else s in
      match world, ghostObject s with
      | Some w, Some _ =>
          let s := set_dynamicsWorld (Some w) s in
          let s :=
            set_pendingFlags
              (Z.land (pendingFlags s) (not32 PENDING_FLAG_JUMP)) s in
          reset s
      | _, _ => s
      end
    else s in
  if isRegistered s then
    if to_bool (Z.land (pendingFlags s) PENDING_FLAG_UPDATE_SHAPE) then
      set_pendingFlags
        (Z.lor (pendingFlags s)
           (Z.lor PENDING_FLAG_ADD_TO_SIMULATION
              PENDING_FLAG_REMOVE_FROM_SIMULATION)) s
    else
      set_pendingFlags
        (Z.land (pendingFlags s) (not32 PENDING_FLAG_ADD_TO_SIMULATION)) s
  else
    set_pendingFlags
      (Z.land (pendingFlags s) (not32 PENDING_FLAG_REMOVE_FROM_SIMULATION)) s.

(** ** The adapters to and from the avatar *)

(** What the controller reads from and writes to [AvatarData]. *)
Record AvatarData : Type := mkAvatarData {
  getOrientation : Quat.t;
  getPosition : Vec3.t;
  getVelocity : Vec3.t
}.

Definition preSimulation (avatarData : AvatarData) (timeStep : R) (s : State)
    : option State :=
  if enabled s && isRegistered s then
    let rotation := getOrientation avatarData in
    let s := set_currentUp (Quat.quatRotate rotation LOCAL_UP_AXIS) s in
    let position :=
      getPosition avatarData +v Quat.rotate rotation (shapeLocalOffset s) in
    let walkVelocity := getVelocity avatarData in
    let s :=
      set_ghostOrigin position
        (set_ghostRotation (transformRotation rotation) s) in
    match setVelocityForTimeInterval walkVelocity timeStep s with
    | Some s =>
        let s :=
          if to_bool (Z.land (pendingFlags s) PENDING_FLAG_JUMP) then
            let s :=
              set_pendingFlags
                (Z.land (pendingFlags s) (not32 PENDING_FLAG_JUMP)) s in
            if canJump s then
              let s := set_verticalVelocity (jumpSpeed s) s in
              set_isJumping true s
            else s
          else s in
        let s := set_lastPosition position s in
        Some (set_stepDt 0 s)
    | None => None
    end
  else Some s.

(** The local [maxStepLength] of [postSimulation]. *)
Definition maxStepLength (s : State) : R :=
  let finalVelocity := walkDirection s +v verticalVelocity s *v currentUp s in
  let MAX_RESOLUTION_SPEED := 5 in
  Scalar.max MAX_RESOLUTION_SPEED (2 * Vec3.length finalVelocity) * stepDt s.

(** The local [position] of [postSimulation] when it is written to the
    avatar, before the rotated shape offset is subtracted. *)
Definition throttledPosition (s : State) : option Vec3.t :=
  let position := ghostOrigin s in
  let finalStep := position -v lastPosition s in
  let stepLength := Vec3.length finalStep in
  if Scalar.gtb stepLength (maxStepLength s) then
    match Scalar.div (maxStepLength s) stepLength with
    | Some ratio => Some (lastPosition s +v ratio *v finalStep)
    | None => None
    end
  else Some position.

Definition hasGhostObject (s : State) : bool :=
  match ghostObject s with Some _ => true | None => false end.

Definition postSimulation (s : State) (avatarData : AvatarData)
    : option AvatarData :=
  if enabled s && hasGhostObject s then
    let rotation := ghostRotation s in
    match throttledPosition s with
    | Some position =>
        Some (mkAvatarData rotation
                (position -v Quat.rotate rotation (shapeLocalOffset s))
                (getVelocity avatarData))
    | None => None
    end
  else Some avatarData.

(** ** Notions used in the statements *)

(** The candidates of the sweep of [stepUp]. *)
Definition stepUp_candidates (world : CollisionWorld) (s : State)
    : list (LocalConvexResult.t * bool) :=
  sweepCandidates world (shapeMargin s)
    (currentPosition s +v (shapeMargin s + addedMargin s) *v currentUp s)
    (currentPosition s +v stepUpHeight s *v currentUp s).

(** The contacts that the callback of [stepUp] records. *)
Definition stepUp_accepts (s : State) (c : LocalConvexResult.t * bool) : bool :=
  KinematicClosestNotMeConvexResultCallback.accepts (ghostObject s)
    (Vec3.neg (currentUp s)) (7071 / 10000) (fst c) (snd c).

(** A contact that [recoverFromPenetration] does not use: a penetrating
    contact on a non-walkable surface, below [lastStepUp] above the
    character's base. *)
Definition softContact (currentPosition0 : Vec3.t) (directionSign : R)
    (s : State) (pt : ManifoldPoint) : Prop :=
  getDistance pt < 0 /\
  Vec3.dot (directionSign *v m_normalWorldOnB pt) (currentUp s)
  < maxSlopeCosine s /\
  Vec3.dot
    ((if Scalar.gtb directionSign 0 then getPositionWorldOnB pt
      else getPositionWorldOnA pt)
     -v (currentPosition0 -v (radius s + halfHeight s) *v currentUp s))
    (currentUp s)
  < lastStepUp s.

(** What the loops of [recoverFromPenetration] leave alone. *)
Definition sameSetup (s s' : State) : Prop :=
  ghostObject s' = ghostObject s /\
  currentUp s' = currentUp s /\
  maxSlopeCosine s' = maxSlopeCosine s /\
  radius s' = radius s /\
  halfHeight s' = halfHeight s /\
  lastStepUp s' = lastStepUp s.

(** The vertical velocity is within the speed limits [m] (falling) and [j]
    (rising), which are the controller's own. *)
Definition clamped (m j : R) (s : State) : Prop :=
  maxFallSpeed s = m /\ jumpSpeed s = j /\ - m <= verticalVelocity s <= j.

(** The step that remains when a sweep starts. *)
Definition remainingStep (r : Sweep) : Vec3.t := sweepEnd r -v sweepStart r.

(** The remaining step [s] of a sweep that hit with normal [n] and fraction
    [f], once deflected: [s + (s . n) (1 - f) n]. *)
Definition deflectedStep (r : Sweep) : Vec3.t :=
  let s := remainingStep r in
  let n := ClosestConvexResultCallback.m_hitNormalWorld (sweepResult r) in
  let f := ClosestConvexResultCallback.m_closestHitFraction (sweepResult r) in
  s +v (Vec3.dot s n * (1 - f)) *v n.

(** Every sweep but the last reported a hit, and the next sweep starts at
    the same point and ends at that point plus the deflected step. *)
Fixpoint deflections (sweeps : list Sweep) : Prop :=
  match sweeps with
  | r :: rest =>
      match rest with
      | r' :: _ =>
          sweepHit r = true /\
          sweepStart r' = sweepStart r /\
          sweepEnd r' = sweepStart r +v deflectedStep r
      | [] => True
      end /\ deflections rest
  | [] => True
  end.

Fixpoint lastSweep (sweeps : list Sweep) : option Sweep :=
  match sweeps with
  | [] => None
  | r :: rest =>
      match lastSweep rest with
      | Some r' => Some r'
      | None => Some r
      end
  end.

(** Where the controller is left, given the sweeps made from position
    [start] towards [target]. *)
Definition forwardOutcome (start target : Vec3.t) (sweeps : list Sweep)
    (s' : State) : Prop :=
  match lastSweep sweeps with
  | None => currentPosition s' = start /\ targetPosition s' = target
  | Some r =>
      if sweepHit r then
        currentPosition s' = start /\
        targetPosition s' = start +v deflectedStep r
      else
        currentPosition s' = sweepEnd r /\ targetPosition s' = sweepEnd r
  end.

(** What holds of the sweeps of a run of the loop entered with [maxIter]
    iterations left. *)
Definition forwardSweeps (maxIter : nat) (start target : Vec3.t)
    (sweeps : list Sweep) : Prop :=
  (length sweeps <= maxIter)%nat /\
  Forall
    (fun r =>
       sweepStart r = start /\
       MIN_STEP_DISTANCE_SQUARED < Vec3.length2 (remainingStep r))
    sweeps /\
  (forall r rest, sweeps = r :: rest -> sweepEnd r = target) /\
  deflections sweeps /\
  (sweeps = [] ->
   Vec3.length2 (target -v start) <= MIN_STEP_DISTANCE_SQUARED
   \/ maxIter = O) /\
  (forall r, lastSweep sweeps = Some r -> sweepHit r = true ->
     Vec3.length2 (deflectedStep r) <= MIN_STEP_DISTANCE_SQUARED
     \/ length sweeps = maxIter).

(** What holds of a forward sweep that reported a hit: the hit lies before
    the end of the sweep, on an object that is not the ghost object and has
    contact response, and the step that remained does not point away from
    the hit surface. *)
Definition forwardHit (ghost : option nat) (r : Sweep) : Prop :=
  sweepHit r = true ->
  ClosestConvexResultCallback.m_closestHitFraction (sweepResult r) < 1 /\
  Vec3.dot (remainingStep r)
    (ClosestConvexResultCallback.m_hitNormalWorld (sweepResult r)) <= 0 /\
  exists obj,
    ClosestConvexResultCallback.m_hitCollisionObject (sweepResult r)
    = Some obj /\
    same_object obj ghost = false /\ hasContactResponse obj = true.

(** What holds of a downward sweep that reported a hit. *)
Definition downHit (ghost : option nat) (r : Sweep) : Prop :=
  sweepHit r = true ->
  ClosestConvexResultCallback.m_closestHitFraction (sweepResult r) < 1 /\
  exists obj,
    ClosestConvexResultCallback.m_hitCollisionObject (sweepResult r)
    = Some obj /\
    same_object obj ghost = false /\ hasContactResponse obj = true.

(** The sweep that [stepForward] asks of the engine from [from] to [to]:
    the capsule with its margin enlarged by [addedMargin], the callback
    constructed with the reversed sweep direction and a slope limit of 0,
    and the candidates the world has for that sweep. *)
Definition forwardSweepResult (world : CollisionWorld) (s : State)
    (from to : Vec3.t) : ClosestConvexResultCallback.t :=
  convexSweepTest
    (KinematicClosestNotMeConvexResultCallback.addSingleResult (ghostObject s)
       (from -v to) 0)
    (sweepCandidates world (shapeMargin s + addedMargin s) from to)
    ClosestConvexResultCallback.init.

(** A downward sweep that [stepDown] asks of the engine, from [from] by
    [step]: the callback is constructed with the controller's members on
    entry, among them its position, and is given the candidates the world
    has for that sweep. *)
Definition downSweep (world : CollisionWorld) (s : State)
    (from step : Vec3.t) : Sweep :=
  mkSweep from (from +v step)
    (convexSweepTest
       (StepDownConvexResultCallback.addSingleResult (ghostObject s)
          (currentUp s) (currentPosition s) step (walkDirection s)
          (maxSlopeCosine s) (radius s) (halfHeight s))
       (sweepCandidates world (shapeMargin s) from (from +v step))
       ClosestConvexResultCallback.init).

(** The first sweep of [stepDown]: from the current position, by the
    vertical displacement of the time step less the lift of [stepUp]. *)
Definition firstDownSweep (world : CollisionWorld) (dt : R) (s : State)
    : Sweep :=
  downSweep world s (currentPosition s)
    ((verticalVelocity s * dt - lastStepUp s) *v currentUp s).

(** The second sweep of [stepDown]: from the end of the first, down by
    [stepDownHeight]. *)
Definition secondDownSweep (world : CollisionWorld) (dt : R) (s : State)
    : Sweep :=
  downSweep world s (sweepEnd (firstDownSweep world dt s))
    ((- stepDownHeight s) *v currentUp s).

(** ** Example scenes

    A controller as the constructor and [updateShapeIfNecessary] leave it
    for a capsule of radius 0.3 and half height 0.6, enabled and registered,
    standing upright with its centre 0.9 above the origin; and a few
    collision worlds. *)

Definition exampleController : State :=
  mkState true (Some 1%nat) (Some 0%nat)
    (Vec3.mk 0 (9 / 10) 0) Quat.identity
    (Vec3.mk 0 (9 / 10) 0) (Vec3.mk 0 (9 / 10) 0) (Vec3.mk 0 1 0)
    0 0
    (Vec3.mk 0 0 0) (Vec3.mk 0 0 0) 0
    DEFAULT_GRAVITY TERMINAL_VELOCITY JUMP_SPEED
    false false true
    0%Z (7071 / 10000) 0
    (3 / 10) (6 / 10) (55 / 100) (3 / 10)
    (2 / 100) (4 / 100)
    (Vec3.mk 0 0 0) false 0%Z
    (Vec3.mk 0 (9 / 10) 0) 0 (Vec3.mk 0 0 0).

Definition sceneObject : CollisionObject :=
  mkCollisionObject 7 true Mat3.identity.

(** Nothing around the character. *)
Definition emptyWorld : CollisionWorld :=
  mkCollisionWorld (fun _ _ => []) (fun _ _ _ => []) (fun _ => []).

(** A floor below the character that every downward ray meets at the given
    fraction of its length; no sweep meets anything. *)
Definition floorBelowWorld (fraction : R) : CollisionWorld :=
  mkCollisionWorld
    (fun _ _ =>
       [(LocalRayResult.mk sceneObject (Vec3.mk 0 1 0) fraction, true)])
    (fun _ _ _ => [])
    (fun _ => []).

(** A vertical wall beside the character: every sweep grazes it halfway,
    with a horizontal contact normal. *)
Definition wallWorld : CollisionWorld :=
  mkCollisionWorld
    (fun _ _ => [])
    (fun _ _ _ =>
       [(LocalConvexResult.mk sceneObject (Vec3.mk 1 0 0)
           (Vec3.mk (- (3 / 10)) 1 0) (1 / 2), true)])
    (fun _ => []).

(** A floor under the character: every sweep meets it halfway, with the
    contact normal pointing up. *)
Definition floorWorld : CollisionWorld :=
  mkCollisionWorld
    (fun _ _ => [])
    (fun _ _ _ =>
       [(LocalConvexResult.mk sceneObject (Vec3.mk 0 1 0)
           (Vec3.mk 0 0 0) (1 / 2), true)])
    (fun _ => []).

(** The character has sunk 0.1 into a flat floor: one contact at its base
    point, with the floor's normal pointing up, reported with the ghost
    object as body 0. *)
Definition sunkenFloorWorld : CollisionWorld :=
  mkCollisionWorld
    (fun _ _ => [])
    (fun _ _ _ => [])
    (fun _ =>
       [mkBroadphasePair (Some (mkCollisionObject 0 true Mat3.identity))
          (Some sceneObject)
          (Some [mkPersistentManifold 0
                   [mkManifoldPoint (- (1 / 10)) (Vec3.mk 0 1 0)
                      (Vec3.mk 0 (- (1 / 10)) 0) (Vec3.mk 0 0 0)]])]).

(** The example controller at the start of a tick, the tick before having
    stepped up by the whole step height. *)
Definition steppedController : State :=
  set_lastStepUp (55 / 100) exampleController.

(** The contact of the character's foot with the vertical face of a ledge,
    0.2 above the character's base, 0.05 deep, the normal pointing from the
    ledge to the character. *)
Definition ledgeContact : ManifoldPoint :=
  mkManifoldPoint (- (5 / 100)) (Vec3.mk (-1) 0 0)
    (Vec3.mk (25 / 100) (2 / 10) 0) (Vec3.mk (3 / 10) (2 / 10) 0).

(** The character overlaps a ledge, with the given contact points in one
    manifold whose body 0 is the ghost object. *)
Definition ledgeWorld (points : list ManifoldPoint) : CollisionWorld :=
  mkCollisionWorld
    (fun _ _ => [])
    (fun _ _ _ => [])
    (fun _ =>
       [mkBroadphasePair (Some (mkCollisionObject 0 true Mat3.identity))
          (Some sceneObject)
          (Some [mkPersistentManifold 0 points])]).

(** The example controller falling at terminal velocity, hovering since the
    last scan found no floor in range. *)
Definition fallingController : State :=
  set_verticalVelocity (- TERMINAL_VELOCITY) exampleController.

(** The example controller on its way down, not hovering. *)
Definition droppingController : State :=
  set_isHovering false exampleController.

(** The example controller after a step that moved its ghost object one
    unit sideways, with the accumulated step time at -1: the state that
    [playerStep] leaves when it is given a negative time step. *)
Definition rewoundController : State :=
  set_stepDt (-1) (set_ghostOrigin (Vec3.mk 1 (9 / 10) 0) exampleController).

(** A run of [playerStep]s, each in its world with its time step. *)
Definition playerSteps (steps : list (CollisionWorld * R)) (s : State) : State :=
  fold_left (fun s step => playerStep (fst step) (snd step) s) steps s.

(** The example controller in the air after a jump, not hovering, the
    timer of the jump started at clock reading 0. *)
Definition jumpingController : State :=
  set_isJumping true (set_isHovering false exampleController).

(** ** Further members of the controller *)

(** [SIMD_EPSILON] of the engine's scalar header: [FLT_EPSILON] in single
    precision. *)
Definition SIMD_EPSILON : R := Scalar.FLT_EPSILON.

(** [v.normalize()], that is [v /= v.length()]. *)
Definition normalize (v : Vec3.t) : option Vec3.t :=
  Vec3.div_assign v (Vec3.length v).

(** [updateTargetPositionBasedOnCollision]; the branch under [if (0)] is
    kept as a branch that is never taken. *)
Definition updateTargetPositionBasedOnCollision (hitNormal : Vec3.t)
    (tangentMag normalMag : R) (s : State) : option State :=
  let movementDirection := targetPosition s -v currentPosition s in
  let movementLength := Vec3.length movementDirection in
  if Scalar.gtb movementLength SIMD_EPSILON then
    match normalize movementDirection with
    | Some movementDirection =>
        let reflectDir :=
          computeReflectionDirection movementDirection hitNormal in
        match normalize reflectDir with
        | Some reflectDir =>
            let parallelDir := parallelComponent reflectDir hitNormal in
            let perpindicularDir :=
              perpindicularComponent reflectDir hitNormal in
            let s := set_targetPosition (currentPosition s) s in
            let s :=
              if false then
                let parComponent :=
                  (tangentMag * movementLength) *v parallelDir in
                set_targetPosition (targetPosition s +v parComponent) s
              else s in
            let s :=
              if Scalar.neqb normalMag 0 then
                let perpComponent :=
                  (normalMag * movementLength) *v perpindicularDir in
                set_targetPosition (targetPosition s +v perpComponent) s
              else s in
            Some s
        | None => None
        end
    | None => None
    end
  else Some s.

Module StepDownAccepts.

(** The contacts that [StepDownConvexResultCallback::addSingleResult] hands
    on to the engine's bookkeeping: not the ghost object, with contact
    response, and either walkable or, when steep, neither pushing along
    [pushDirection] nor higher than the feet. *)
Definition accepts (me : option nat) (up start step pushDirection : Vec3.t)
    (minSlopeDot radius halfHeight : R)
    (convexResult : LocalConvexResult.t) (normalInWorldSpace : bool) : bool :=
  let obj := LocalConvexResult.m_hitCollisionObject convexResult in
  let hitNormalWorld :=
    LocalConvexResult.worldNormal convexResult normalInWorldSpace in
  negb (same_object obj me)
  && hasContactResponse obj
  && (if Scalar.ltb (Vec3.dot up hitNormalWorld) minSlopeDot then
        negb (Scalar.gtb (Vec3.dot hitNormalWorld pushDirection) 0)
        && negb
             (Vec3.angle_gtb
                (Vec3.angle
                   (LocalConvexResult.m_hitPointLocal convexResult -v start
                    +v LocalConvexResult.m_hitFraction convexResult *v step)
                   (Vec3.neg up))
                (Vec3.angle
                   (Vec3.mk radius
                      (- (halfHeight - Vec3.length step
                          + Vec3.dot
                              (LocalConvexResult.m_hitFraction convexResult
                               *v step) up))
                      0)
                   (Vec3.neg up)))
      else true).

End StepDownAccepts.

(** The candidates of the downward ray of [scanDown]. *)
Definition scanDown_candidates (world : CollisionWorld) (s : State)
    : list (LocalRayResult.t * bool) :=
  rayCandidates world (currentPosition s)
    (currentPosition s -v (20 + halfHeight s + radius s) *v currentUp s).

(** A ray candidate on an object other than the ghost object. *)
Definition notGhost (s : State) (c : LocalRayResult.t * bool) : bool :=
  negb (same_object (LocalRayResult.m_collisionObject (fst c)) (ghostObject s)).

(** The contact points that [recoverFromPenetration] visits: those of the
    manifolds of the pairs whose objects both have contact response. *)
Definition visitedContacts (pairs : list BroadphasePair) : list ManifoldPoint :=
  flat_map
    (fun collisionPair =>
       if lacksContactResponse (obj0 collisionPair)
          || lacksContactResponse (obj1 collisionPair)
       then []
       else
         match m_algorithm collisionPair with
         | Some manifolds => flat_map contactPoints manifolds
         | None => []
         end)
    pairs.

(** Whether a jump request is pending. *)
Definition jumpPending (s : State) : bool :=
  to_bool (Z.land (pendingFlags s) PENDING_FLAG_JUMP).

(** The part of [preSimulation] that consumes a pending jump request. *)
Definition consumeJump (s : State) : State :=
  if to_bool (Z.land (pendingFlags s) PENDING_FLAG_JUMP) then
    let s :=
      set_pendingFlags (Z.land (pendingFlags s) (not32 PENDING_FLAG_JUMP)) s in
    if canJump s then
      let s := set_verticalVelocity (jumpSpeed s) s in
      set_isJumping true s
    else s
  else s.

(** The position that [preSimulation] gives to the ghost object. *)
Definition shapePosition (avatarData : AvatarData) (s : State) : Vec3.t :=
  getPosition avatarData
  +v Quat.rotate (getOrientation avatarData) (shapeLocalOffset s).

(** The members that a step of the controller writes, overwritten in [s]
    by the given values. *)
Definition stepWrites (ghostOrigin' currentPosition' targetPosition' : Vec3.t)
    (verticalVelocity' verticalOffset' velocityTimeInterval' : R)
    (isOnGround' isJumping' isHovering' : bool) (lastStepUp' stepDt' : R)
    (s : State) : State :=
  set_ghostOrigin ghostOrigin'
    (set_currentPosition currentPosition'
       (set_targetPosition targetPosition'
          (set_verticalVelocity verticalVelocity'
             (set_verticalOffset verticalOffset'
                (set_velocityTimeInterval velocityTimeInterval'
                   (set_isOnGround isOnGround'
                      (set_isJumping isJumping'
                         (set_isHovering isHovering'
                            (set_lastStepUp lastStepUp'
                               (set_stepDt stepDt' s)))))))))).

(** [s'] differs from [s] at most in the members that a step writes. *)
Definition steppedFrom (s s' : State) : Prop :=
  s' = stepWrites (ghostOrigin s') (currentPosition s') (targetPosition s')
         (verticalVelocity s') (verticalOffset s') (velocityTimeInterval s')
         (isOnGround s') (isJumping s') (isHovering s') (lastStepUp s')
         (stepDt s') s.

(** The first half of [setDynamicsWorld]: leaving the old world and
    entering the new one. *)
Definition changeWorld (world : option nat) (s : State) : State :=
  if negb (same_world (dynamicsWorld s) world) then
    let s := if isRegistered s then set_dynamicsWorld None s else s in
    match world, ghostObject s with
    | Some w, Some _ =>
        let s := set_dynamicsWorld (Some w) s in
        let s :=
          set_pendingFlags
            (Z.land (pendingFlags s) (not32 PENDING_FLAG_JUMP)) s in
        reset s
    | _, _ => s
    end
  else s.

(** The second half of [setDynamicsWorld]: the pending flags. *)
Definition settleFlags (s : State) : State :=
  if isRegistered s then
    if to_bool (Z.land (pendingFlags s) PENDING_FLAG_UPDATE_SHAPE) then
      set_pendingFlags
        (Z.lor (pendingFlags s)
           (Z.lor PENDING_FLAG_ADD_TO_SIMULATION
              PENDING_FLAG_REMOVE_FROM_SIMULATION)) s
    else
      set_pendingFlags
        (Z.land (pendingFlags s) (not32 PENDING_FLAG_ADD_TO_SIMULATION)) s
  else
    set_pendingFlags
      (Z.land (pendingFlags s) (not32 PENDING_FLAG_REMOVE_FROM_SIMULATION)) s.

(** Whether a shape update is pending. *)
Definition shapeUpdatePending (s : State) : bool :=
  to_bool (Z.land (pendingFlags s) PENDING_FLAG_UPDATE_SHAPE).

(** ** The capsule shape *)

(** Setters of the members only the shape code writes. *)
Definition set_ghostObject (v : option nat) (s : State) : State :=
  mkState (enabled s) (dynamicsWorld s) v (ghostOrigin s) (ghostRotation s)
    (currentPosition s) (targetPosition s) (currentUp s) (verticalVelocity
    s) (verticalOffset s) (walkDirection s) (normalizedDirection s)
    (velocityTimeInterval s) (gravity s) (maxFallSpeed s) (jumpSpeed s)
    (isOnGround s) (isJumping s) (isHovering s) (jumpToHoverStart s)
    (maxSlopeCosine s) (lastStepUp s) (radius s) (halfHeight s)
    (stepUpHeight s) (stepDownHeight s) (addedMargin s) (shapeMargin s)
    (floorNormal s) (touchingContact s) (pendingFlags s) (lastPosition s)
    (stepDt s) (shapeLocalOffset s).

Definition set_radius (v : R) (s : State) : State :=
  mkState (enabled s) (dynamicsWorld s) (ghostObject s) (ghostOrigin s)
    (ghostRotation s) (currentPosition s) (targetPosition s) (currentUp s)
    (verticalVelocity s) (verticalOffset s) (walkDirection s)
    (normalizedDirection s) (velocityTimeInterval s) (gravity s)
    (maxFallSpeed s) (jumpSpeed s) (isOnGround s) (isJumping s) (isHovering
    s) (jumpToHoverStart s) (maxSlopeCosine s) (lastStepUp s) v (halfHeight
    s) (stepUpHeight s) (stepDownHeight s) (addedMargin s) (shapeMargin s)
    (floorNormal s) (touchingContact s) (pendingFlags s) (lastPosition s)
    (stepDt s) (shapeLocalOffset s).

Definition set_halfHeight (v : R) (s : State) : State :=
  mkState (enabled s) (dynamicsWorld s) (ghostObject s) (ghostOrigin s)
    (ghostRotation s) (currentPosition s) (targetPosition s) (currentUp s)
    (verticalVelocity s) (verticalOffset s) (walkDirection s)
    (normalizedDirection s) (velocityTimeInterval s) (gravity s)
    (maxFallSpeed s) (jumpSpeed s) (isOnGround s) (isJumping s) (isHovering
    s) (jumpToHoverStart s) (maxSlopeCosine s) (lastStepUp s) (radius s) v
    (stepUpHeight s) (stepDownHeight s) (addedMargin s) (shapeMargin s)
    (floorNormal s) (touchingContact s) (pendingFlags s) (lastPosition s)
    (stepDt s) (shapeLocalOffset s).

Definition set_stepUpHeight (v : R) (s : State) : State :=
  mkState (enabled s) (dynamicsWorld s) (ghostObject s) (ghostOrigin s)
    (ghostRotation s) (currentPosition s) (targetPosition s) (currentUp s)
    (verticalVelocity s) (verticalOffset s) (walkDirection s)
    (normalizedDirection s) (velocityTimeInterval s) (gravity s)
    (maxFallSpeed s) (jumpSpeed s) (isOnGround s) (isJumping s) (isHovering
    s) (jumpToHoverStart s) (maxSlopeCosine s) (lastStepUp s) (radius s)
    (halfHeight s) v (stepDownHeight s) (addedMargin s) (shapeMargin s)
    (floorNormal s) (touchingContact s) (pendingFlags s) (lastPosition s)
    (stepDt s) (shapeLocalOffset s).

Definition set_stepDownHeight (v : R) (s : State) : State :=
  mkState (enabled s) (dynamicsWorld s) (ghostObject s) (ghostOrigin s)
    (ghostRotation s) (currentPosition s) (targetPosition s) (currentUp s)
    (verticalVelocity s) (verticalOffset s) (walkDirection s)
    (normalizedDirection s) (velocityTimeInterval s) (gravity s)
    (maxFallSpeed s) (jumpSpeed s) (isOnGround s) (isJumping s) (isHovering
    s) (jumpToHoverStart s) (maxSlopeCosine s) (lastStepUp s) (radius s)
    (halfHeight s) (stepUpHeight s) v (addedMargin s) (shapeMargin s)
    (floorNormal s) (touchingContact s) (pendingFlags s) (lastPosition s)
    (stepDt s) (shapeLocalOffset s).

Definition set_shapeLocalOffset (v : Vec3.t) (s : State) : State :=
  mkState (enabled s) (dynamicsWorld s) (ghostObject s) (ghostOrigin s)
    (ghostRotation s) (currentPosition s) (targetPosition s) (currentUp s)
    (verticalVelocity s) (verticalOffset s) (walkDirection s)
    (normalizedDirection s) (velocityTimeInterval s) (gravity s)
    (maxFallSpeed s) (jumpSpeed s) (isOnGround s) (isJumping s) (isHovering
    s) (jumpToHoverStart s) (maxSlopeCosine s) (lastStepUp s) (radius s)
    (halfHeight s) (stepUpHeight s) (stepDownHeight s) (addedMargin s)
    (shapeMargin s) (floorNormal s) (touchingContact s) (pendingFlags s)
    (lastPosition s) (stepDt s) v.

(** The controller with its [_boxScale], the one member the shape code
    uses that [State] does not hold. *)
Record Shaped : Type := mkShaped {
  controller : State;
  boxScale : Vec3.t
}.

Definition MIN_HALF_HEIGHT : R := 1 / 10.

(** The local [radius] of [setLocalBoundingBox] and the [_radius] of
    [updateShapeIfNecessary]. *)
Definition capsuleRadius (scale : Vec3.t) : R :=
  let x := Vec3.x scale in
  let z := Vec3.z scale in
  1 / 2 * sqrt (1 / 2 * (x * x + z * z)).

(** The local [halfHeight] of [setLocalBoundingBox] and the [_halfHeight]
    of [updateShapeIfNecessary]. *)
Definition capsuleHalfHeight (scale : Vec3.t) : R :=
  let halfHeight := 1 / 2 * Vec3.y scale - capsuleRadius scale in
  if Scalar.ltb halfHeight MIN_HALF_HEIGHT then MIN_HALF_HEIGHT
  else halfHeight.

Definition setLocalBoundingBox (corner scale : Vec3.t) (c : Shaped)
    : Shaped :=
  let s := controller c in
  let radius' := capsuleRadius scale in
  let halfHeight' := capsuleHalfHeight scale in
  let radiusDelta := Scalar.fabsf (radius' - radius s) in
  let heightDelta := Scalar.fabsf (halfHeight' - halfHeight s) in
  let s :=
    if Scalar.ltb radiusDelta Scalar.FLT_EPSILON
       && Scalar.ltb heightDelta Scalar.FLT_EPSILON
    then s
    else
      let s :=
        if isRegistered s then
          set_pendingFlags
            (Z.lor (pendingFlags s) PENDING_FLAG_REMOVE_FROM_SIMULATION) s
        else s in
      let s :=
        set_pendingFlags
          (Z.lor (pendingFlags s) PENDING_FLAG_UPDATE_SHAPE) s in
      if enabled s then
        set_pendingFlags
          (Z.lor (pendingFlags s) PENDING_FLAG_ADD_TO_SIMULATION) s
      else s in
  mkShaped (set_shapeLocalOffset (corner +v (1 / 2) *v scale) s) scale.

(** [updateShapeIfNecessary].  [ghost] is the pointer [new] returns for
    the ghost object and [margin] the collision margin of the new capsule
    shape; [None] is the failed [assert]. *)
Definition updateShapeIfNecessary (avatarData : AvatarData) (ghost : nat)
    (margin : R) (c : Shaped) : option Shaped :=
  let s := controller c in
  if to_bool (Z.land (pendingFlags s) PENDING_FLAG_UPDATE_SHAPE) then
    if negb (to_bool
               (Z.land (pendingFlags s) PENDING_FLAG_REMOVE_FROM_SIMULATION))
    then
      let s :=
        set_pendingFlags
          (Z.land (pendingFlags s) (not32 PENDING_FLAG_UPDATE_SHAPE)) s in
      let s := set_ghostObject None s in
      let s := set_radius (capsuleRadius (boxScale c)) s in
      let s := set_halfHeight (capsuleHalfHeight (boxScale c)) s in
      let s :=
        if Scalar.gtb (radius s) 0 then
          let s := set_ghostObject (Some ghost) s in
          let s :=
            set_ghostOrigin (getPosition avatarData)
              (set_ghostRotation
                 (transformRotation (getOrientation avatarData)) s) in
          let s :=
            set_stepUpHeight
              (radius s + 1 / 4 * halfHeight s + 1 / 10) s in
          let s := set_stepDownHeight (radius s) s in
          set_shapeMargin margin s
        else s in
      Some (mkShaped s (boxScale c))
    else None
  else Some c.

(** The members of [State] lifted to the controller with its box. *)
Definition onController (f : State -> State) (c : Shaped) : Shaped :=
  mkShaped (f (controller c)) (boxScale c).

(** The comparison of dimensions in [setLocalBoundingBox]: whether the
    capsule of the box [scale] is the one the controller has. *)
Definition sameShape (scale : Vec3.t) (s : State) : bool :=
  Scalar.ltb (Scalar.fabsf (capsuleRadius scale - radius s))
    Scalar.FLT_EPSILON
  && Scalar.ltb (Scalar.fabsf (capsuleHalfHeight scale - halfHeight s))
       Scalar.FLT_EPSILON.
(** * Properties *)

(** ** Scalars and vectors *)

Lemma ltb_true a b : Scalar.ltb a b = true <-> a < b.
Proof.
  unfold Scalar.ltb; destruct (Rlt_dec a b); split; intros;
    (lra || congruence).
Qed.

Lemma ltb_false a b : Scalar.ltb a b = false <-> b <= a.
Proof.
  unfold Scalar.ltb; destruct (Rlt_dec a b); split; intros;
    (lra || congruence).
Qed.

Lemma gtb_true a b : Scalar.gtb a b = true <-> b < a.
Proof. unfold Scalar.gtb; apply ltb_true. Qed.

Lemma gtb_false a b : Scalar.gtb a b = false <-> a <= b.
Proof. unfold Scalar.gtb; apply ltb_false. Qed.

Lemma div_some a b : b <> 0 -> Scalar.div a b = Some (a / b).
Proof.
  intros H; unfold Scalar.div.
  destruct (Req_dec_T b 0); [contradiction | reflexivity].
Qed.

Lemma div_zero a : Scalar.div a 0 = None.
Proof. unfold Scalar.div; destruct (Req_dec_T 0 0); [reflexivity | lra]. Qed.

Lemma max_Rmax a b : Scalar.max a b = Rmax a b.
Proof.
  unfold Scalar.max, Rmax. destruct (Scalar.ltb a b) eqn:E.
  - apply ltb_true in E. destruct (Rle_dec a b); lra.
  - apply ltb_false in E. destruct (Rle_dec a b); lra.
Qed.

Lemma FLT_EPSILON_pos : 0 < Scalar.FLT_EPSILON.
Proof. unfold Scalar.FLT_EPSILON. apply Rinv_0_lt_compat. lra. Qed.

(** Case analysis on a scalar comparison, keeping the order fact. *)
Ltac case_cmp :=
  match goal with
  | |- context [Scalar.ltb ?a ?b] =>
      let E := fresh "E" in
      destruct (Scalar.ltb a b) eqn:E;
      [apply ltb_true in E | apply ltb_false in E]
  | |- context [Scalar.gtb ?a ?b] =>
      let E := fresh "E" in
      destruct (Scalar.gtb a b) eqn:E;
      [apply gtb_true in E | apply gtb_false in E]
  end.

Lemma vec_eq a b :
  Vec3.x a = Vec3.x b -> Vec3.y a = Vec3.y b -> Vec3.z a = Vec3.z b -> a = b.
Proof. destruct a, b; simpl; intros; subst; reflexivity. Qed.

Ltac vec_ring := apply vec_eq; simpl; ring.

(** Evaluation of vector expressions on concrete data, down to real
    arithmetic. *)
Ltac vsimpl :=
  simpl;
  unfold Vec3.length2, Vec3.dot, Vec3.neg, Vec3.add, Vec3.sub, Vec3.scale;
  simpl.

Lemma length2_nonneg a : 0 <= Vec3.length2 a.
Proof. unfold Vec3.length2, Vec3.dot. nra. Qed.

Lemma length_nonneg a : 0 <= Vec3.length a.
Proof. apply sqrt_pos. Qed.

Lemma length_scale k a : Vec3.length (k *v a) = Rabs k * Vec3.length a.
Proof.
  unfold Vec3.length.
  replace (Vec3.length2 (k *v a)) with (Rsqr k * Vec3.length2 a)
    by (unfold Vec3.length2, Vec3.dot, Rsqr; simpl; ring).
  rewrite sqrt_mult_alt by apply Rle_0_sqr.
  rewrite sqrt_Rsqr_abs. reflexivity.
Qed.

Lemma length_unit_x : Vec3.length (Vec3.mk 1 0 0) = 1.
Proof.
  unfold Vec3.length, Vec3.length2, Vec3.dot; simpl.
  replace (1 * 1 + 0 * 0 + 0 * 0) with 1 by ring. apply sqrt_1.
Qed.

Lemma length_zero_vec : Vec3.length (Vec3.mk 0 0 0) = 0.
Proof.
  unfold Vec3.length, Vec3.length2, Vec3.dot; simpl.
  replace (0 * 0 + 0 * 0 + 0 * 0) with 0 by ring. apply sqrt_0.
Qed.

Lemma add_sub_cancel a b : (a +v b) -v a = b.
Proof. vec_ring. Qed.

(** ** getNormalizedVector *)

(** Dividing a vector by its own length has no meaning exactly when the
    vector is the zero vector. *)
Lemma div_assign_by_length_undefined :
  Vec3.div_assign (Vec3.mk 0 0 0) (Vec3.length (Vec3.mk 0 0 0)) = None.
Proof.
  rewrite length_zero_vec. unfold Vec3.div_assign. rewrite div_zero.
  reflexivity.
Qed.

Lemma getNormalizedVector_defined v : getNormalizedVector v <> None.
Proof.
  unfold getNormalizedVector. case_cmp; [discriminate|].
  unfold Vec3.div_assign. rewrite div_some; [discriminate|].
  pose proof FLT_EPSILON_pos. lra.
Qed.

(** C9.  On a vector whose length is below FLT_EPSILON,
    [getNormalizedVector] returns the zero vector and performs no division;
    on a vector whose length is at least FLT_EPSILON it returns the vector
    divided by its length, and that length is not zero.  The helper
    therefore never divides by zero: it is defined on every input. *)
Theorem getNormalizedVector_guards_division (v : Vec3.t) :
  (Vec3.length v < Scalar.FLT_EPSILON ->
   getNormalizedVector v = Some (Vec3.mk 0 0 0)) /\
  (Scalar.FLT_EPSILON <= Vec3.length v ->
   Vec3.length v <> 0 /\
   getNormalizedVector v = Vec3.div_assign v (Vec3.length v) /\
   getNormalizedVector v = Some ((1 / Vec3.length v) *v v)) /\
  getNormalizedVector v <> None.
Proof.
  split; [|split].
  - intros H. unfold getNormalizedVector.
    apply ltb_true in H. rewrite H. reflexivity.
  - intros H. pose proof FLT_EPSILON_pos as P.
    assert (N : Vec3.length v <> 0) by lra.
    apply ltb_false in H.
    unfold getNormalizedVector. rewrite H.
    unfold Vec3.div_assign. rewrite (div_some 1 _ N). auto.
  - apply getNormalizedVector_defined.
Qed.

Lemma getNormalizedVector_guards_division_witness :
  getNormalizedVector (Vec3.mk 0 0 0) = Some (Vec3.mk 0 0 0) /\
  getNormalizedVector (Vec3.mk 1 0 0)
    = Some ((1 / Vec3.length (Vec3.mk 1 0 0)) *v Vec3.mk 1 0 0).
Proof.
  split.
  - apply (proj1 (getNormalizedVector_guards_division (Vec3.mk 0 0 0))).
    rewrite length_zero_vec. exact FLT_EPSILON_pos.
  - apply (proj1 (proj2 (getNormalizedVector_guards_division (Vec3.mk 1 0 0)))).
    rewrite length_unit_x. unfold Scalar.FLT_EPSILON. lra.
Defined.

(** The normalized direction has length one whenever it is not zero. *)
Lemma getNormalizedVector_unit v n :
  Scalar.FLT_EPSILON <= Vec3.length v ->
  getNormalizedVector v = Some n -> Vec3.length n = 1.
Proof.
  intros H E. pose proof FLT_EPSILON_pos as P.
  assert (N : Vec3.length v <> 0) by lra.
  assert (L : 0 < Vec3.length v) by lra.
  apply ltb_false in H. unfold getNormalizedVector in E. rewrite H in E.
  unfold Vec3.div_assign in E. rewrite (div_some 1 _ N) in E.
  injection E as <-.
  rewrite length_scale. rewrite Rabs_pos_eq.
  - field. exact N.
  - apply Rlt_le. unfold Rdiv. rewrite Rmult_1_l. apply Rinv_0_lt_compat. exact L.
Qed.

(** ** scanDown *)

(** [scanDown] touches nothing but the hover flag. *)
Lemma scanDown_frame world s :
  exists b, scanDown world s = set_isHovering b s \/ scanDown world s = s.
Proof.
  unfold scanDown.
  destruct (negb (ClosestRayResultCallback.hasHit (scanDown_ray world s))).
  - exists true. now left.
  - destruct (isHovering s && _).
    + exists false. now left.
    + exists false. now right.
Qed.

(** The ray is cast from the current position, against the up axis, over
    [20 + halfHeight + radius] times the length of the up axis. *)
Lemma scanDown_ray_length s :
  0 <= 20 + halfHeight s + radius s ->
  let start := currentPosition s in
  let end_ := start -v (20 + halfHeight s + radius s) *v currentUp s in
  Vec3.length (end_ -v start)
  = (20 + halfHeight s + radius s) * Vec3.length (currentUp s).
Proof.
  intros H start end_.
  replace (end_ -v start)
    with ((- (20 + halfHeight s + radius s)) *v currentUp s)
    by (unfold end_, start; vec_ring).
  rewrite length_scale, Rabs_Ropp, Rabs_pos_eq by exact H. reflexivity.
Qed.

(** C2.  With the callback of the downward ray of [scanDown] and the hit
    distance [m_closestHitFraction * (20 + halfHeight + radius)]: no hit
    sets the hover flag; a hit while hovering at a distance strictly below
    [3 + halfHeight + radius] clears it; in every other case (a hit while
    not hovering, or a hit while hovering at a distance of at least
    [3 + halfHeight + radius]) the controller, and so the hover flag, is
    left as it was. *)
Theorem scanDown_hover_hysteresis (world : CollisionWorld) (s : State) :
  let callback := scanDown_ray world s in
  let distance :=
    ClosestRayResultCallback.m_closestHitFraction callback
    * (20 + halfHeight s + radius s) in
  (ClosestRayResultCallback.hasHit callback = false ->
   isHovering (scanDown world s) = true) /\
  (ClosestRayResultCallback.hasHit callback = true ->
   isHovering s = true ->
   distance < 3 + halfHeight s + radius s ->
   isHovering (scanDown world s) = false) /\
  (ClosestRayResultCallback.hasHit callback = true ->
   isHovering s = false \/ 3 + halfHeight s + radius s <= distance ->
   scanDown world s = s /\ isHovering (scanDown world s) = isHovering s).
Proof.
  intros callback distance. unfold scanDown. fold callback.
  split; [|split].
  - intros H. rewrite H. reflexivity.
  - intros H Hov D. rewrite H, Hov. simpl.
    apply ltb_true in D. unfold distance in D. rewrite D. reflexivity.
  - intros H [Hov | D]; rewrite H; simpl.
    + rewrite Hov. simpl. auto.
    + apply ltb_false in D. unfold distance in D. rewrite D.
      rewrite andb_false_r. auto.
Qed.

(** ** stepDown *)

(** The sweeps of [stepDown] are those the engine makes in the world: the
    first one always, the second one when the first reports no hit and the
    controller is not jumping. *)
Lemma stepDown_sweeps_trace world dt s :
  snd (stepDown_sweeps world dt s)
  = firstDownSweep world dt s
    :: (if sweepHit (firstDownSweep world dt s) || isJumping s then []
        else [secondDownSweep world dt s]).
Proof.
  unfold stepDown_sweeps, firstDownSweep, secondDownSweep, downSweep, sweepHit.
  cbv zeta. cbn [sweepResult sweepEnd].
  match goal with
  | |- context [if ClosestConvexResultCallback.hasHit ?c then _ else _] =>
      destruct (ClosestConvexResultCallback.hasHit c) eqn:H1
  end.
  - cbn in H1 |- *. rewrite H1. reflexivity.
  - cbn in H1. cbn [isJumping set_isOnGround set_targetPosition].
    destruct (isJumping s) eqn:J; cbn [negb].
    + cbn. rewrite H1. reflexivity.
    + match goal with
      | |- context [if ClosestConvexResultCallback.hasHit ?c then _ else _] =>
          destruct (ClosestConvexResultCallback.hasHit c)
      end; cbn; rewrite H1; reflexivity.
Qed.

(** C1.  [stepDown] makes at most two downward sweeps in the collision
    world: the first from the current position by
    [(verticalVelocity dt - lastStepUp) up], always; the second from the
    end of the first, down by [stepDownHeight], when the first reports no
    hit and the controller is not jumping.  On return the controller is on
    the ground if and only if one of them reported a hit; and when none of
    them reports a hit and the controller is not jumping, it is not on the
    ground and [lastStepUp] is 0. *)
Theorem stepDown_ground_iff_hit (world : CollisionWorld) (dt : R) (s : State) :
  let s' := stepDown world dt s in
  let sweeps := snd (stepDown_sweeps world dt s) in
  let first := firstDownSweep world dt s in
  let second := secondDownSweep world dt s in
  sweeps
  = first :: (if sweepHit first || isJumping s then [] else [second]) /\
  (length sweeps <= 2)%nat /\
  (isOnGround s' = true <-> exists r, In r sweeps /\ sweepHit r = true) /\
  (isOnGround s' = true <->
   sweepHit first = true \/
   (isJumping s = false /\ sweepHit second = true)) /\
  ((forall r, In r sweeps -> sweepHit r = false) ->
   isJumping s = false ->
   isOnGround s' = false /\ lastStepUp s' = 0).
Proof.
  intros s' sweeps first second.
  pose proof (stepDown_sweeps_trace world dt s) as T.
  fold sweeps first second in T.
  assert (G : isOnGround s' = true <->
              exists r, In r sweeps /\ sweepHit r = true).
  { unfold s', sweeps, stepDown, stepDown_sweeps. cbv zeta.
    match goal with
    | |- context [if ClosestConvexResultCallback.hasHit ?c then _ else _] =>
        destruct (ClosestConvexResultCallback.hasHit c) eqn:H1
    end.
    - cbn [fst snd]. split; [|reflexivity]. intros _. eexists.
      split; [now left|]. unfold sweepHit. cbn [sweepResult]. exact H1.
    - cbn [isJumping set_isOnGround set_targetPosition].
      destruct (isJumping s) eqn:J; cbn [negb].
      + cbn [fst snd]. cbn. split; [discriminate|].
        intros [r [[<- | []] Hr]].
        unfold sweepHit in Hr. cbn [sweepResult] in Hr.
        cbn in H1. congruence.
      + match goal with
        | |- context [if ClosestConvexResultCallback.hasHit ?c then _ else _] =>
            destruct (ClosestConvexResultCallback.hasHit c) eqn:H2
        end.
        * cbn [fst snd]. split; [|reflexivity]. intros _. eexists.
          split; [right; now left|].
          unfold sweepHit. cbn [sweepResult]. exact H2.
        * cbn [fst snd]. cbn. split; [discriminate|].
          intros [r [[<- | [<- | []]] Hr]];
            unfold sweepHit in Hr; cbn [sweepResult] in Hr.
          -- cbn in H1. congruence.
          -- cbn in H2. congruence. }
  assert (L : isJumping s = false ->
              (forall r, In r sweeps -> sweepHit r = false) ->
              lastStepUp s' = 0).
  { intros J N.
    assert (N1 : sweepHit first = false)
      by (apply N; rewrite T; now left).
    assert (N2 : sweepHit second = false).
    { apply N. rewrite T, N1, J. cbn [orb]. right. now left. }
    unfold sweepHit, first, second, secondDownSweep, firstDownSweep,
      downSweep in N1, N2.
    cbn [sweepResult sweepEnd] in N1, N2.
    unfold s', stepDown, stepDown_sweeps. cbv zeta.
    match goal with
    | |- context [if ClosestConvexResultCallback.hasHit ?c then _ else _] =>
        destruct (ClosestConvexResultCallback.hasHit c) eqn:H1
    end; [cbn in H1, N1; congruence|].
    cbn [isJumping set_isOnGround set_targetPosition]. rewrite J.
    cbn [negb].
    match goal with
    | |- context [if ClosestConvexResultCallback.hasHit ?c then _ else _] =>
        destruct (ClosestConvexResultCallback.hasHit c) eqn:H2
    end; [cbn in H2, N2; congruence|].
    reflexivity. }
  split; [exact T|]. split; [|split; [exact G|split]].
  - rewrite T. destruct (sweepHit first || isJumping s); cbn [length]; lia.
  - rewrite G, T. split.
    + intros [r [I Hr]]. destruct I as [<- | I]; [now left|].
      destruct (sweepHit first) eqn:H1; [now left|].
      destruct (isJumping s); cbn [orb] in I; [destruct I|].
      destruct I as [<- | []]. right. split; [reflexivity | exact Hr].
    + intros [H1 | [J H2]].
      * exists first. split; [now left | exact H1].
      * destruct (sweepHit first) eqn:H1.
        -- exists first. split; [now left | exact H1].
        -- exists second. rewrite J. cbn [orb].
           split; [right; now left | exact H2].
  - intros N J. split.
    + destruct (isOnGround s') eqn:O; [|reflexivity].
      destruct (proj1 G eq_refl) as [r [I Hr]]. rewrite (N r I) in Hr.
      discriminate.
    + apply L; assumption.
Qed.

(** ** jump *)

(** C7.  [jump] called at clock reading [now] on a controller that is not
    hovering: if it is jumping and less than a second (in microseconds) has
    elapsed since the reading stored in [jumpToHoverStart], it starts to
    hover; if it is not jumping, the call records the jump request, stores
    [now] as the start of the timer, and leaves the hover flag off. *)
Theorem jump_hold_to_hover (now : Z) (s : State) :
  (isHovering s = false -> isJumping s = true ->
   (0 <= jumpToHoverStart s <= now)%Z -> (now < 2 ^ 64)%Z ->
   (now - jumpToHoverStart s < USECS_PER_SECOND)%Z ->
   isHovering (jump now s) = true) /\
  (isHovering s = false -> isJumping s = false ->
   jump now s
   = set_jumpToHoverStart now
       (set_pendingFlags (Z.lor (pendingFlags s) PENDING_FLAG_JUMP) s)
   /\ jumpToHoverStart (jump now s) = now
   /\ isHovering (jump now s) = false).
Proof.
  split.
  - intros Hov J Hs Hn El. unfold jump. cbn [isHovering isJumping set_pendingFlags jumpToHoverStart].
    rewrite Hov, J. cbn [negb].
    rewrite Z.mod_small by lia.
    apply Z.ltb_lt in El. rewrite El. reflexivity.
  - intros Hov J. unfold jump. cbn [isHovering isJumping set_pendingFlags].
    rewrite Hov, J. cbn [negb]. repeat split. cbn. exact Hov.
Qed.

(** Once a second or more has elapsed, a further [jump] does not start
    hovering. *)
Lemma jump_after_period (now : Z) (s : State) :
  isHovering s = false -> isJumping s = true ->
  (0 <= jumpToHoverStart s <= now)%Z -> (now < 2 ^ 64)%Z ->
  (USECS_PER_SECOND <= now - jumpToHoverStart s)%Z ->
  isHovering (jump now s) = false.
Proof.
  intros Hov J Hs Hn El. unfold jump. cbn [isHovering isJumping set_pendingFlags jumpToHoverStart].
  rewrite Hov, J. cbn [negb].
  rewrite Z.mod_small by lia.
  apply Z.ltb_ge in El. rewrite El. cbn. exact Hov.
Qed.

(** ** Pending flags *)

Lemma flag_bit k n :
  (0 <= k)%Z -> Z.testbit (Z.shiftl 1 k) n = (k =? n)%Z.
Proof.
  intros Hk. rewrite Z.shiftl_1_l. apply Z.pow2_bits_eqb. exact Hk.
Qed.

Lemma not32_bit x n :
  (0 <= n)%Z -> Z.testbit (not32 x) n = xorb (Z.testbit x n) (n <? 32)%Z.
Proof.
  intros Hn. unfold not32. rewrite Z.lxor_spec.
  change 4294967295%Z with (Z.ones 32).
  rewrite Z.testbit_ones_nonneg by lia. reflexivity.
Qed.

Lemma uint32_high_bits x n :
  (0 <= x < 2 ^ 32)%Z -> (32 <= n)%Z -> Z.testbit x n = false.
Proof.
  intros Hx Hn. destruct (Z.eq_dec x 0) as [-> | Hz].
  - apply Z.bits_0.
  - apply Z.bits_above_log2; [lia|].
    assert (Z.log2 x < 32)%Z by (apply Z.log2_lt_pow2; lia). lia.
Qed.

(** A flag test [(bool)(flags & FLAG)] reads the flag's bit. *)
Lemma flag_test flags k :
  (0 <= k)%Z -> to_bool (Z.land flags (Z.shiftl 1 k)) = Z.testbit flags k.
Proof.
  intros Hk. unfold to_bool.
  destruct (Z.testbit flags k) eqn:B.
  - apply negb_true_iff, Z.eqb_neq. intros E.
    assert (T : Z.testbit (Z.land flags (Z.shiftl 1 k)) k = true).
    { rewrite Z.land_spec, B, flag_bit, Z.eqb_refl by exact Hk. reflexivity. }
    rewrite E, Z.bits_0 in T. discriminate.
  - apply negb_false_iff, Z.eqb_eq. apply Z.bits_inj'. intros n Hn.
    rewrite Z.land_spec, Z.bits_0, flag_bit by exact Hk.
    destruct (Z.eqb_spec k n) as [<- | _].
    + rewrite B. reflexivity.
    + apply andb_false_r.
Qed.

Lemma needsAddition_bit s : needsAddition s = Z.testbit (pendingFlags s) 0.
Proof. apply (flag_test _ 0). lia. Qed.

Lemma needsRemoval_bit s : needsRemoval s = Z.testbit (pendingFlags s) 1.
Proof. apply (flag_test _ 1). lia. Qed.

Lemma setEnabled_false_eq s :
  enabled s = true ->
  setEnabled false s
  = set_enabled false
      (set_isOnGround false
         (set_pendingFlags
            (Z.land
               (if isRegistered s
                then Z.lor (pendingFlags s) PENDING_FLAG_REMOVE_FROM_SIMULATION
                else pendingFlags s)
               (not32 PENDING_FLAG_ADD_TO_SIMULATION)) s)).
Proof.
  intros En. unfold setEnabled. rewrite En. cbn [Bool.eqb negb].
  destruct (isRegistered s); reflexivity.
Qed.

Lemma setEnabled_true_eq s :
  enabled s = false ->
  setEnabled true s
  = set_enabled true
      (set_isHovering true
         (set_pendingFlags
            (Z.lor (pendingFlags s) PENDING_FLAG_ADD_TO_SIMULATION) s)).
Proof. intros En. unfold setEnabled. rewrite En. reflexivity. Qed.

(** The flags after [setEnabled(false)] and then [setEnabled(true)] on an
    enabled controller. *)
Lemma pendingFlags_disable_enable s :
  enabled s = true ->
  pendingFlags (setEnabled true (setEnabled false s))
  = Z.lor
      (Z.land
         (if isRegistered s
          then Z.lor (pendingFlags s) PENDING_FLAG_REMOVE_FROM_SIMULATION
          else pendingFlags s)
         (not32 PENDING_FLAG_ADD_TO_SIMULATION))
      PENDING_FLAG_ADD_TO_SIMULATION.
Proof.
  intros En. rewrite (setEnabled_false_eq s En).
  rewrite setEnabled_true_eq by reflexivity. reflexivity.
Qed.

Lemma disable_enable_frame s :
  enabled s = true ->
  enabled (setEnabled true (setEnabled false s)) = true /\
  dynamicsWorld (setEnabled true (setEnabled false s)) = dynamicsWorld s.
Proof.
  intros En. rewrite (setEnabled_false_eq s En).
  rewrite setEnabled_true_eq by reflexivity. split; reflexivity.
Qed.

Lemma reenabled_flags_registered flags :
  (0 <= flags < 2 ^ 32)%Z ->
  Z.lor
    (Z.land (Z.lor flags PENDING_FLAG_REMOVE_FROM_SIMULATION)
       (not32 PENDING_FLAG_ADD_TO_SIMULATION))
    PENDING_FLAG_ADD_TO_SIMULATION
  = Z.lor flags
      (Z.lor PENDING_FLAG_ADD_TO_SIMULATION
         PENDING_FLAG_REMOVE_FROM_SIMULATION).
Proof.
  intros Hf. apply Z.bits_inj'. intros n Hn.
  unfold PENDING_FLAG_ADD_TO_SIMULATION, PENDING_FLAG_REMOVE_FROM_SIMULATION.
  rewrite !Z.lor_spec, Z.land_spec, Z.lor_spec, not32_bit, !flag_bit by lia.
  destruct (Z.eqb_spec 0 n) as [<- | N0];
    [destruct (Z.testbit flags 0); reflexivity|].
  destruct (Z.eqb_spec 1 n) as [<- | N1];
    [destruct (Z.testbit flags 1); reflexivity|].
  destruct (Z.ltb_spec n 32) as [L | G].
  - destruct (Z.testbit flags n); reflexivity.
  - rewrite (uint32_high_bits flags n Hf G). reflexivity.
Qed.

(** C8.  On an enabled controller registered in a dynamics world, with no
    addition and no removal pending, [setEnabled(false)] followed by
    [setEnabled(true)] leaves an addition pending and a removal pending
    (the removal asked for by the disabling, from the world the controller
    is still registered in); each request is recorded once, in its own bit,
    the other flags are untouched, the controller is enabled and registered
    as before, and repeating the pair of calls changes nothing more. *)
Theorem setEnabled_off_on (s : State) :
  enabled s = true ->
  isRegistered s = true ->
  needsAddition s = false ->
  needsRemoval s = false ->
  (0 <= pendingFlags s < 2 ^ 32)%Z ->
  let s' := setEnabled true (setEnabled false s) in
  needsAddition s' = true /\
  needsRemoval s' = true /\
  pendingFlags s'
  = (pendingFlags s + PENDING_FLAG_ADD_TO_SIMULATION
     + PENDING_FLAG_REMOVE_FROM_SIMULATION)%Z /\
  enabled s' = true /\
  dynamicsWorld s' = dynamicsWorld s /\
  pendingFlags (setEnabled true (setEnabled false s')) = pendingFlags s'.
Proof.
  intros En Reg NA NR Hf s'.
  assert (F : pendingFlags s'
              = Z.lor (pendingFlags s)
                  (Z.lor PENDING_FLAG_ADD_TO_SIMULATION
                     PENDING_FLAG_REMOVE_FROM_SIMULATION)).
  { unfold s'. rewrite pendingFlags_disable_enable, Reg by exact En.
    apply reenabled_flags_registered. exact Hf. }
  destruct (disable_enable_frame s En) as [En' W'].
  fold s' in En', W'.
  rewrite needsAddition_bit in *. rewrite needsRemoval_bit in *.
  assert (D : Z.land (pendingFlags s) 3 = 0%Z).
  { apply Z.bits_inj'. intros n Hn. rewrite Z.land_spec, Z.bits_0.
    change 3%Z with (Z.ones 2). rewrite Z.testbit_ones_nonneg by lia.
    destruct (Z.ltb_spec n 2) as [L | G]; [|apply andb_false_r].
    assert (n = 0 \/ n = 1)%Z as [-> | ->] by lia.
    - rewrite NA. reflexivity.
    - rewrite NR. reflexivity. }
  repeat split.
  - rewrite F, Z.lor_spec. change (Z.testbit (Z.lor _ _) 0) with true.
    apply orb_true_r.
  - rewrite F, Z.lor_spec. change (Z.testbit (Z.lor _ _) 1) with true.
    apply orb_true_r.
  - rewrite F.
    change (Z.lor PENDING_FLAG_ADD_TO_SIMULATION
              PENDING_FLAG_REMOVE_FROM_SIMULATION) with 3%Z.
    change PENDING_FLAG_ADD_TO_SIMULATION with 1%Z.
    change PENDING_FLAG_REMOVE_FROM_SIMULATION with 2%Z.
    rewrite <- Z.lxor_lor, <- Z.add_nocarry_lxor by exact D. lia.
  - exact En'.
  - exact W'.
  - rewrite pendingFlags_disable_enable by exact En'.
    assert (Reg' : isRegistered s' = true).
    { unfold isRegistered. rewrite W'. exact Reg. }
    rewrite Reg'. rewrite F.
    change (Z.lor PENDING_FLAG_ADD_TO_SIMULATION
              PENDING_FLAG_REMOVE_FROM_SIMULATION) with 3%Z.
    change PENDING_FLAG_ADD_TO_SIMULATION with 1%Z.
    change PENDING_FLAG_REMOVE_FROM_SIMULATION with 2%Z.
    apply Z.bits_inj'. intros n Hn.
    rewrite !Z.lor_spec, Z.land_spec, !Z.lor_spec, not32_bit by lia.
    change 1%Z with (Z.shiftl 1 0). change 2%Z with (Z.shiftl 1 1).
    change 3%Z with (Z.lor (Z.shiftl 1 0) (Z.shiftl 1 1)).
    rewrite !Z.lor_spec, !flag_bit by lia.
    destruct (Z.eqb_spec 0 n) as [<- | N0];
      [destruct (Z.testbit (pendingFlags s) 0); reflexivity|].
    destruct (Z.eqb_spec 1 n) as [<- | N1];
      [destruct (Z.testbit (pendingFlags s) 1); reflexivity|].
    destruct (Z.ltb_spec n 32) as [L | G].
    + destruct (Z.testbit (pendingFlags s) n); reflexivity.
    + rewrite (uint32_high_bits (pendingFlags s) n Hf G). reflexivity.
Qed.

(** ** Convex sweeps with a filtering callback *)

Lemma convexSweepTest_cons add c cs cb :
  convexSweepTest add (c :: cs) cb
  = convexSweepTest add cs
      (if Scalar.ltb (LocalConvexResult.m_hitFraction (fst c))
                     (ClosestConvexResultCallback.m_closestHitFraction cb)
       then fst (add cb (fst c) (snd c)) else cb).
Proof. reflexivity. Qed.

Lemma recorded_fraction cb c nw :
  ClosestConvexResultCallback.m_closestHitFraction
    (fst (ClosestConvexResultCallback.addSingleResult cb c nw))
  = LocalConvexResult.m_hitFraction c.
Proof. reflexivity. Qed.

Section FilteredSweep.

Variable accept : LocalConvexResult.t -> bool -> bool.
Variable add :
  ClosestConvexResultCallback.t -> LocalConvexResult.t -> bool ->
  ClosestConvexResultCallback.t * R.

(** The callback either hands the contact on to the engine's bookkeeping or
    returns 1 and records nothing. *)
Hypothesis add_filters :
  forall cb c nw,
    add cb c nw
    = if accept c nw then ClosestConvexResultCallback.addSingleResult cb c nw
      else (cb, 1).

Let accept1 (c : LocalConvexResult.t * bool) : bool := accept (fst c) (snd c).

Lemma sweep_ignores_rejected candidates cb :
  convexSweepTest add candidates cb
  = convexSweepTest add (filter accept1 candidates) cb.
Proof.
  revert cb. induction candidates as [|c cs IH]; intros cb; [reflexivity|].
  cbn [filter]. unfold accept1 at 1. destruct (accept (fst c) (snd c)) eqn:A.
  - rewrite !convexSweepTest_cons. apply IH.
  - rewrite convexSweepTest_cons, add_filters, A. cbn [fst].
    destruct (Scalar.ltb _ _); apply IH.
Qed.

Lemma sweep_erase_rejected before c after cb :
  accept1 c = false ->
  convexSweepTest add (before ++ c :: after) cb
  = convexSweepTest add (before ++ after) cb.
Proof.
  intros A. rewrite sweep_ignores_rejected.
  rewrite (sweep_ignores_rejected (before ++ after)).
  rewrite !filter_app. cbn [filter]. rewrite A. reflexivity.
Qed.

(** The closest fraction only decreases, and ends no farther than any
    accepted candidate. *)
Lemma sweep_closest candidates cb :
  let cb' := convexSweepTest add candidates cb in
  ClosestConvexResultCallback.m_closestHitFraction cb'
  <= ClosestConvexResultCallback.m_closestHitFraction cb /\
  forall c, In c candidates -> accept1 c = true ->
    ClosestConvexResultCallback.m_closestHitFraction cb'
    <= LocalConvexResult.m_hitFraction (fst c).
Proof.
  revert cb. induction candidates as [|c cs IH]; intros cb; cbn zeta.
  - split; [cbn; lra | intros ? []].
  - rewrite convexSweepTest_cons, add_filters.
    destruct (Scalar.ltb _ _) eqn:L;
      [apply ltb_true in L | apply ltb_false in L].
    + destruct (accept (fst c) (snd c)) eqn:A.
      * match goal with
        | |- context [convexSweepTest add cs ?x] =>
            destruct (IH x) as [M F]
        end.
        rewrite recorded_fraction in M.
        split; [lra|].
        intros c' [<- | I] A'; [exact M | exact (F c' I A')].
      * cbn [fst]. destruct (IH cb) as [M F]. split; [exact M|].
        intros c' [<- | I] A'; [|exact (F c' I A')].
        unfold accept1 in A'. congruence.
    + destruct (IH cb) as [M F]. split; [exact M|].
      intros c' [<- | I] A'; [lra | exact (F c' I A')].
Qed.

(** What the callback holds after the sweep is what it held before, or the
    record of an accepted candidate nearer than that. *)
Lemma sweep_result candidates cb :
  let cb' := convexSweepTest add candidates cb in
  cb' = cb \/
  exists c, In c candidates /\ accept1 c = true /\
    LocalConvexResult.m_hitFraction (fst c)
    < ClosestConvexResultCallback.m_closestHitFraction cb /\
    cb' = fst (ClosestConvexResultCallback.addSingleResult cb (fst c) (snd c)).
Proof.
  revert cb. induction candidates as [|c cs IH]; intros cb; cbn zeta.
  - now left.
  - rewrite convexSweepTest_cons, add_filters.
    destruct (Scalar.ltb _ _) eqn:L;
      [apply ltb_true in L | apply ltb_false in L].
    + destruct (accept (fst c) (snd c)) eqn:A.
      * match goal with
        | |- context [convexSweepTest add cs ?x] =>
            destruct (IH x) as [E | [c' [I [A' [Lt E]]]]]
        end.
        -- right. exists c. split; [now left|]. split; [exact A|].
           split; [exact L | exact E].
        -- right. exists c'. split; [now right|]. split; [exact A'|].
           rewrite recorded_fraction in Lt.
           split; [lra | exact E].
      * cbn [fst]. destruct (IH cb) as [E | [c' [I [A' [Lt E]]]]].
        -- now left.
        -- right. exists c'. split; [now right|]. auto.
    + destruct (IH cb) as [E | [c' [I [A' [Lt E]]]]].
      * now left.
      * right. exists c'. split; [now right|]. auto.
Qed.

(** A sweep started with a fresh callback reports a hit exactly when an
    accepted candidate lies before the end of the sweep. *)
Lemma sweep_hasHit candidates :
  ClosestConvexResultCallback.hasHit
    (convexSweepTest add candidates ClosestConvexResultCallback.init) = true
  <-> exists c, In c candidates /\ accept1 c = true /\
        LocalConvexResult.m_hitFraction (fst c) < 1.
Proof.
  split.
  - intros H.
    destruct (sweep_result candidates ClosestConvexResultCallback.init)
      as [E | [c [I [A [Lt _]]]]].
    + rewrite E in H. discriminate.
    + exists c. auto.
  - intros [c [I [A Lt]]].
    destruct (sweep_result candidates ClosestConvexResultCallback.init)
      as [E | [c' [_ [_ [_ E]]]]].
    + exfalso.
      destruct (sweep_closest candidates ClosestConvexResultCallback.init)
        as [_ F].
      specialize (F c I A). rewrite E in F. cbn in F. lra.
    + rewrite E. reflexivity.
Qed.

End FilteredSweep.

(** ** stepUp *)

Lemma notMe_add_filters me up minSlopeDot cb c nw :
  KinematicClosestNotMeConvexResultCallback.addSingleResult me up minSlopeDot
    cb c nw
  = if KinematicClosestNotMeConvexResultCallback.accepts me up minSlopeDot c nw
    then ClosestConvexResultCallback.addSingleResult cb c nw
    else (cb, 1).
Proof.
  unfold KinematicClosestNotMeConvexResultCallback.addSingleResult,
    KinematicClosestNotMeConvexResultCallback.accepts.
  destruct (same_object _ me); [reflexivity|].
  destruct (hasContactResponse _); [|reflexivity].
  cbn [negb andb]. destruct (Scalar.ltb _ _); reflexivity.
Qed.

(** A contact that fails the slope test is not recorded. *)
Lemma notMe_rejects_steep me up minSlopeDot cb c nw :
  Vec3.dot up (LocalConvexResult.worldNormal c nw) < minSlopeDot ->
  KinematicClosestNotMeConvexResultCallback.addSingleResult me up minSlopeDot
    cb c nw = (cb, 1).
Proof.
  intros H. rewrite notMe_add_filters.
  unfold KinematicClosestNotMeConvexResultCallback.accepts.
  apply ltb_true in H. rewrite H. cbn [negb].
  rewrite andb_false_r. reflexivity.
Qed.

Lemma accepts_slope me up minSlopeDot c nw :
  KinematicClosestNotMeConvexResultCallback.accepts me up minSlopeDot c nw
  = true ->
  minSlopeDot <= Vec3.dot up (LocalConvexResult.worldNormal c nw).
Proof.
  unfold KinematicClosestNotMeConvexResultCallback.accepts. intros H.
  apply andb_true_iff in H as [_ H]. apply negb_true_iff in H.
  apply ltb_false in H. exact H.
Qed.

(** C3 (amended).  In the upward sweep of [stepUp], a contact whose normal
    fails the slope test, normal . (-up) < 0.7071, is not recorded by the
    callback, which returns 1, and the sweep is the same as if the contact
    were not there.  The sweep reports a hit exactly when a contact that
    the callback accepts lies before the end of the sweep; the closest
    fraction it reports is no farther than any accepted contact, and the
    fraction and normal it reports are those of an accepted contact, whose
    normal therefore passes the slope test. *)
Theorem stepUp_sweep_skips_steep_contacts (world : CollisionWorld) (s : State) :
  let callback := stepUp_sweep world s in
  (forall cb c nw,
     Vec3.dot (Vec3.neg (currentUp s)) (LocalConvexResult.worldNormal c nw)
     < 7071 / 10000 ->
     KinematicClosestNotMeConvexResultCallback.addSingleResult (ghostObject s)
       (Vec3.neg (currentUp s)) (7071 / 10000) cb c nw = (cb, 1)) /\
  callback
  = convexSweepTest
      (KinematicClosestNotMeConvexResultCallback.addSingleResult
         (ghostObject s) (Vec3.neg (currentUp s)) (7071 / 10000))
      (filter (stepUp_accepts s) (stepUp_candidates world s))
      ClosestConvexResultCallback.init /\
  (ClosestConvexResultCallback.hasHit callback = true <->
   exists c, In c (stepUp_candidates world s) /\ stepUp_accepts s c = true /\
     LocalConvexResult.m_hitFraction (fst c) < 1) /\
  (forall c, In c (stepUp_candidates world s) -> stepUp_accepts s c = true ->
     ClosestConvexResultCallback.m_closestHitFraction callback
     <= LocalConvexResult.m_hitFraction (fst c)) /\
  (ClosestConvexResultCallback.hasHit callback = true ->
   exists c, In c (stepUp_candidates world s) /\ stepUp_accepts s c = true /\
     ClosestConvexResultCallback.m_closestHitFraction callback
     = LocalConvexResult.m_hitFraction (fst c) /\
     ClosestConvexResultCallback.m_hitNormalWorld callback
     = LocalConvexResult.worldNormal (fst c) (snd c) /\
     7071 / 10000
     <= Vec3.dot (Vec3.neg (currentUp s))
          (ClosestConvexResultCallback.m_hitNormalWorld callback)).
Proof.
  intros callback.
  pose proof (notMe_add_filters (ghostObject s) (Vec3.neg (currentUp s))
                (7071 / 10000)) as AF.
  split; [|split; [|split; [|split]]].
  - intros cb c nw H. apply notMe_rejects_steep. exact H.
  - apply (sweep_ignores_rejected _ _ AF).
  - apply (sweep_hasHit _ _ AF).
  - intros c I A.
    apply (proj2 (sweep_closest _ _ AF (stepUp_candidates world s)
                    ClosestConvexResultCallback.init) c I A).
  - intros H.
    destruct (sweep_result _ _ AF (stepUp_candidates world s)
                ClosestConvexResultCallback.init)
      as [E | [c [I [A [_ E]]]]].
    + unfold callback, stepUp_sweep in H. fold (stepUp_candidates world s) in H.
      rewrite E in H. discriminate.
    + exists c. split; [exact I|]. split; [exact A|].
      unfold callback, stepUp_sweep. fold (stepUp_candidates world s).
      rewrite E. cbn [fst ClosestConvexResultCallback.addSingleResult
                        ClosestConvexResultCallback.m_closestHitFraction
                        ClosestConvexResultCallback.m_hitNormalWorld].
      split; [reflexivity|]. split; [reflexivity|].
      apply (accepts_slope _ _ _ _ _ A).
Qed.

Lemma stepUp_sweep_wallWorld :
  stepUp_sweep wallWorld exampleController = ClosestConvexResultCallback.init.
Proof.
  unfold stepUp_sweep, wallWorld. cbn [sweepCandidates].
  rewrite convexSweepTest_cons. cbn [fst snd].
  rewrite notMe_rejects_steep.
  - cbn [fst]. destruct (Scalar.ltb _ _); reflexivity.
  - vsimpl. lra.
Qed.

Lemma stepUp_sweep_skips_steep_contacts_witness :
  KinematicClosestNotMeConvexResultCallback.addSingleResult
    (ghostObject exampleController) (Vec3.neg (currentUp exampleController))
    (7071 / 10000) ClosestConvexResultCallback.init
    (LocalConvexResult.mk sceneObject (Vec3.mk 1 0 0)
       (Vec3.mk (- (3 / 10)) 1 0) (1 / 2)) true
  = (ClosestConvexResultCallback.init, 1).
Proof.
  apply (proj1 (stepUp_sweep_skips_steep_contacts wallWorld exampleController)).
  vsimpl. lra.
Defined.

(** C3, as stated, fails: beside a wall, the upward sweep meets a contact
    halfway whose normal is horizontal, so that normal . (-up) = 0 < 0.7071;
    the sweep reports no hit, its closest fraction stays 1, and [stepUp]
    rises by the whole [stepUpHeight]: the contact's fraction 1/2 shortens
    nothing. *)
Lemma stepUp_steep_contact_counterexample :
  let contact :=
    (LocalConvexResult.mk sceneObject (Vec3.mk 1 0 0)
       (Vec3.mk (- (3 / 10)) 1 0) (1 / 2), true) in
  let callback := stepUp_sweep wallWorld exampleController in
  In contact (stepUp_candidates wallWorld exampleController) /\
  Vec3.dot (Vec3.neg (currentUp exampleController))
    (LocalConvexResult.worldNormal (fst contact) (snd contact))
  < 7071 / 10000 /\
  LocalConvexResult.m_hitFraction (fst contact) < 1 /\
  ClosestConvexResultCallback.hasHit callback = false /\
  ClosestConvexResultCallback.m_closestHitFraction callback = 1 /\
  lastStepUp (stepUp wallWorld exampleController)
  = stepUpHeight exampleController /\
  currentPosition (stepUp wallWorld exampleController)
  = currentPosition exampleController
    +v stepUpHeight exampleController *v currentUp exampleController.
Proof.
  cbv zeta. rewrite stepUp_sweep_wallWorld.
  split; [now left|]. split; [vsimpl; lra|]. split; [vsimpl; lra|].
  split; [reflexivity|]. split; [reflexivity|].
  unfold stepUp. rewrite stepUp_sweep_wallWorld.
  split; reflexivity.
Qed.

(** Whatever the upward sweep hits faces downwards, so [stepUp] always
    ends at the full step height. *)
Lemma stepUp_hit_faces_down world s :
  ClosestConvexResultCallback.hasHit (stepUp_sweep world s) = true ->
  Vec3.dot
    (ClosestConvexResultCallback.m_hitNormalWorld (stepUp_sweep world s))
    (currentUp s)
  <= - (7071 / 10000).
Proof.
  intros H.
  pose proof (notMe_add_filters (ghostObject s) (Vec3.neg (currentUp s))
                (7071 / 10000)) as AF.
  destruct (sweep_result _ _ AF (stepUp_candidates world s)
              ClosestConvexResultCallback.init)
    as [E | [c [I [A [_ E]]]]];
    unfold stepUp_sweep in *; fold (stepUp_candidates world s) in *;
    rewrite E in *; [discriminate|].
  apply accepts_slope in A.
  cbn [fst ClosestConvexResultCallback.addSingleResult
         ClosestConvexResultCallback.m_hitNormalWorld].
  revert A. generalize (LocalConvexResult.worldNormal (fst c) (snd c)).
  intros n. unfold Vec3.dot, Vec3.neg. simpl. lra.
Qed.

Lemma stepUp_full_height world s :
  currentPosition (stepUp world s)
  = currentPosition s +v stepUpHeight s *v currentUp s /\
  lastStepUp (stepUp world s) = stepUpHeight s.
Proof.
  unfold stepUp.
  destruct (ClosestConvexResultCallback.hasHit (stepUp_sweep world s)) eqn:H.
  - apply stepUp_hit_faces_down in H.
    cbn [currentUp set_targetPosition set_verticalVelocity
           set_verticalOffset].
    rewrite (proj2 (gtb_false _ 0)) by lra.
    split; reflexivity.
  - split; reflexivity.
Qed.

(** ** recoverFromPenetration *)


Lemma sameSetup_refl s : sameSetup s s.
Proof. unfold sameSetup. repeat split. Qed.

Lemma sameSetup_trans s1 s2 s3 :
  sameSetup s1 s2 -> sameSetup s2 s3 -> sameSetup s1 s3.
Proof.
  unfold sameSetup. intros (A1 & A2 & A3 & A4 & A5 & A6)
    (B1 & B2 & B3 & B4 & B5 & B6).
  repeat split; congruence.
Qed.

Lemma softContact_sameSetup p0 sign s s' pt :
  sameSetup s s' -> softContact p0 sign s pt -> softContact p0 sign s' pt.
Proof.
  unfold sameSetup, softContact.
  intros (_ & -> & -> & -> & -> & ->). auto.
Qed.

Lemma recoverContact_setup p0 sign acc pt :
  sameSetup (snd acc) (snd (recoverContact p0 sign acc pt)).
Proof.
  destruct acc as [[maxPen penetration] s]. unfold recoverContact.
  cbn [snd].
  destruct (Scalar.ltb (getDistance pt) 0); [|apply sameSetup_refl].
  match goal with
  | |- context [if ?u then _ else (maxPen, penetration, s)] => destruct u
  end; [|apply sameSetup_refl].
  destruct (Scalar.ltb (getDistance pt) maxPen);
    unfold sameSetup; repeat split.
Qed.

Lemma recoverContacts_setup p0 sign pts acc :
  sameSetup (snd acc) (snd (fold_left (recoverContact p0 sign) pts acc)).
Proof.
  revert acc. induction pts as [|pt pts IH]; intros acc.
  - apply sameSetup_refl.
  - cbn [fold_left].
    eapply sameSetup_trans; [apply recoverContact_setup | apply IH].
Qed.

Lemma recoverManifold_setup p0 acc manifold :
  sameSetup (snd acc) (snd (recoverManifold p0 acc manifold)).
Proof. unfold recoverManifold. apply recoverContacts_setup. Qed.

Lemma recoverManifolds_setup p0 manifolds acc :
  sameSetup (snd acc) (snd (fold_left (recoverManifold p0) manifolds acc)).
Proof.
  revert acc. induction manifolds as [|m ms IH]; intros acc.
  - apply sameSetup_refl.
  - cbn [fold_left].
    eapply sameSetup_trans; [apply recoverManifold_setup | apply IH].
Qed.

Lemma recoverPair_setup p0 acc pair :
  sameSetup (snd acc) (snd (recoverPair p0 acc pair)).
Proof.
  unfold recoverPair. destruct (_ || _); [apply sameSetup_refl|].
  apply recoverManifolds_setup.
Qed.

Lemma recoverPairs_setup p0 pairs acc :
  sameSetup (snd acc) (snd (fold_left (recoverPair p0) pairs acc)).
Proof.
  revert acc. induction pairs as [|p ps IH]; intros acc.
  - apply sameSetup_refl.
  - cbn [fold_left].
    eapply sameSetup_trans; [apply recoverPair_setup | apply IH].
Qed.

(** A soft contact leaves the locals and the controller as they are. *)
Lemma recoverContact_soft p0 sign acc pt :
  softContact p0 sign (snd acc) pt -> recoverContact p0 sign acc pt = acc.
Proof.
  destruct acc as [[maxPen penetration] s]. cbn [snd].
  intros (D & N & H). unfold recoverContact.
  apply ltb_true in D, N, H. rewrite D, N, H. reflexivity.
Qed.

Lemma recoverContacts_erase_soft p0 sign acc before pt after :
  softContact p0 sign (snd acc) pt ->
  fold_left (recoverContact p0 sign) (before ++ pt :: after) acc
  = fold_left (recoverContact p0 sign) (before ++ after) acc.
Proof.
  intros S. rewrite !fold_left_app. cbn [fold_left].
  rewrite recoverContact_soft; [reflexivity|].
  eapply softContact_sameSetup; [apply recoverContacts_setup | exact S].
Qed.

(** C4 (amended).  A penetrating contact (distance < 0) on a non-walkable
    surface (normal . up < maxSlopeCosine) whose height above the
    character's base point [currentPosition - (radius + halfHeight) up] is
    strictly below [lastStepUp] produces no correction: the loop body
    leaves [maxPen], [penetration], [currentPosition] and [floorNormal] as
    they are, and [recoverFromPenetration] returns the same flag and the
    same controller as in a world whose manifold lacks the contact. *)
Theorem recoverFromPenetration_ignores_soft_contact
    (world world' : CollisionWorld) (s : State)
    (pairs1 pairs2 : list BroadphasePair)
    (o0 o1 : option CollisionObject)
    (manifolds1 manifolds2 : list PersistentManifold) (body0 : nat)
    (points1 points2 : list ManifoldPoint) (pt : ManifoldPoint) :
  let sign :=
    directionSign (ghostObject s)
      (mkPersistentManifold body0 (points1 ++ pt :: points2)) in
  softContact (ghostOrigin s) sign s pt ->
  overlappingPairs world (ghostOrigin s)
  = pairs1
    ++ mkBroadphasePair o0 o1
         (Some (manifolds1
                ++ mkPersistentManifold body0 (points1 ++ pt :: points2)
                   :: manifolds2))
       :: pairs2 ->
  overlappingPairs world' (ghostOrigin s)
  = pairs1
    ++ mkBroadphasePair o0 o1
         (Some (manifolds1
                ++ mkPersistentManifold body0 (points1 ++ points2)
                   :: manifolds2))
       :: pairs2 ->
  (forall acc, sameSetup s (snd acc) ->
     recoverContact (ghostOrigin s) sign acc pt = acc) /\
  recoverFromPenetration world s = recoverFromPenetration world' s.
Proof.
  intros sign S W W'. split.
  - intros acc Same. apply recoverContact_soft.
    eapply softContact_sameSetup; [exact Same | exact S].
  - unfold recoverFromPenetration. rewrite W, W'.
    cbn [currentPosition set_currentPosition].
    rewrite !fold_left_app. cbn [fold_left].
    set (s1 := set_currentPosition (ghostOrigin s) s).
    set (acc1 := fold_left (recoverPair (ghostOrigin s)) pairs1 (0, false, s1)).
    assert (Same1 : sameSetup s (snd acc1)).
    { eapply sameSetup_trans; [|apply recoverPairs_setup].
      unfold sameSetup; repeat split. }
    assert (E : forall pts,
               recoverPair (ghostOrigin s) acc1
                 (mkBroadphasePair o0 o1
                    (Some (manifolds1
                           ++ mkPersistentManifold body0 pts :: manifolds2)))
               = if lacksContactResponse o0 || lacksContactResponse o1
                 then acc1
                 else
                   fold_left (recoverManifold (ghostOrigin s)) manifolds2
                     (fold_left (recoverContact (ghostOrigin s) sign) pts
                        (fold_left (recoverManifold (ghostOrigin s))
                           manifolds1 acc1))).
    { intros pts. unfold recoverPair. cbn [obj0 obj1 m_algorithm].
      destruct (_ || _); [reflexivity|].
      rewrite fold_left_app. cbn [fold_left]. f_equal.
      unfold recoverManifold at 1. cbn [contactPoints]. f_equal.
      unfold sign, directionSign. cbn [getBody0].
      assert (G : sameSetup s
                    (snd (fold_left (recoverManifold (ghostOrigin s))
                            manifolds1 acc1))).
      { eapply sameSetup_trans; [exact Same1|].
        apply recoverManifolds_setup. }
      destruct G as [-> _]. reflexivity. }
    rewrite !E.
    rewrite recoverContacts_erase_soft; [reflexivity|].
    eapply softContact_sameSetup; [|exact S].
    eapply sameSetup_trans; [exact Same1|]. apply recoverManifolds_setup.
Qed.

(** Evaluation of the fields of the example controllers. *)
Ltac fields_eval :=
  simpl; unfold TERMINAL_VELOCITY, JUMP_SPEED, DEFAULT_GRAVITY; simpl.

(** Evaluation of a scalar comparison on concrete data. *)
Ltac cmp_eval :=
  match goal with
  | |- context [Scalar.ltb ?a ?b] =>
      first [ rewrite (proj2 (ltb_true a b)) by (vsimpl; lra)
            | rewrite (proj2 (ltb_false a b)) by (vsimpl; lra) ]
  end.

Lemma ledgeContact_soft :
  softContact (ghostOrigin steppedController)
    (directionSign (ghostObject steppedController)
       (mkPersistentManifold 0 ([] ++ ledgeContact :: [])))
    steppedController ledgeContact.
Proof.
  unfold softContact, directionSign. simpl.
  unfold Scalar.gtb. cmp_eval. vsimpl. repeat split; lra.
Qed.

Lemma recoverFromPenetration_ignores_soft_contact_witness :
  recoverFromPenetration (ledgeWorld [ledgeContact]) steppedController
  = recoverFromPenetration (ledgeWorld []) steppedController.
Proof.
  apply (proj2 (recoverFromPenetration_ignores_soft_contact
                  (ledgeWorld [ledgeContact]) (ledgeWorld [])
                  steppedController [] []
                  (Some (mkCollisionObject 0 true Mat3.identity))
                  (Some sceneObject) [] [] 0 [] [] ledgeContact
                  ledgeContact_soft eq_refl eq_refl)).
Defined.

(** C4, as stated, fails: the character has sunk into a flat floor; the
    contact is a penetration, at height 0 above the character's base, so
    strictly below [lastStepUp = 0.55]; its normal is the up axis, a
    walkable surface, and [recoverFromPenetration] uses it: it reports a
    penetration and moves the character up by a fifth of the depth. *)
Lemma recoverFromPenetration_floor_counterexample :
  let pt :=
    mkManifoldPoint (- (1 / 10)) (Vec3.mk 0 1 0)
      (Vec3.mk 0 (- (1 / 10)) 0) (Vec3.mk 0 0 0) in
  let s := steppedController in
  overlappingPairs sunkenFloorWorld (ghostOrigin s)
  = [mkBroadphasePair (Some (mkCollisionObject 0 true Mat3.identity))
       (Some sceneObject) (Some [mkPersistentManifold 0 [pt]])] /\
  getDistance pt < 0 /\
  Vec3.dot
    (getPositionWorldOnB pt
     -v (ghostOrigin s -v (radius s + halfHeight s) *v currentUp s))
    (currentUp s)
  < lastStepUp s /\
  fst (recoverFromPenetration sunkenFloorWorld s) = true /\
  currentPosition (snd (recoverFromPenetration sunkenFloorWorld s))
  = Vec3.mk 0 (92 / 100) 0 /\
  currentPosition (snd (recoverFromPenetration sunkenFloorWorld s))
  <> ghostOrigin s.
Proof.
  cbv zeta.
  assert (E : recoverFromPenetration sunkenFloorWorld steppedController
              = (true,
                 set_ghostOrigin (Vec3.mk 0 (92 / 100) 0)
                   (set_currentPosition (Vec3.mk 0 (92 / 100) 0)
                      (set_floorNormal (Vec3.mk 0 1 0) steppedController)))).
  { unfold recoverFromPenetration, sunkenFloorWorld.
    cbn [overlappingPairs fold_left].
    unfold recoverPair. cbn [obj0 obj1 m_algorithm lacksContactResponse
                               hasContactResponse sceneObject negb orb
                               fold_left].
    unfold recoverManifold. cbn [contactPoints fold_left snd].
    unfold recoverContact, directionSign. simpl.
    repeat cmp_eval.
    unfold Scalar.fabsf. rewrite Rabs_Ropp, Rabs_pos_eq by lra.
    assert (V : Vec3.mk 0 (9 / 10) 0
                +v (1 / 10 * (2 / 10)) *v (1 *v Vec3.mk 0 1 0)
                = Vec3.mk 0 (92 / 100) 0)
      by (apply vec_eq; simpl; lra).
    assert (N : 1 *v Vec3.mk 0 1 0 = Vec3.mk 0 1 0)
      by (apply vec_eq; simpl; lra).
    unfold steppedController, exampleController, set_lastStepUp.
    simpl. rewrite V, N. reflexivity. }
  rewrite E. cbn [fst snd].
  split; [reflexivity|]. split; [vsimpl; lra|]. split; [vsimpl; lra|].
  split; [reflexivity|]. split; [reflexivity|].
  simpl. intros C. apply (f_equal Vec3.y) in C. simpl in C. lra.
Qed.

(** ** What the phases of a step leave alone *)

Lemma scanDown_cases world s :
  scanDown world s = s \/
  scanDown world s = set_isHovering true s \/
  scanDown world s = set_isHovering false s.
Proof.
  unfold scanDown.
  destruct (negb (ClosestRayResultCallback.hasHit (scanDown_ray world s)));
    [auto|].
  destruct (isHovering s && _); auto.
Qed.

Lemma stepForward_loop_frame world maxIter :
  forall stepLength2 s,
  exists c t,
    fst (stepForward_loop world maxIter stepLength2 s)
    = set_currentPosition c (set_targetPosition t s).
Proof.
  induction maxIter as [|n IH]; intros l2 s.
  - exists (currentPosition s), (targetPosition s).
    cbn [stepForward_loop]. destruct (Scalar.gtb l2 _); destruct s; reflexivity.
  - cbn [stepForward_loop].
    destruct (Scalar.gtb l2 _);
      [|exists (currentPosition s), (targetPosition s); destruct s; reflexivity].
    destruct (ClosestConvexResultCallback.hasHit (stepForward_sweep world s)).
    + match goal with
      | |- context [stepForward_loop world n ?l ?x] =>
          destruct (IH l x) as [c [t E]];
          destruct (stepForward_loop world n l x) as [s' tr]
      end.
      cbn [fst] in *. subst s'. exists c, t. reflexivity.
    + exists (targetPosition s), (targetPosition s).
      cbn [fst]. destruct s; reflexivity.
Qed.

(** [stepForward] changes the two positions and nothing else; in particular
    it puts the margin of the shape back. *)
Lemma stepForward_frame world movement s :
  exists c t,
    stepForward world movement s
    = set_currentPosition c (set_targetPosition t s).
Proof.
  unfold stepForward, stepForward_sweeps.
  match goal with
  | |- context [stepForward_loop world ?n ?l ?x] =>
      destruct (stepForward_loop_frame world n l x) as [c [t E]];
      destruct (stepForward_loop world n l x) as [s' tr]
  end.
  cbn [fst] in *. subst s'. exists c, t. destruct s; reflexivity.
Qed.

Lemma stepUp_velocity world s :
  verticalVelocity (stepUp world s) = verticalVelocity s \/
  verticalVelocity (stepUp world s) = 0.
Proof.
  unfold stepUp.
  destruct (ClosestConvexResultCallback.hasHit (stepUp_sweep world s));
    [|now left].
  right. destruct (Scalar.gtb _ 0); reflexivity.
Qed.

Lemma stepDown_velocity world dt s :
  verticalVelocity (stepDown world dt s) = verticalVelocity s \/
  verticalVelocity (stepDown world dt s) = 0.
Proof.
  unfold stepDown, stepDown_sweeps. cbv zeta.
  repeat match goal with
  | |- context [if ?c then _ else _] => destruct c
  end; cbn; auto.
Qed.

(** Nothing in a step changes the speed limits, and only [scanDown]
    changes the hover flag. *)
Lemma stepUp_frame world s :
  maxFallSpeed (stepUp world s) = maxFallSpeed s /\
  jumpSpeed (stepUp world s) = jumpSpeed s /\
  isHovering (stepUp world s) = isHovering s /\
  stepDt (stepUp world s) = stepDt s /\
  lastPosition (stepUp world s) = lastPosition s /\
  walkDirection (stepUp world s) = walkDirection s /\
  velocityTimeInterval (stepUp world s) = velocityTimeInterval s /\
  isJumping (stepUp world s) = isJumping s.
Proof.
  unfold stepUp.
  repeat match goal with
  | |- context [if ?c then _ else _] => destruct c
  end; repeat split.
Qed.

Lemma stepDown_frame world dt s :
  maxFallSpeed (stepDown world dt s) = maxFallSpeed s /\
  jumpSpeed (stepDown world dt s) = jumpSpeed s /\
  isHovering (stepDown world dt s) = isHovering s /\
  stepDt (stepDown world dt s) = stepDt s /\
  lastPosition (stepDown world dt s) = lastPosition s.
Proof.
  unfold stepDown, stepDown_sweeps. cbv zeta.
  repeat match goal with
  | |- context [if ?c then _ else _] => destruct c
  end; repeat split.
Qed.

(** The update of the fall velocity, when not hovering, ends within the
    speed limits. *)
Lemma updateFallVelocity_clamps dt s :
  isHovering s = false ->
  0 <= maxFallSpeed s -> 0 <= jumpSpeed s ->
  - maxFallSpeed s <= verticalVelocity (updateFallVelocity dt s) <= jumpSpeed s.
Proof.
  intros Hov Hm Hj. unfold updateFallVelocity. rewrite Hov.
  cbn [verticalVelocity jumpSpeed maxFallSpeed set_verticalVelocity].
  repeat case_cmp; cbn; lra.
Qed.

(** While hovering, a step of at most a second keeps a velocity that is
    within the speed limits within them. *)
Lemma updateFallVelocity_relaxes dt s :
  isHovering s = true -> 0 <= dt <= 1 ->
  0 <= maxFallSpeed s -> 0 <= jumpSpeed s ->
  - maxFallSpeed s <= verticalVelocity s <= jumpSpeed s ->
  - maxFallSpeed s <= verticalVelocity (updateFallVelocity dt s) <= jumpSpeed s.
Proof.
  intros Hov Hdt Hm Hj Hv. unfold updateFallVelocity. rewrite Hov. cbn.
  replace (dt / 1) with dt by field.
  split; nra.
Qed.

Lemma updateFallVelocity_frame dt s :
  maxFallSpeed (updateFallVelocity dt s) = maxFallSpeed s /\
  jumpSpeed (updateFallVelocity dt s) = jumpSpeed s /\
  isHovering (updateFallVelocity dt s) = isHovering s /\
  stepDt (updateFallVelocity dt s) = stepDt s /\
  lastPosition (updateFallVelocity dt s) = lastPosition s.
Proof.
  unfold updateFallVelocity.
  destruct (isHovering s) eqn:Hov; [repeat split; exact Hov|].
  cbn [verticalVelocity jumpSpeed maxFallSpeed set_verticalVelocity].
  repeat case_cmp; repeat split; exact Hov.
Qed.

(** ** playerStep: the vertical velocity *)

Lemma clamped_scanDown m j world s :
  clamped m j s -> clamped m j (scanDown world s).
Proof.
  intros C. destruct (scanDown_cases world s) as [-> | [-> | ->]]; exact C.
Qed.

Lemma clamped_stepUp m j world s :
  0 <= m -> 0 <= j -> clamped m j s -> clamped m j (stepUp world s).
Proof.
  intros Hm Hj (M & J & V). unfold clamped.
  destruct (stepUp_frame world s) as (-> & -> & _).
  split; [exact M|]. split; [exact J|].
  destruct (stepUp_velocity world s) as [-> | ->]; lra.
Qed.

Lemma clamped_stepForward m j world movement s :
  clamped m j s -> clamped m j (stepForward world movement s).
Proof.
  intros C. destruct (stepForward_frame world movement s) as [c [t ->]].
  exact C.
Qed.

Lemma clamped_stepDown m j world dt s :
  0 <= m -> 0 <= j -> clamped m j s -> clamped m j (stepDown world dt s).
Proof.
  intros Hm Hj (M & J & V). unfold clamped.
  destruct (stepDown_frame world dt s) as (-> & -> & _).
  split; [exact M|]. split; [exact J|].
  destruct (stepDown_velocity world dt s) as [-> | ->]; lra.
Qed.

(** After the update of the fall velocity, the rest of [playerStep] keeps
    a velocity that is within the limits within them. *)
Lemma playerStep_keeps_clamped m j world dt s :
  enabled s = true -> 0 <= m -> 0 <= j ->
  clamped m j (updateFallVelocity dt s) ->
  clamped m j (playerStep world dt s).
Proof.
  intros En Hm Hj C. unfold playerStep. rewrite En. cbn [negb]. cbv zeta.
  match goal with
  | |- clamped m j (set_ghostOrigin _ (set_ghostRotation _ ?x)) =>
      enough (clamped m j x) as K by exact K
  end.
  apply clamped_stepDown; [exact Hm | exact Hj|].
  apply clamped_stepForward.
  match goal with
  | |- clamped m j (set_stepDt _ (set_velocityTimeInterval _ ?x)) =>
      enough (clamped m j x) as K by exact K
  end.
  apply clamped_stepUp; [exact Hm | exact Hj|].
  apply clamped_scanDown. exact C.
Qed.

(** C5 (amended).  For a call [playerStep(dt)] on an enabled controller
    with [dt >= 0], [maxFallSpeed >= 0] and [jumpSpeed >= 0]: if the
    controller is not hovering when the call begins, then when it returns
    the vertical velocity lies within [-maxFallSpeed, +jumpSpeed]
    (whatever the hover flag is by then), the limits being unchanged. *)
Theorem playerStep_velocity_clamp (world : CollisionWorld) (dt : R) (s : State) :
  enabled s = true ->
  0 <= dt ->
  0 <= maxFallSpeed s ->
  0 <= jumpSpeed s ->
  isHovering s = false ->
  let s' := playerStep world dt s in
  maxFallSpeed s' = maxFallSpeed s /\
  jumpSpeed s' = jumpSpeed s /\
  - maxFallSpeed s' <= verticalVelocity s' <= jumpSpeed s'.
Proof.
  intros En Hdt Hm Hj Hov s'.
  assert (C : clamped (maxFallSpeed s) (jumpSpeed s) s').
  { apply playerStep_keeps_clamped; [exact En | exact Hm | exact Hj|].
    destruct (updateFallVelocity_frame dt s) as (M & J & _).
    split; [exact M|]. split; [exact J|].
    apply updateFallVelocity_clamps; assumption. }
  destruct C as (M & J & V). rewrite M, J. auto.
Qed.

(** A controller that enters [playerStep] hovering, with its velocity
    within the limits and a step of at most a second, also leaves it with
    its velocity within the limits. *)
Lemma playerStep_velocity_clamp_hovering world dt s :
  enabled s = true -> 0 <= dt <= 1 ->
  0 <= maxFallSpeed s -> 0 <= jumpSpeed s ->
  isHovering s = true ->
  - maxFallSpeed s <= verticalVelocity s <= jumpSpeed s ->
  - maxFallSpeed s <= verticalVelocity (playerStep world dt s) <= jumpSpeed s.
Proof.
  intros En Hdt Hm Hj Hov V.
  assert (C : clamped (maxFallSpeed s) (jumpSpeed s) (playerStep world dt s)).
  { apply playerStep_keeps_clamped; [exact En | exact Hm | exact Hj|].
    destruct (updateFallVelocity_frame dt s) as (M & J & _).
    split; [exact M|]. split; [exact J|].
    apply updateFallVelocity_relaxes; assumption. }
  destruct C as (_ & _ & V'). exact V'.
Qed.


(** Only [scanDown] decides the hover flag that [playerStep] leaves. *)
Lemma playerStep_isHovering world dt s :
  enabled s = true ->
  isHovering (playerStep world dt s)
  = isHovering
      (scanDown world
         (set_verticalOffset (verticalVelocity (updateFallVelocity dt s) * dt)
            (updateFallVelocity dt s))).
Proof.
  intros En. unfold playerStep. rewrite En. cbn [negb]. cbv zeta.
  cbn [isHovering set_ghostOrigin set_ghostRotation].
  rewrite (proj1 (proj2 (proj2 (stepDown_frame _ _ _)))).
  match goal with
  | |- context [stepForward ?w ?m ?x] =>
      destruct (stepForward_frame w m x) as [c [t ->]]
  end.
  cbn [isHovering set_currentPosition set_targetPosition set_stepDt
         set_velocityTimeInterval].
  rewrite (proj1 (proj2 (proj2 (stepUp_frame _ _)))). reflexivity.
Qed.

(** Where no sweep meets anything, the velocity that the update computed
    is the velocity that [playerStep] leaves. *)
Lemma stepUp_no_contacts world s :
  (forall m a b, sweepCandidates world m a b = []) ->
  verticalVelocity (stepUp world s) = verticalVelocity s.
Proof.
  intros N. unfold stepUp, stepUp_sweep. rewrite N. reflexivity.
Qed.

Lemma stepDown_no_contacts world dt s :
  (forall m a b, sweepCandidates world m a b = []) ->
  verticalVelocity (stepDown world dt s) = verticalVelocity s /\
  isOnGround (stepDown world dt s) = false.
Proof.
  intros N. unfold stepDown, stepDown_sweeps. cbv zeta. rewrite !N.
  cbn [convexSweepTest fold_left ClosestConvexResultCallback.hasHit
         ClosestConvexResultCallback.init
         ClosestConvexResultCallback.m_hitCollisionObject].
  cbn [isJumping set_isOnGround set_targetPosition].
  destruct (isJumping s); cbn [negb]; split; reflexivity.
Qed.

Lemma playerStep_no_contacts world dt s :
  enabled s = true ->
  (forall m a b, sweepCandidates world m a b = []) ->
  verticalVelocity (playerStep world dt s)
  = verticalVelocity (updateFallVelocity dt s).
Proof.
  intros En N. unfold playerStep. rewrite En. cbn [negb]. cbv zeta.
  cbn [verticalVelocity set_ghostOrigin set_ghostRotation].
  rewrite (proj1 (stepDown_no_contacts _ _ _ N)).
  match goal with
  | |- context [stepForward ?w ?m ?x] =>
      destruct (stepForward_frame w m x) as [c [t ->]]
  end.
  cbn [verticalVelocity set_currentPosition set_targetPosition set_stepDt
         set_velocityTimeInterval].
  rewrite (stepUp_no_contacts _ _ N).
  destruct (scanDown_cases world
              (set_verticalOffset
                 (verticalVelocity (updateFallVelocity dt s) * dt)
                 (updateFallVelocity dt s))) as [-> | [-> | ->]];
    reflexivity.
Qed.

(** A step changes neither speed limit. *)
Lemma playerStep_limits world dt s :
  maxFallSpeed (playerStep world dt s) = maxFallSpeed s /\
  jumpSpeed (playerStep world dt s) = jumpSpeed s.
Proof.
  unfold playerStep. destruct (enabled s); [|split; reflexivity].
  cbn [negb]. cbv zeta.
  cbn [maxFallSpeed jumpSpeed set_ghostOrigin set_ghostRotation].
  rewrite (proj1 (stepDown_frame _ _ _)).
  rewrite (proj1 (proj2 (stepDown_frame _ _ _))).
  match goal with
  | |- context [stepForward ?w ?m ?x] =>
      destruct (stepForward_frame w m x) as [c [t ->]]
  end.
  cbn [maxFallSpeed jumpSpeed set_currentPosition set_targetPosition
         set_stepDt set_velocityTimeInterval].
  rewrite (proj1 (stepUp_frame _ _)).
  rewrite (proj1 (proj2 (stepUp_frame _ _))).
  match goal with
  | |- context [scanDown ?w ?x] =>
      destruct (scanDown_cases w x) as [-> | [-> | ->]]
  end;
    cbn [maxFallSpeed jumpSpeed set_isHovering set_verticalOffset];
    split;
    first [ apply (proj1 (updateFallVelocity_frame dt s))
          | apply (proj1 (proj2 (updateFallVelocity_frame dt s))) ].
Qed.

(** A floor met by the downward ray at a hundredth of its length ends the
    hovering of the example controller, whatever its velocity. *)
Lemma scanDown_close_floor v o :
  isHovering
    (scanDown (floorBelowWorld (1 / 100))
       (set_verticalOffset o (set_verticalVelocity v exampleController)))
  = false.
Proof.
  unfold scanDown, scanDown_ray, floorBelowWorld.
  cbn [rayCandidates rayTest fold_left fst snd
         LocalRayResult.m_hitFraction ClosestRayResultCallback.init
         ClosestRayResultCallback.m_closestHitFraction].
  rewrite (proj2 (ltb_true (1 / 100) 1)) by lra.
  simpl.
  rewrite (proj2 (ltb_true _ _)) by lra.
  reflexivity.
Qed.

(** C5, as stated, fails: a controller falls at terminal velocity and
    hovers, the last scan having found no floor in range; a step of two
    seconds turns the velocity of -55 into -55 * (1 - 2) = 55 in the hover
    branch, unclamped; the scan of this step finds a floor close by and
    ends the hovering.  On return the controller is not hovering and its
    velocity of 55 exceeds [jumpSpeed = 5]. *)
Lemma playerStep_velocity_clamp_counterexample :
  let s := fallingController in
  let s' := playerStep (floorBelowWorld (1 / 100)) 2 s in
  enabled s = true /\ 0 <= 2 /\ 0 <= maxFallSpeed s /\ 0 <= jumpSpeed s /\
  - maxFallSpeed s <= verticalVelocity s <= jumpSpeed s /\
  isHovering s' = false /\
  jumpSpeed s' = 5 /\
  verticalVelocity s' = 55 /\
  ~ (- maxFallSpeed s' <= verticalVelocity s' <= jumpSpeed s').
Proof.
  cbv zeta.
  assert (V : verticalVelocity
                (playerStep (floorBelowWorld (1 / 100)) 2 fallingController)
              = 55).
  { rewrite playerStep_no_contacts by reflexivity.
    unfold updateFallVelocity. fields_eval. lra. }
  assert (J : jumpSpeed
                (playerStep (floorBelowWorld (1 / 100)) 2 fallingController)
              = 5).
  { rewrite (proj2 (playerStep_limits _ _ _)). fields_eval. reflexivity. }
  split; [reflexivity|].
  split; [lra|].
  split; [fields_eval; lra|].
  split; [fields_eval; lra|].
  split; [fields_eval; lra|].
  split.
  { rewrite playerStep_isHovering by reflexivity.
    unfold updateFallVelocity, fallingController.
    cbn [isHovering set_verticalVelocity exampleController].
    cbn [verticalVelocity set_verticalVelocity].
    match goal with
    | |- context [set_verticalOffset ?o (set_verticalVelocity ?v
                    (set_verticalVelocity _ exampleController))] =>
        change (set_verticalVelocity v
                  (set_verticalVelocity (- TERMINAL_VELOCITY) exampleController))
          with (set_verticalVelocity v exampleController);
        apply (scanDown_close_floor v o)
    end. }
  split; [exact J|]. split; [exact V|].
  rewrite V, J. lra.
Qed.

Lemma playerStep_velocity_clamp_witness :
  let s' := playerStep emptyWorld (1 / 60) droppingController in
  maxFallSpeed s' = maxFallSpeed droppingController /\
  jumpSpeed s' = jumpSpeed droppingController /\
  - maxFallSpeed s' <= verticalVelocity s' <= jumpSpeed s'.
Proof.
  apply (playerStep_velocity_clamp emptyWorld (1 / 60) droppingController).
  - reflexivity.
  - lra.
  - fields_eval. lra.
  - fields_eval. lra.
  - reflexivity.
Defined.

(** ** stepForward *)


Lemma lastSweep_none sweeps : lastSweep sweeps = None -> sweeps = [].
Proof.
  destruct sweeps as [|r rest]; [reflexivity|].
  cbn [lastSweep]. destruct (lastSweep rest); discriminate.
Qed.

Lemma forwardSweeps_nil maxIter start target :
  Vec3.length2 (target -v start) <= MIN_STEP_DISTANCE_SQUARED
  \/ maxIter = O ->
  forwardSweeps maxIter start target [].
Proof.
  intros H. unfold forwardSweeps.
  split; [cbn [length]; lia|].
  split; [constructor|].
  split; [discriminate|].
  split; [exact I|].
  split; [intros _; exact H|].
  discriminate.
Qed.

Lemma stepForward_loop_spec world maxIter :
  forall stepLength2 s,
    stepLength2 = Vec3.length2 (targetPosition s -v currentPosition s) ->
    forwardSweeps maxIter (currentPosition s) (targetPosition s)
      (snd (stepForward_loop world maxIter stepLength2 s)) /\
    forwardOutcome (currentPosition s) (targetPosition s)
      (snd (stepForward_loop world maxIter stepLength2 s))
      (fst (stepForward_loop world maxIter stepLength2 s)).
Proof.
  induction maxIter as [|n IH]; intros l2 s Hl2.
  - (* no iteration left *)
    assert (E : stepForward_loop world 0 l2 s = (s, []))
      by (cbn [stepForward_loop]; destruct (Scalar.gtb l2 _); reflexivity).
    rewrite E. cbn [fst snd]. split.
    + apply forwardSweeps_nil. now right.
    + split; reflexivity.
  - cbn [stepForward_loop].
    destruct (Scalar.gtb l2 MIN_STEP_DISTANCE_SQUARED) eqn:G;
      [apply gtb_true in G | apply gtb_false in G].
    2:{ (* the remaining step is too short *)
        cbn [fst snd]. split.
        - apply forwardSweeps_nil. left. rewrite <- Hl2. exact G.
        - split; reflexivity. }
    set (callback := stepForward_sweep world s).
    set (r0 := mkSweep (currentPosition s) (targetPosition s) callback).
    assert (R0 : sweepStart r0 = currentPosition s /\
                 MIN_STEP_DISTANCE_SQUARED < Vec3.length2 (remainingStep r0)).
    { split; [reflexivity|]. unfold remainingStep. cbn [r0 sweepStart sweepEnd].
      rewrite <- Hl2. exact G. }
    destruct (ClosestConvexResultCallback.hasHit callback) eqn:H.
    + (* hit: deflect and go on *)
      set (s1 := set_targetPosition (currentPosition s +v deflectedStep r0) s).
      change (set_targetPosition _ s) with s1.
      change (Vec3.length2 _) with (Vec3.length2 (deflectedStep r0)).
      assert (P : Vec3.length2 (deflectedStep r0)
                  = Vec3.length2 (targetPosition s1 -v currentPosition s1)).
      { cbn [s1 targetPosition currentPosition set_targetPosition].
        rewrite add_sub_cancel. reflexivity. }
      destruct (IH _ s1 P) as [FS FO].
      destruct (stepForward_loop world n (Vec3.length2 (deflectedStep r0)) s1)
        as [s' tr'].
      cbn [fst snd] in *.
      change (currentPosition s1) with (currentPosition s) in *.
      change (targetPosition s1)
        with (currentPosition s +v deflectedStep r0) in *.
      destruct FS as (Len & Starts & Head & Defl & Empty & Last).
      split.
      * split; [cbn [length]; lia|].
        split; [constructor; [exact R0 | exact Starts]|].
        split; [intros r rest [= <- _]; reflexivity|].
        split.
        { cbn [deflections]. split; [|exact Defl].
          destruct tr' as [|r' rest']; [exact I|].
          split; [exact H|]. split.
          - inversion Starts as [|? ? [St _] _]. exact St.
          - apply (Head r' rest'). reflexivity. }
        split; [discriminate|].
        intros r Lr Hr. cbn [lastSweep length] in *.
        destruct (lastSweep tr') as [r'|] eqn:Ltr.
        -- injection Lr as <-.
           destruct (Last r' eq_refl Hr) as [Short | Full];
             [now left | right; lia].
        -- injection Lr as <-. apply lastSweep_none in Ltr. subst tr'.
           destruct (Empty eq_refl) as [Short | ->]; [|now right].
           left. rewrite add_sub_cancel in Short. exact Short.
      * unfold forwardOutcome in *. cbn [lastSweep].
        destruct (lastSweep tr') as [r'|] eqn:Ltr.
        -- destruct (sweepHit r'); exact FO.
        -- unfold sweepHit. cbn [r0 sweepResult]. rewrite H. exact FO.
    + (* no hit: commit and stop *)
      cbn [fst snd]. split.
      * split; [cbn [length]; lia|].
        split; [constructor; [exact R0 | constructor]|].
        split; [intros r rest [= <- _]; reflexivity|].
        split; [cbn; auto|].
        split; [discriminate|].
        intros r [= <-] Hr. unfold sweepHit in Hr. cbn [r0 sweepResult] in Hr.
        congruence.
      * unfold forwardOutcome. cbn [lastSweep].
        unfold sweepHit. cbn [r0 sweepResult]. rewrite H.
        split; reflexivity.
Qed.

Lemma lastSweep_In sweeps r : lastSweep sweeps = Some r -> In r sweeps.
Proof.
  induction sweeps as [|r1 rest IH]; [discriminate|].
  cbn [lastSweep]. destruct (lastSweep rest) as [r'|].
  - intros [= <-]. right. apply IH. reflexivity.
  - intros [= <-]. now left.
Qed.

(** Only the last sweep of a run can have reported no hit. *)
Lemma deflections_miss_is_last sweeps r :
  deflections sweeps -> In r sweeps -> sweepHit r = false ->
  exists r', lastSweep sweeps = Some r' /\ sweepHit r' = false.
Proof.
  induction sweeps as [|r1 rest IH]; [intros _ []|].
  cbn [deflections lastSweep]. intros [D1 D] I Miss.
  destruct rest as [|r2 rest'].
  - destruct I as [<- | []]. exists r1. split; [reflexivity | exact Miss].
  - destruct D1 as (Hit1 & _).
    destruct I as [<- | I]; [congruence|].
    destruct (IH D I Miss) as [r' [L M]].
    exists r'. rewrite L. split; [reflexivity | exact M].
Qed.

(** A call of [stepForward], in terms of what its loop returns. *)
Lemma stepForward_sweeps_spec world movement s :
  exists s1 sweeps,
    stepForward_sweeps world movement s
    = (set_shapeMargin (shapeMargin s) s1, sweeps) /\
    shapeMargin s1 = shapeMargin s + addedMargin s /\
    forwardSweeps 10 (currentPosition s) (currentPosition s +v movement)
      sweeps /\
    forwardOutcome (currentPosition s) (currentPosition s +v movement)
      sweeps s1.
Proof.
  unfold stepForward_sweeps. cbv zeta.
  cbn [addedMargin shapeMargin targetPosition currentPosition
         set_targetPosition set_shapeMargin].
  match goal with
  | |- context [stepForward_loop world ?n ?l ?x] =>
      pose proof (stepForward_loop_spec world n l x eq_refl) as [FS FO];
      pose proof (stepForward_loop_frame world n l x) as [c [t Fr]];
      destruct (stepForward_loop world n l x) as [s1 tr]
  end.
  cbn [fst snd] in FS, FO, Fr.
  exists s1, tr. split; [reflexivity|].
  split; [rewrite Fr; reflexivity|].
  split; [exact FS | exact FO].
Qed.

(** Every sweep of the loop of [stepForward] is the one the engine makes
    in the world between the sweep's two ends, for the controller's ghost
    object and the margin the shape has during the loop. *)
Lemma stepForward_loop_results world maxIter :
  forall stepLength2 s,
    Forall
      (fun r =>
         sweepResult r
         = convexSweepTest
             (KinematicClosestNotMeConvexResultCallback.addSingleResult
                (ghostObject s) (sweepStart r -v sweepEnd r) 0)
             (sweepCandidates world (shapeMargin s) (sweepStart r)
                (sweepEnd r))
             ClosestConvexResultCallback.init)
      (snd (stepForward_loop world maxIter stepLength2 s)).
Proof.
  induction maxIter as [|n IH]; intros l2 s.
  - cbn [stepForward_loop]. destruct (Scalar.gtb l2 _); constructor.
  - cbn [stepForward_loop].
    destruct (Scalar.gtb l2 MIN_STEP_DISTANCE_SQUARED); [|constructor].
    destruct (ClosestConvexResultCallback.hasHit (stepForward_sweep world s)).
    + match goal with
      | |- context [stepForward_loop world n ?l ?x] =>
          pose proof (IH l x) as F;
          destruct (stepForward_loop world n l x) as [s' tr]
      end.
      cbn [fst snd] in *. constructor; [reflexivity | exact F].
    + cbn [snd]. constructor; [reflexivity | constructor].
Qed.

Lemma stepForward_sweeps_results world movement s :
  Forall
    (fun r =>
       sweepResult r
       = forwardSweepResult world s (sweepStart r) (sweepEnd r))
    (snd (stepForward_sweeps world movement s)).
Proof.
  unfold stepForward_sweeps. cbv zeta.
  match goal with
  | |- context [stepForward_loop world ?n ?l ?x] =>
      pose proof (stepForward_loop_results world n l x) as F;
      destruct (stepForward_loop world n l x) as [s1 tr]
  end.
  cbn [fst snd] in *. exact F.
Qed.

(** C6.  The sweeps of a call of [stepForward] that starts at
    [currentPosition] with the step [movement]: there are at most 10; each
    is the sweep the engine makes in the collision world between its two
    ends; each starts at [currentPosition], which therefore no hit has
    moved, with a remaining step whose squared length is above 1e-6; the
    first aims at [currentPosition + movement]; each sweep but the last
    reported a hit, with normal [n] and fraction [f], and the next one aims
    at [currentPosition + s + (s . n) (1 - f) n], [s] being the step that
    remained.  The controller ends at its target exactly when a sweep
    reported no hit, which is then the last sweep, and where it started
    when every sweep reported a hit, the target then being
    [currentPosition] plus the last deflected step.  The loop makes no
    sweep only when the squared length of [movement] is at most 1e-6, and
    none when it is below; after a hit it stops before its tenth sweep only
    when the squared length of the deflected step is at most 1e-6.  Nothing
    but the current and the target position is changed: the margin of the
    shape is restored. *)
Theorem stepForward_deflects (world : CollisionWorld) (movement : Vec3.t)
    (s : State) :
  let s' := stepForward world movement s in
  let sweeps := snd (stepForward_sweeps world movement s) in
  let start := currentPosition s in
  (length sweeps <= 10)%nat /\
  Forall
    (fun r =>
       sweepResult r
       = forwardSweepResult world s (sweepStart r) (sweepEnd r))
    sweeps /\
  Forall
    (fun r =>
       sweepStart r = start /\
       MIN_STEP_DISTANCE_SQUARED < Vec3.length2 (remainingStep r))
    sweeps /\
  (forall r rest, sweeps = r :: rest -> sweepEnd r = start +v movement) /\
  deflections sweeps /\
  forwardOutcome start (start +v movement) sweeps s' /\
  ((exists r, In r sweeps /\ sweepHit r = false) ->
   currentPosition s' = targetPosition s') /\
  ((forall r, In r sweeps -> sweepHit r = true) ->
   currentPosition s' = start) /\
  (sweeps = [] -> Vec3.length2 movement <= MIN_STEP_DISTANCE_SQUARED) /\
  (Vec3.length2 movement < MIN_STEP_DISTANCE_SQUARED -> sweeps = []) /\
  (forall r, lastSweep sweeps = Some r -> sweepHit r = true ->
     Vec3.length2 (deflectedStep r) <= MIN_STEP_DISTANCE_SQUARED
     \/ length sweeps = 10%nat) /\
  s' = set_currentPosition (currentPosition s')
         (set_targetPosition (targetPosition s') s) /\
  shapeMargin s' = shapeMargin s.
Proof.
  intros s' sweeps start.
  pose proof (stepForward_sweeps_results world movement s) as Res.
  fold sweeps in Res.
  assert (Fr : s' = set_currentPosition (currentPosition s')
                      (set_targetPosition (targetPosition s') s)).
  { unfold s'. destruct (stepForward_frame world movement s) as [c [t ->]].
    reflexivity. }
  revert Res Fr.
  destruct (stepForward_sweeps_spec world movement s)
    as (s1 & tr & E & Mg & FS & FO).
  unfold s', sweeps, stepForward. rewrite E. cbn [fst snd].
  intros Res Fr.
  fold start in FS, FO.
  destruct FS as (Len & Starts & Head & Defl & Empty & Last).
  assert (FO' : forwardOutcome start (start +v movement) tr
                  (set_shapeMargin (shapeMargin s) s1)).
  { unfold forwardOutcome in *. destruct (lastSweep tr) as [r|];
      [destruct (sweepHit r)|]; exact FO. }
  split; [exact Len|]. split; [exact Res|]. split; [exact Starts|].
  split; [exact Head|].
  split; [exact Defl|]. split; [exact FO'|].
  split; [|split; [|split; [|split; [|split; [|split]]]]].
  - intros [r [I Miss]].
    destruct (deflections_miss_is_last tr r Defl I Miss) as [r' [L M]].
    unfold forwardOutcome in FO'. rewrite L, M in FO'.
    destruct FO' as [-> ->]. reflexivity.
  - intros Hits. unfold forwardOutcome in FO'.
    destruct (lastSweep tr) as [r|] eqn:L.
    + rewrite (Hits r (lastSweep_In tr r L)) in FO'. apply FO'.
    + apply FO'.
  - intros Nil. destruct (Empty Nil) as [Short | Z]; [|discriminate].
    rewrite add_sub_cancel in Short. exact Short.
  - intros Short. destruct tr as [|r rest] eqn:T; [reflexivity|].
    exfalso. inversion Starts as [|? ? [St G] _]. subst.
    unfold remainingStep in G.
    rewrite (Head r rest eq_refl), St, add_sub_cancel in G. lra.
  - exact Last.
  - exact Fr.
  - reflexivity.
Qed.

(** ** preSimulation and postSimulation *)

Lemma maxStepLength_nonneg s : 0 <= stepDt s -> 0 <= maxStepLength s.
Proof.
  intros H. unfold maxStepLength. rewrite max_Rmax.
  apply Rmult_le_pos; [|exact H].
  eapply Rle_trans; [|apply Rmax_l]. lra.
Qed.

(** The position that [postSimulation] writes, and how far it lies from
    the recorded position. *)
Lemma throttledPosition_spec s :
  0 <= stepDt s ->
  let finalStep := ghostOrigin s -v lastPosition s in
  exists position,
    throttledPosition s = Some position /\
    Vec3.length (position -v lastPosition s) <= maxStepLength s /\
    (maxStepLength s < Vec3.length finalStep ->
     Vec3.length finalStep <> 0 /\
     position
     = lastPosition s
       +v (maxStepLength s / Vec3.length finalStep) *v finalStep /\
     Vec3.length (position -v lastPosition s) = maxStepLength s) /\
    (Vec3.length finalStep <= maxStepLength s -> position = ghostOrigin s).
Proof.
  intros Hdt finalStep. pose proof (maxStepLength_nonneg s Hdt) as M.
  unfold throttledPosition. fold finalStep.
  destruct (Scalar.gtb (Vec3.length finalStep) (maxStepLength s)) eqn:G;
    [apply gtb_true in G | apply gtb_false in G].
  - assert (N : Vec3.length finalStep <> 0) by lra.
    rewrite (div_some _ _ N).
    eexists. split; [reflexivity|].
    assert (L : Vec3.length
                  ((lastPosition s
                    +v (maxStepLength s / Vec3.length finalStep) *v finalStep)
                   -v lastPosition s)
                = maxStepLength s).
    { rewrite add_sub_cancel, length_scale.
      rewrite Rabs_pos_eq.
      - field. exact N.
      - apply Rmult_le_pos; [exact M|].
        apply Rlt_le, Rinv_0_lt_compat. lra. }
    split; [rewrite L; lra|].
    split; [intros _; auto|].
    intros Le. lra.
  - exists (ghostOrigin s). split; [reflexivity|].
    split; [exact G|]. split; [intros Lt; lra|]. reflexivity.
Qed.

(** C10 (amended).  For a [postSimulation] call on a controller whose
    accumulated step time [stepDt] is not negative, as it is when every
    [playerStep] since the preceding [preSimulation] was given a time step
    that is not negative: the position written to the avatar, before the
    rotated shape offset is subtracted, lies within
    [max(5, 2 |walkDirection + verticalVelocity currentUp|) stepDt] of the
    recorded position [lastPosition]; when the displacement of the ghost
    object exceeds that bound, it is the recorded position plus the
    displacement rescaled to exactly that bound, and otherwise it is the
    position of the ghost object; an enabled controller with a ghost object
    writes that position minus the rotated shape offset. *)
Theorem postSimulation_throttles (s : State) :
  0 <= stepDt s ->
  let finalStep := ghostOrigin s -v lastPosition s in
  exists position,
    throttledPosition s = Some position /\
    Vec3.length (position -v lastPosition s) <= maxStepLength s /\
    (maxStepLength s < Vec3.length finalStep ->
     position
     = lastPosition s
       +v (maxStepLength s / Vec3.length finalStep) *v finalStep /\
     Vec3.length (position -v lastPosition s) = maxStepLength s) /\
    (Vec3.length finalStep <= maxStepLength s -> position = ghostOrigin s) /\
    (enabled s = true -> hasGhostObject s = true ->
     forall avatarData,
       postSimulation s avatarData
       = Some (mkAvatarData (ghostRotation s)
                 (position
                  -v Quat.rotate (ghostRotation s) (shapeLocalOffset s))
                 (getVelocity avatarData))).
Proof.
  intros Hdt finalStep.
  destruct (throttledPosition_spec s Hdt) as (position & E & B & Far & Near).
  exists position. split; [exact E|]. split; [exact B|].
  split; [intros Lt; destruct (Far Lt) as (_ & P & L); auto|].
  split; [exact Near|].
  intros En Gh avatarData. unfold postSimulation. rewrite En, Gh, E.
  reflexivity.
Qed.

Lemma postSimulation_throttles_witness :
  exists position,
    throttledPosition (set_stepDt (1 / 60) rewoundController) = Some position /\
    Vec3.length
      (position -v lastPosition (set_stepDt (1 / 60) rewoundController))
    <= maxStepLength (set_stepDt (1 / 60) rewoundController).
Proof.
  destruct (postSimulation_throttles (set_stepDt (1 / 60) rewoundController))
    as (position & E & B & _).
  - simpl. lra.
  - exists position. split; [exact E | exact B].
Defined.

Lemma maxStepLength_rewound : maxStepLength rewoundController = -5.
Proof.
  unfold maxStepLength. simpl.
  replace (Vec3.mk 0 0 0 +v 0 *v Vec3.mk 0 1 0) with (Vec3.mk 0 0 0)
    by (apply vec_eq; simpl; lra).
  rewrite length_zero_vec. unfold Scalar.max. cmp_eval. lra.
Qed.

(** C10, as stated, fails: when the accumulated step time is negative, as
    after a [playerStep] with a negative time step, the bound
    [max(5, ...) stepDt] is negative.  Here it is -5, the ghost object has
    moved by one unit, and the position written lies at distance 5 from
    the recorded position, on the other side of it. *)
Lemma postSimulation_negative_stepDt_counterexample :
  enabled rewoundController = true /\
  hasGhostObject rewoundController = true /\
  stepDt rewoundController = -1 /\
  maxStepLength rewoundController = -5 /\
  throttledPosition rewoundController = Some (Vec3.mk (-5) (9 / 10) 0) /\
  Vec3.length (Vec3.mk (-5) (9 / 10) 0 -v lastPosition rewoundController) = 5 /\
  ~ (Vec3.length (Vec3.mk (-5) (9 / 10) 0 -v lastPosition rewoundController)
     <= maxStepLength rewoundController).
Proof.
  assert (F : ghostOrigin rewoundController -v lastPosition rewoundController
              = Vec3.mk 1 0 0) by (apply vec_eq; simpl; lra).
  assert (L : Vec3.length
                (Vec3.mk (-5) (9 / 10) 0 -v lastPosition rewoundController)
              = 5).
  { replace (Vec3.mk (-5) (9 / 10) 0 -v lastPosition rewoundController)
      with ((-5) *v Vec3.mk 1 0 0) by (apply vec_eq; simpl; lra).
    rewrite length_scale, length_unit_x, Rabs_left by lra. lra. }
  split; [reflexivity|]. split; [reflexivity|]. split; [reflexivity|].
  split; [exact maxStepLength_rewound|].
  split; [|split; [exact L|]].
  - unfold throttledPosition. rewrite F, length_unit_x, maxStepLength_rewound.
    rewrite (proj2 (gtb_true 1 (-5))) by lra.
    rewrite div_some by lra.
    f_equal. apply vec_eq; simpl; lra.
  - rewrite L, maxStepLength_rewound. lra.
Qed.

(** The accumulated step time is the sum of the time steps given to
    [playerStep] since [preSimulation] set it to 0. *)
Lemma playerStep_stepDt world dt s :
  stepDt (playerStep world dt s)
  = if enabled s then stepDt s + dt else stepDt s.
Proof.
  unfold playerStep. destruct (enabled s); [|reflexivity].
  cbn [negb]. cbv zeta. cbn [stepDt set_ghostOrigin set_ghostRotation].
  rewrite (proj1 (proj2 (proj2 (proj2 (stepDown_frame _ _ _))))).
  match goal with
  | |- context [stepForward ?w ?m ?x] =>
      destruct (stepForward_frame w m x) as [c [t ->]]
  end.
  cbn [stepDt set_currentPosition set_targetPosition set_stepDt
         set_velocityTimeInterval].
  rewrite (proj1 (proj2 (proj2 (proj2 (stepUp_frame _ _))))).
  match goal with
  | |- context [scanDown ?w ?x] =>
      destruct (scanDown_cases w x) as [-> | [-> | ->]]
  end;
    cbn [stepDt set_isHovering set_verticalOffset];
    rewrite (proj1 (proj2 (proj2 (proj2 (updateFallVelocity_frame dt s)))));
    reflexivity.
Qed.

Lemma playerStep_lastPosition world dt s :
  lastPosition (playerStep world dt s) = lastPosition s.
Proof.
  unfold playerStep. destruct (enabled s); [|reflexivity].
  cbn [negb]. cbv zeta. cbn [lastPosition set_ghostOrigin set_ghostRotation].
  rewrite (proj2 (proj2 (proj2 (proj2 (stepDown_frame _ _ _))))).
  match goal with
  | |- context [stepForward ?w ?m ?x] =>
      destruct (stepForward_frame w m x) as [c [t ->]]
  end.
  cbn [lastPosition set_currentPosition set_targetPosition set_stepDt
         set_velocityTimeInterval].
  rewrite (proj1 (proj2 (proj2 (proj2 (proj2 (stepUp_frame _ _)))))).
  match goal with
  | |- context [scanDown ?w ?x] =>
      destruct (scanDown_cases w x) as [-> | [-> | ->]]
  end;
    cbn [lastPosition set_isHovering set_verticalOffset];
    apply (proj2 (proj2 (proj2 (proj2 (updateFallVelocity_frame dt s))))).
Qed.

Lemma playerSteps_stepDt steps :
  forall s,
    Forall (fun step => 0 <= snd step) steps ->
    0 <= stepDt s ->
    0 <= stepDt (playerSteps steps s) /\
    lastPosition (playerSteps steps s) = lastPosition s.
Proof.
  induction steps as [|[w dt] steps IH]; intros s F H.
  - split; [exact H | reflexivity].
  - inversion F as [|? ? Hd Ft]; subst. cbn [snd] in Hd.
    unfold playerSteps. cbn [fold_left fst snd].
    fold (playerSteps steps (playerStep w dt s)).
    destruct (IH (playerStep w dt s) Ft) as [P L].
    + rewrite playerStep_stepDt. destruct (enabled s); lra.
    + split; [exact P|]. rewrite L. apply playerStep_lastPosition.
Qed.

Lemma setVelocityForTimeInterval_defined velocity timeInterval s :
  exists n,
    getNormalizedVector velocity = Some n /\
    setVelocityForTimeInterval velocity timeInterval s
    = Some (set_velocityTimeInterval (velocityTimeInterval s + timeInterval)
              (set_normalizedDirection n (set_walkDirection velocity s))).
Proof.
  unfold setVelocityForTimeInterval. cbn [walkDirection set_walkDirection].
  destruct (getNormalizedVector velocity) as [n|] eqn:E.
  - exists n. split; reflexivity.
  - exfalso. exact (getNormalizedVector_defined velocity E).
Qed.

(** [preSimulation] never fails; on an enabled, registered controller it
    records the position it gives to the ghost object and sets the
    accumulated step time to 0. *)
Lemma preSimulation_records avatarData timeStep s :
  exists s1,
    preSimulation avatarData timeStep s = Some s1 /\
    (enabled s = true -> isRegistered s = true ->
     stepDt s1 = 0 /\
     lastPosition s1
     = getPosition avatarData
       +v Quat.rotate (getOrientation avatarData) (shapeLocalOffset s) /\
     ghostOrigin s1 = lastPosition s1).
Proof.
  unfold preSimulation.
  destruct (enabled s && isRegistered s) eqn:C.
  2:{ exists s. split; [reflexivity|]. intros En Reg.
      rewrite En, Reg in C. discriminate. }
  match goal with
  | |- context [setVelocityForTimeInterval ?v ?t ?x] =>
      destruct (setVelocityForTimeInterval_defined v t x) as (n & _ & ->)
  end.
  eexists. split; [reflexivity|]. intros _ _.
  cbn [pendingFlags set_velocityTimeInterval set_normalizedDirection
         set_walkDirection set_ghostOrigin set_ghostRotation set_currentUp].
  destruct (to_bool _); [|repeat split].
  cbn [canJump isOnGround set_pendingFlags set_velocityTimeInterval
         set_normalizedDirection set_walkDirection set_ghostOrigin
         set_ghostRotation set_currentUp].
  destruct (isOnGround s); repeat split.
Qed.

(** A whole tick: [preSimulation], then [playerStep]s with time steps that
    are not negative, then [postSimulation].  The position written lies
    within the bound of the position that [preSimulation] recorded. *)
Lemma tick_throttles avatarData timeStep steps s :
  enabled s = true -> isRegistered s = true ->
  Forall (fun step => 0 <= snd step) steps ->
  exists s1 position,
    preSimulation avatarData timeStep s = Some s1 /\
    throttledPosition (playerSteps steps s1) = Some position /\
    Vec3.length
      (position
       -v (getPosition avatarData
           +v Quat.rotate (getOrientation avatarData) (shapeLocalOffset s)))
    <= maxStepLength (playerSteps steps s1).
Proof.
  intros En Reg F.
  destruct (preSimulation_records avatarData timeStep s) as (s1 & E & R).
  destruct (R En Reg) as (Z0 & L & _).
  assert (H0 : 0 <= stepDt s1) by lra.
  destruct (playerSteps_stepDt steps s1 F H0) as [P LP].
  destruct (throttledPosition_spec _ P) as (position & T & B & _).
  exists s1, position. split; [exact E|]. split; [exact T|].
  rewrite <- L, <- LP. exact B.
Qed.

(** ** The statements above at concrete inputs *)

Lemma scanDown_ray_floorBelow f :
  f < 1 ->
  ClosestRayResultCallback.hasHit
    (scanDown_ray (floorBelowWorld f) exampleController) = true /\
  ClosestRayResultCallback.m_closestHitFraction
    (scanDown_ray (floorBelowWorld f) exampleController) = f.
Proof.
  intros H. unfold scanDown_ray, floorBelowWorld.
  cbn [rayCandidates rayTest fold_left fst snd
         LocalRayResult.m_hitFraction ClosestRayResultCallback.init
         ClosestRayResultCallback.m_closestHitFraction].
  rewrite (proj2 (ltb_true f 1)) by exact H.
  split; reflexivity.
Qed.

Lemma scanDown_hover_hysteresis_witness :
  isHovering (scanDown emptyWorld droppingController) = true /\
  isHovering (scanDown (floorBelowWorld (1 / 100)) exampleController) = false /\
  scanDown (floorBelowWorld (1 / 2)) exampleController = exampleController.
Proof.
  split; [|split].
  - apply (proj1 (scanDown_hover_hysteresis emptyWorld droppingController)).
    reflexivity.
  - apply (proj1 (proj2 (scanDown_hover_hysteresis (floorBelowWorld (1 / 100))
                           exampleController))).
    + apply scanDown_ray_floorBelow. lra.
    + reflexivity.
    + rewrite (proj2 (scanDown_ray_floorBelow (1 / 100) ltac:(lra))).
      simpl. lra.
  - apply (proj2 (proj2 (scanDown_hover_hysteresis (floorBelowWorld (1 / 2))
                           exampleController))).
    + apply scanDown_ray_floorBelow. lra.
    + right. rewrite (proj2 (scanDown_ray_floorBelow (1 / 2) ltac:(lra))).
      simpl. lra.
Defined.

Lemma firstDownSweep_floorWorld :
  sweepHit (firstDownSweep floorWorld (1 / 60) droppingController) = true.
Proof.
  unfold sweepHit, firstDownSweep, downSweep, floorWorld.
  cbn [sweepResult sweepCandidates].
  rewrite convexSweepTest_cons. cbn [fst snd].
  cbn [LocalConvexResult.m_hitFraction
       ClosestConvexResultCallback.m_closestHitFraction
       ClosestConvexResultCallback.init].
  rewrite (proj2 (ltb_true (1 / 2) 1)) by lra.
  unfold StepDownConvexResultCallback.addSingleResult.
  cbn [LocalConvexResult.m_hitCollisionObject same_object sceneObject
       hasContactResponse objId ghostObject droppingController
       exampleController set_isHovering Nat.eqb negb].
  cbv zeta.
  cbn [LocalConvexResult.worldNormal LocalConvexResult.m_hitNormalLocal].
  assert (D : Vec3.dot (currentUp droppingController) (Vec3.mk 0 1 0) = 1)
    by (vsimpl; lra).
  rewrite D.
  assert (M : maxSlopeCosine droppingController = 7071 / 10000)
    by reflexivity.
  rewrite M.
  rewrite (proj2 (ltb_false 1 (7071 / 10000))) by lra.
  reflexivity.
Qed.

Lemma stepDown_ground_iff_hit_witness :
  isOnGround (stepDown floorWorld (1 / 60) droppingController) = true /\
  (isOnGround (stepDown emptyWorld (1 / 60) droppingController) = false /\
   lastStepUp (stepDown emptyWorld (1 / 60) droppingController) = 0).
Proof.
  split.
  - apply (proj1 (proj2 (proj2 (proj2
             (stepDown_ground_iff_hit floorWorld (1 / 60)
                droppingController))))).
    left. exact firstDownSweep_floorWorld.
  - apply (proj2 (proj2 (proj2 (proj2
             (stepDown_ground_iff_hit emptyWorld (1 / 60)
                droppingController))))).
    + intros r [<- | [<- | []]]; reflexivity.
    + reflexivity.
Defined.

Lemma jump_hold_to_hover_witness :
  isHovering (jump 500000 jumpingController) = true /\
  jumpToHoverStart (jump 500000 droppingController) = 500000%Z.
Proof.
  split.
  - apply (proj1 (jump_hold_to_hover 500000 jumpingController)).
    + reflexivity.
    + reflexivity.
    + simpl. lia.
    + lia.
    + simpl. unfold USECS_PER_SECOND. lia.
  - apply (proj2 (jump_hold_to_hover 500000 droppingController));
      reflexivity.
Defined.

Lemma setEnabled_off_on_witness :
  needsAddition (setEnabled true (setEnabled false exampleController)) = true /\
  needsRemoval (setEnabled true (setEnabled false exampleController)) = true.
Proof.
  destruct (setEnabled_off_on exampleController) as (A & R & _).
  - reflexivity.
  - reflexivity.
  - reflexivity.
  - reflexivity.
  - simpl. lia.
  - split; [exact A | exact R].
Defined.

Lemma stepForward_deflects_witness :
  currentPosition (stepForward emptyWorld (Vec3.mk 1 0 0) exampleController)
  = targetPosition (stepForward emptyWorld (Vec3.mk 1 0 0) exampleController)
  /\
  snd (stepForward_sweeps emptyWorld (Vec3.mk 0 0 0) exampleController) = [].
Proof.
  pose proof (stepForward_deflects emptyWorld (Vec3.mk 1 0 0)
                exampleController) as T.
  pose proof (stepForward_deflects emptyWorld (Vec3.mk 0 0 0)
                exampleController) as Z.
  cbv zeta in T, Z.
  destruct T as (_ & Res & _ & _ & _ & _ & Miss & _ & Nil & _).
  destruct Z as (_ & _ & _ & _ & _ & _ & _ & _ & _ & Short & _).
  split.
  - apply Miss.
    destruct (snd (stepForward_sweeps emptyWorld (Vec3.mk 1 0 0)
                     exampleController)) as [|r rest].
    + exfalso. specialize (Nil eq_refl).
      unfold Vec3.length2, Vec3.dot, MIN_STEP_DISTANCE_SQUARED in Nil.
      simpl in Nil. lra.
    + exists r. split; [now left|].
      inversion Res as [|? ? R0 _]. unfold sweepHit. rewrite R0.
      reflexivity.
  - apply Short.
    unfold Vec3.length2, Vec3.dot, MIN_STEP_DISTANCE_SQUARED. simpl. lra.
Defined.

(** * Further properties of the controller *)

(** ** The geometric helpers *)

Lemma dot_comm a b : Vec3.dot a b = Vec3.dot b a.
Proof. unfold Vec3.dot. ring. Qed.

Lemma length2_dot a : Vec3.length2 a = Vec3.dot a a.
Proof. reflexivity. Qed.

Lemma reflection_dot direction normal :
  Vec3.dot (computeReflectionDirection direction normal) normal
  = Vec3.dot direction normal * (1 - 2 * Vec3.length2 normal).
Proof.
  unfold computeReflectionDirection, Vec3.length2, Vec3.dot. simpl. ring.
Qed.

Lemma reflection_length2 direction normal :
  Vec3.length2 (computeReflectionDirection direction normal)
  = Vec3.length2 direction
    + 4 * (Vec3.dot direction normal) ^ 2 * (Vec3.length2 normal - 1).
Proof.
  unfold computeReflectionDirection, Vec3.length2, Vec3.dot. simpl. ring.
Qed.

Lemma perpendicular_dot direction normal :
  Vec3.dot (perpindicularComponent direction normal) normal
  = Vec3.dot direction normal * (1 - Vec3.length2 normal).
Proof.
  unfold perpindicularComponent, parallelComponent, Vec3.length2, Vec3.dot.
  simpl. ring.
Qed.

Lemma perpendicular_of_reflection direction normal :
  Vec3.length2 normal = 1 ->
  perpindicularComponent (computeReflectionDirection direction normal) normal
  = perpindicularComponent direction normal.
Proof.
  intros U.
  assert (E : forall k,
             k * (2 * Vec3.dot direction normal * (Vec3.length2 normal - 1))
             = 0).
  { intros k. rewrite U. ring. }
  unfold Vec3.length2 in E.
  apply vec_eq;
    unfold perpindicularComponent, parallelComponent,
      computeReflectionDirection, Vec3.dot in *; simpl in *.
  - pose proof (E (Vec3.x normal)). lra.
  - pose proof (E (Vec3.y normal)). lra.
  - pose proof (E (Vec3.z normal)). lra.
Qed.

(** X1.  [parallelComponent] and [perpindicularComponent] split a
    direction into two parts that add up to it; for a normal of length one
    the perpendicular part has no component along the normal, the parallel
    part has none across it (its own perpendicular part is zero), and the
    squared lengths of the two parts add up to that of the direction. *)
Theorem parallel_perpendicular_decomposition (direction normal : Vec3.t) :
  parallelComponent direction normal
  +v perpindicularComponent direction normal = direction /\
  (Vec3.length2 normal = 1 ->
   Vec3.dot (perpindicularComponent direction normal) normal = 0 /\
   perpindicularComponent (parallelComponent direction normal) normal
   = Vec3.mk 0 0 0 /\
   Vec3.length2 (parallelComponent direction normal)
   + Vec3.length2 (perpindicularComponent direction normal)
   = Vec3.length2 direction).
Proof.
  split.
  - unfold perpindicularComponent, parallelComponent. vec_ring.
  - intros U. split; [|split].
    + rewrite perpendicular_dot, U. ring.
    + assert (E : forall k,
                 k * (Vec3.dot direction normal * (Vec3.length2 normal - 1))
                 = 0) by (intros k; rewrite U; ring).
      unfold Vec3.length2 in E.
      apply vec_eq;
        unfold perpindicularComponent, parallelComponent, Vec3.dot in *;
        simpl in *.
      * pose proof (E (Vec3.x normal)). lra.
      * pose proof (E (Vec3.y normal)). lra.
      * pose proof (E (Vec3.z normal)). lra.
    + assert (E : Vec3.length2 (parallelComponent direction normal)
                  + Vec3.length2 (perpindicularComponent direction normal)
                  - Vec3.length2 direction
                  = (Vec3.dot direction normal) ^ 2
                    * (2 * Vec3.length2 normal - 2)).
      { unfold perpindicularComponent, parallelComponent, Vec3.length2,
          Vec3.dot. simpl. ring. }
      rewrite U in E. lra.
Qed.

Lemma parallel_perpendicular_decomposition_witness :
  Vec3.dot (perpindicularComponent (Vec3.mk 3 4 0) (Vec3.mk 1 0 0))
    (Vec3.mk 1 0 0) = 0.
Proof.
  apply (proj2 (parallel_perpendicular_decomposition (Vec3.mk 3 4 0)
                  (Vec3.mk 1 0 0))).
  unfold Vec3.length2, Vec3.dot. simpl. lra.
Defined.

(** X2.  For a normal of length one, [computeReflectionDirection] keeps
    the length of the direction, reverses its component along the normal,
    keeps its part across the normal, and applied twice gives the direction
    back. *)
Theorem reflection_is_isometric_involution (direction normal : Vec3.t) :
  Vec3.length2 normal = 1 ->
  Vec3.length (computeReflectionDirection direction normal)
  = Vec3.length direction /\
  Vec3.dot (computeReflectionDirection direction normal) normal
  = - Vec3.dot direction normal /\
  perpindicularComponent (computeReflectionDirection direction normal) normal
  = perpindicularComponent direction normal /\
  computeReflectionDirection (computeReflectionDirection direction normal)
    normal
  = direction.
Proof.
  intros U. split; [|split; [|split]].
  - unfold Vec3.length. rewrite reflection_length2, U. f_equal. ring.
  - rewrite reflection_dot, U. ring.
  - apply perpendicular_of_reflection. exact U.
  - assert (E : forall k,
               k * (4 * Vec3.dot direction normal * (Vec3.length2 normal - 1))
               = 0) by (intros k; rewrite U; ring).
    unfold Vec3.length2 in E.
    apply vec_eq; unfold computeReflectionDirection, Vec3.dot in *;
      simpl in *.
    + pose proof (E (Vec3.x normal)). lra.
    + pose proof (E (Vec3.y normal)). lra.
    + pose proof (E (Vec3.z normal)). lra.
Qed.

Lemma reflection_is_isometric_involution_witness :
  computeReflectionDirection
    (computeReflectionDirection (Vec3.mk 3 4 0) (Vec3.mk 1 0 0))
    (Vec3.mk 1 0 0)
  = Vec3.mk 3 4 0.
Proof.
  apply (reflection_is_isometric_involution (Vec3.mk 3 4 0) (Vec3.mk 1 0 0)).
  unfold Vec3.length2, Vec3.dot. simpl. lra.
Defined.

(** ** updateTargetPositionBasedOnCollision *)

Lemma length_sqr v : Vec3.length v * Vec3.length v = Vec3.length2 v.
Proof. unfold Vec3.length. apply sqrt_sqrt. apply length2_nonneg. Qed.

Lemma length2_scale k v : Vec3.length2 (k *v v) = k * k * Vec3.length2 v.
Proof. unfold Vec3.length2, Vec3.dot. simpl. ring. Qed.

Lemma scale_one v : (1 / 1) *v v = v.
Proof. destruct v. apply vec_eq; simpl; lra. Qed.

Lemma normalize_defined v :
  0 < Vec3.length v ->
  normalize v = Some ((1 / Vec3.length v) *v v) /\
  Vec3.length2 ((1 / Vec3.length v) *v v) = 1.
Proof.
  intros H. unfold normalize, Vec3.div_assign.
  rewrite div_some by lra. split; [reflexivity|].
  rewrite length2_scale, <- length_sqr. field. lra.
Qed.

Lemma normalize_unit v :
  Vec3.length2 v = 1 -> normalize v = Some ((1 / 1) *v v).
Proof.
  intros U.
  assert (L : Vec3.length v = 1) by (unfold Vec3.length; rewrite U; apply sqrt_1).
  unfold normalize, Vec3.div_assign. rewrite L, div_some by lra. reflexivity.
Qed.

(** X3.  [updateTargetPositionBasedOnCollision] with a hit normal of
    length one: when the movement from the current to the target position
    is longer than SIMD_EPSILON, the call succeeds, leaves the current
    position alone, and replaces the movement [m] by
    [normalMag (m - (m . n) n)], its part along the obstacle plane scaled
    by [normalMag], which has no component along the normal; [tangentMag]
    plays no role.  A movement of at most SIMD_EPSILON leaves the
    controller unchanged, whatever the normal. *)
Theorem updateTargetPosition_slides_along_plane (hitNormal : Vec3.t)
    (tangentMag normalMag : R) (s : State) :
  let m := targetPosition s -v currentPosition s in
  (Vec3.length m <= SIMD_EPSILON ->
   updateTargetPositionBasedOnCollision hitNormal tangentMag normalMag s
   = Some s) /\
  (Vec3.length2 hitNormal = 1 ->
   SIMD_EPSILON < Vec3.length m ->
   exists s',
     updateTargetPositionBasedOnCollision hitNormal tangentMag normalMag s
     = Some s' /\
     s' = set_targetPosition (targetPosition s') s /\
     targetPosition s'
     = currentPosition s
       +v normalMag *v (m -v Vec3.dot m hitNormal *v hitNormal) /\
     Vec3.dot (targetPosition s' -v currentPosition s') hitNormal = 0).
Proof.
  intros m. split.
  - intros H. unfold updateTargetPositionBasedOnCollision. fold m.
    rewrite (proj2 (gtb_false _ _)) by exact H. reflexivity.
  - intros U H. pose proof FLT_EPSILON_pos as P. unfold SIMD_EPSILON in H.
    assert (L : 0 < Vec3.length m) by lra.
    destruct (normalize_defined m L) as [N1 U1].
    set (d := (1 / Vec3.length m) *v m) in *.
    assert (U2 : Vec3.length2 (computeReflectionDirection d hitNormal) = 1)
      by (rewrite reflection_length2, U, U1; ring).
    pose proof (normalize_unit _ U2) as N2.
    assert (T : currentPosition s
                +v (normalMag * Vec3.length m)
                   *v perpindicularComponent
                        ((1 / 1) *v computeReflectionDirection d hitNormal)
                        hitNormal
                = currentPosition s
                  +v normalMag *v (m -v Vec3.dot m hitNormal *v hitNormal)).
    { rewrite scale_one.
      rewrite (perpendicular_of_reflection d hitNormal U).
      unfold d, perpindicularComponent, parallelComponent.
      apply vec_eq; unfold Vec3.dot; simpl; field; lra. }
    assert (D : forall k,
               Vec3.dot
                 ((currentPosition s
                   +v k *v (m -v Vec3.dot m hitNormal *v hitNormal))
                  -v currentPosition s) hitNormal = 0).
    { intros k. rewrite add_sub_cancel.
      assert (E : Vec3.dot (k *v (m -v Vec3.dot m hitNormal *v hitNormal))
                    hitNormal
                  = k * Vec3.dot m hitNormal * (1 - Vec3.length2 hitNormal))
        by (unfold Vec3.length2, Vec3.dot; simpl; ring).
      rewrite E, U. ring. }
    unfold updateTargetPositionBasedOnCollision. fold m.
    rewrite (proj2 (gtb_true _ _)) by (unfold SIMD_EPSILON; lra).
    rewrite N1. fold d. rewrite N2. cbv zeta.
    cbn [currentPosition targetPosition set_targetPosition].
    unfold Scalar.neqb. destruct (Req_dec_T normalMag 0) as [Z | NZ].
    + eexists. split; [reflexivity|].
      split; [reflexivity|].
      cbn [currentPosition targetPosition set_targetPosition].
      split.
      * subst normalMag. apply vec_eq; simpl; ring.
      * replace (currentPosition s -v currentPosition s)
          with (Vec3.mk 0 0 0) by (apply vec_eq; simpl; ring).
        unfold Vec3.dot. simpl. ring.
    + eexists. split; [reflexivity|].
      split; [reflexivity|].
      cbn [currentPosition targetPosition set_targetPosition].
      split; [exact T|]. rewrite T. apply D.
Qed.

Lemma updateTargetPosition_slides_along_plane_witness :
  updateTargetPositionBasedOnCollision (Vec3.mk 1 0 0) 0 1 exampleController
  = Some exampleController.
Proof.
  apply (proj1 (updateTargetPosition_slides_along_plane (Vec3.mk 1 0 0) 0 1
                  exampleController)).
  replace (targetPosition exampleController -v currentPosition exampleController)
    with (Vec3.mk 0 0 0) by (apply vec_eq; simpl; lra).
  rewrite length_zero_vec. apply Rlt_le. exact FLT_EPSILON_pos.
Defined.

(** ** What the sweeps of stepForward report *)

Lemma notMe_accepts_object me up minSlopeDot c nw :
  KinematicClosestNotMeConvexResultCallback.accepts me up minSlopeDot c nw
  = true ->
  same_object (LocalConvexResult.m_hitCollisionObject c) me = false /\
  hasContactResponse (LocalConvexResult.m_hitCollisionObject c) = true.
Proof.
  unfold KinematicClosestNotMeConvexResultCallback.accepts. intros H.
  apply andb_true_iff in H as [H _]. apply andb_true_iff in H as [H1 H2].
  apply negb_true_iff in H1. auto.
Qed.

Lemma stepForward_sweep_hit world s :
  forwardHit (ghostObject s)
    (mkSweep (currentPosition s) (targetPosition s)
       (stepForward_sweep world s)).
Proof.
  unfold forwardHit, sweepHit, remainingStep.
  cbn [sweepResult sweepStart sweepEnd]. intros H.
  pose proof (notMe_add_filters (ghostObject s)
                (currentPosition s -v targetPosition s) 0) as AF.
  unfold stepForward_sweep in *.
  destruct (sweep_result _ _ AF
              (sweepCandidates world (shapeMargin s) (currentPosition s)
                 (targetPosition s))
              ClosestConvexResultCallback.init)
    as [E | [c [I [A [Lt E]]]]];
    rewrite E in *; [discriminate|].
  cbn [fst ClosestConvexResultCallback.addSingleResult
         ClosestConvexResultCallback.m_closestHitFraction
         ClosestConvexResultCallback.m_hitNormalWorld
         ClosestConvexResultCallback.m_hitCollisionObject
         ClosestConvexResultCallback.init] in *.
  split; [exact Lt|]. split.
  - apply accepts_slope in A. revert A.
    generalize (LocalConvexResult.worldNormal (fst c) (snd c)). intros n.
    unfold Vec3.dot. simpl. lra.
  - eexists. split; [reflexivity|].
    apply (notMe_accepts_object _ _ _ _ _ A).
Qed.

Lemma stepForward_loop_hits world maxIter :
  forall stepLength2 s,
    Forall (forwardHit (ghostObject s))
      (snd (stepForward_loop world maxIter stepLength2 s)).
Proof.
  induction maxIter as [|n IH]; intros l2 s; cbn [stepForward_loop].
  - destruct (Scalar.gtb l2 _); constructor.
  - destruct (Scalar.gtb l2 _); [|constructor].
    destruct (ClosestConvexResultCallback.hasHit (stepForward_sweep world s)).
    + match goal with
      | |- context [stepForward_loop world n ?l ?x] =>
          pose proof (IH l x) as F;
          destruct (stepForward_loop world n l x) as [s' tr]
      end.
      cbn [snd] in *. constructor; [apply stepForward_sweep_hit | exact F].
    + cbn [snd]. constructor; [apply stepForward_sweep_hit | constructor].
Qed.

Lemma stepForward_sweeps_hits world movement s :
  Forall (forwardHit (ghostObject s))
    (snd (stepForward_sweeps world movement s)).
Proof.
  unfold stepForward_sweeps. cbv zeta.
  match goal with
  | |- context [stepForward_loop world ?n ?l ?x] =>
      pose proof (stepForward_loop_hits world n l x) as F;
      destruct (stepForward_loop world n l x) as [s1 tr]
  end.
  cbn [snd] in *. exact F.
Qed.

(** A deflection never shortens the step. *)
Lemma deflectedStep_grows r :
  ClosestConvexResultCallback.m_closestHitFraction (sweepResult r) <= 1 ->
  Vec3.length2 (remainingStep r) <= Vec3.length2 (deflectedStep r).
Proof.
  intros F. unfold deflectedStep.
  set (st := remainingStep r).
  set (n := ClosestConvexResultCallback.m_hitNormalWorld (sweepResult r)).
  set (f := ClosestConvexResultCallback.m_closestHitFraction (sweepResult r))
    in *.
  assert (E : Vec3.length2 (st +v (Vec3.dot st n * (1 - f)) *v n)
              = Vec3.length2 st
                + (Vec3.dot st n) ^ 2 * (1 - f)
                  * (2 + (1 - f) * Vec3.length2 n))
    by (unfold Vec3.length2, Vec3.dot; simpl; ring).
  rewrite E. pose proof (length2_nonneg n) as Pn.
  assert (0 <= (Vec3.dot st n) ^ 2) by (apply pow2_ge_0).
  assert (0 <= (1 - f) * Vec3.length2 n)
    by (apply Rmult_le_pos; [lra | exact Pn]).
  assert (0 <= (1 - f) * (2 + (1 - f) * Vec3.length2 n))
    by (apply Rmult_le_pos; lra).
  assert (0 <= (Vec3.dot st n) ^ 2
               * ((1 - f) * (2 + (1 - f) * Vec3.length2 n)))
    by (apply Rmult_le_pos; assumption).
  lra.
Qed.

(** X4.  The forward sweeps of [stepForward]: a sweep that reports a hit
    reports it before the end of the sweep, on an object that is not the
    ghost object and has contact response, with a normal along which the
    remaining step is not positive; the deflected step is then at least as
    long as the step that remained.  Hence a call ends in one of three
    ways: it made no sweep; or its last sweep hit nothing and the
    character is at the end of that sweep; or it made all 10 sweeps, every
    one reported a hit, and the character is where it started. *)
Theorem stepForward_hits_and_outcomes (world : CollisionWorld)
    (movement : Vec3.t) (s : State) :
  let s' := stepForward world movement s in
  let sweeps := snd (stepForward_sweeps world movement s) in
  Forall (forwardHit (ghostObject s)) sweeps /\
  (forall r, In r sweeps -> sweepHit r = true ->
     Vec3.length2 (remainingStep r) <= Vec3.length2 (deflectedStep r)) /\
  (sweeps = [] \/
   (exists r, lastSweep sweeps = Some r /\ sweepHit r = false /\
      currentPosition s' = sweepEnd r) \/
   (length sweeps = 10%nat /\
    (forall r, In r sweeps -> sweepHit r = true) /\
    currentPosition s' = currentPosition s)).
Proof.
  intros s' sweeps.
  pose proof (stepForward_sweeps_hits world movement s) as Hits.
  fold sweeps in Hits.
  assert (Grow : forall r, In r sweeps -> sweepHit r = true ->
                   Vec3.length2 (remainingStep r)
                   <= Vec3.length2 (deflectedStep r)).
  { intros r I H. apply deflectedStep_grows.
    rewrite Forall_forall in Hits. destruct (Hits r I H) as [Lt _]. lra. }
  split; [exact Hits|]. split; [exact Grow|].
  destruct (stepForward_sweeps_spec world movement s)
    as (s1 & tr & E & _ & FS & FO).
  unfold s', sweeps, stepForward in *. rewrite E in *. cbn [fst snd] in *.
  destruct FS as (Len & Starts & Head & Defl & Empty & Last).
  unfold forwardOutcome in FO.
  destruct (lastSweep tr) as [r|] eqn:L.
  2:{ left. apply lastSweep_none. exact L. }
  right. destruct (sweepHit r) eqn:H.
  - right.
    pose proof (lastSweep_In tr r L) as I.
    assert (Full : length tr = 10%nat).
    { destruct (Last r eq_refl H) as [Short | Full]; [|exact Full].
      exfalso. rewrite Forall_forall in Starts.
      destruct (Starts r I) as [_ G]. pose proof (Grow r I H). lra. }
    split; [exact Full|]. split; [|apply FO].
    intros r' I'. destruct (sweepHit r') eqn:H'; [reflexivity|].
    destruct (deflections_miss_is_last tr r' Defl I' H') as [r2 [L2 M2]].
    rewrite L in L2. injection L2 as <-. congruence.
  - left. exists r. split; [reflexivity|]. split; [exact H|]. apply FO.
Qed.

(** ** What stepUp does *)

(** X5.  [stepUp] always lifts the character by the whole [stepUpHeight]
    along the up axis and records [lastStepUp = stepUpHeight], whether or
    not the upward sweep hits: a hit that the callback records has
    normal . (-up) >= 0.7071, so its normal . up is never positive and the
    interpolating branch is not taken.  A hit zeroes the vertical velocity
    and offset; without a hit they are kept. *)
Theorem stepUp_rises_full_height (world : CollisionWorld) (s : State) :
  let s' := stepUp world s in
  let callback := stepUp_sweep world s in
  currentPosition s' = currentPosition s +v stepUpHeight s *v currentUp s /\
  targetPosition s' = currentPosition s' /\
  lastStepUp s' = stepUpHeight s /\
  (ClosestConvexResultCallback.hasHit callback = true ->
   Vec3.dot (ClosestConvexResultCallback.m_hitNormalWorld callback)
     (currentUp s) < 0 /\
   verticalVelocity s' = 0 /\ verticalOffset s' = 0) /\
  (ClosestConvexResultCallback.hasHit callback = false ->
   verticalVelocity s' = verticalVelocity s /\
   verticalOffset s' = verticalOffset s).
Proof.
  cbv zeta. unfold stepUp.
  destruct (ClosestConvexResultCallback.hasHit (stepUp_sweep world s)) eqn:H.
  - pose proof (stepUp_hit_faces_down world s H) as F.
    cbn [currentUp set_targetPosition set_verticalVelocity
           set_verticalOffset].
    rewrite (proj2 (gtb_false _ 0)) by lra.
    split; [reflexivity|]. split; [reflexivity|]. split; [reflexivity|].
    split; [|discriminate].
    intros _. split; [lra|]. split; reflexivity.
  - split; [reflexivity|]. split; [reflexivity|]. split; [reflexivity|].
    split; [discriminate|]. intros _. split; reflexivity.
Qed.

(** ** The downward ray of scanDown *)

Lemma rayTest_cons add c cs cb :
  rayTest add (c :: cs) cb
  = rayTest add cs
      (if Scalar.ltb (LocalRayResult.m_hitFraction (fst c))
                     (ClosestRayResultCallback.m_closestHitFraction cb)
       then fst (add cb (fst c) (snd c)) else cb).
Proof. reflexivity. Qed.

Lemma recorded_ray cb c nw :
  ClosestRayResultCallback.m_closestHitFraction
    (fst (ClosestRayResultCallback.addSingleResult cb c nw))
  = LocalRayResult.m_hitFraction c /\
  ClosestRayResultCallback.m_collisionObject
    (fst (ClosestRayResultCallback.addSingleResult cb c nw))
  = Some (LocalRayResult.m_collisionObject c).
Proof. split; reflexivity. Qed.

Lemma notMeRay_add me cb c nw :
  KinematicClosestNotMeRayResultCallback.addSingleResult me cb c nw
  = if same_object (LocalRayResult.m_collisionObject c) me then (cb, 1)
    else ClosestRayResultCallback.addSingleResult cb c nw.
Proof. reflexivity. Qed.

Section NotMeRay.

Variable me : option nat.

Let other (c : LocalRayResult.t * bool) : bool :=
  negb (same_object (LocalRayResult.m_collisionObject (fst c)) me).

Let test :=
  rayTest (KinematicClosestNotMeRayResultCallback.addSingleResult me).

(** The closest fraction only decreases, and ends no farther than any
    candidate on another object. *)
Lemma ray_closest candidates cb :
  ClosestRayResultCallback.m_closestHitFraction (test candidates cb)
  <= ClosestRayResultCallback.m_closestHitFraction cb /\
  forall c, In c candidates -> other c = true ->
    ClosestRayResultCallback.m_closestHitFraction (test candidates cb)
    <= LocalRayResult.m_hitFraction (fst c).
Proof.
  unfold test. revert cb. induction candidates as [|c cs IH]; intros cb.
  - split; [cbn; lra | intros ? []].
  - rewrite rayTest_cons, notMeRay_add.
    destruct (Scalar.ltb _ _) eqn:L;
      [apply ltb_true in L | apply ltb_false in L].
    + destruct (same_object _ me) eqn:S.
      * cbn [fst]. destruct (IH cb) as [M F]. split; [exact M|].
        intros c' [<- | I] O; [|exact (F c' I O)].
        unfold other in O. rewrite S in O. discriminate.
      * match goal with
        | |- context [rayTest _ cs ?x] => destruct (IH x) as [M F]
        end.
        rewrite (proj1 (recorded_ray _ _ _)) in M.
        split; [lra|].
        intros c' [<- | I] O; [exact M | exact (F c' I O)].
    + destruct (IH cb) as [M F]. split; [exact M|].
      intros c' [<- | I] O; [lra | exact (F c' I O)].
Qed.

(** After the ray test the callback is as before, or holds the object and
    fraction of a candidate on another object, nearer than before. *)
Lemma ray_result candidates cb :
  test candidates cb = cb \/
  exists c, In c candidates /\ other c = true /\
    LocalRayResult.m_hitFraction (fst c)
    < ClosestRayResultCallback.m_closestHitFraction cb /\
    ClosestRayResultCallback.m_collisionObject (test candidates cb)
    = Some (LocalRayResult.m_collisionObject (fst c)) /\
    ClosestRayResultCallback.m_closestHitFraction (test candidates cb)
    = LocalRayResult.m_hitFraction (fst c).
Proof.
  unfold test. revert cb. induction candidates as [|c cs IH]; intros cb.
  - now left.
  - rewrite rayTest_cons, notMeRay_add.
    destruct (Scalar.ltb _ _) eqn:L;
      [apply ltb_true in L | apply ltb_false in L].
    + destruct (same_object _ me) eqn:S.
      * cbn [fst]. destruct (IH cb) as [E | (c' & I & O & Lt & Ob & Fr)].
        -- now left.
        -- right. exists c'. split; [now right|]. auto.
      * match goal with
        | |- context [rayTest _ cs ?x] =>
            destruct (IH x) as [E | (c' & I & O & Lt & Ob & Fr)]
        end.
        -- right. exists c. split; [now left|].
           split; [unfold other; rewrite S; reflexivity|].
           split; [exact L|]. rewrite E. apply and_comm, recorded_ray.
        -- right. exists c'. split; [now right|]. split; [exact O|].
           rewrite (proj1 (recorded_ray _ _ _)) in Lt.
           split; [lra|]. split; [exact Ob | exact Fr].
    + destruct (IH cb) as [E | (c' & I & O & Lt & Ob & Fr)].
      * now left.
      * right. exists c'. split; [now right|]. auto.
Qed.

End NotMeRay.

(** X6.  The downward ray of [scanDown] never reports the ghost object
    itself: it reports a hit exactly when a candidate on another object
    lies before the end of the ray; the object it reports is then not the
    ghost object, its fraction is below 1 and no larger than that of any
    candidate on another object.  [scanDown] changes no member but the
    hover flag. *)
Theorem scanDown_ray_skips_ghost (world : CollisionWorld) (s : State) :
  let callback := scanDown_ray world s in
  (ClosestRayResultCallback.hasHit callback = true <->
   exists c, In c (scanDown_candidates world s) /\ notGhost s c = true /\
     LocalRayResult.m_hitFraction (fst c) < 1) /\
  (ClosestRayResultCallback.hasHit callback = true ->
   ClosestRayResultCallback.m_closestHitFraction callback < 1 /\
   exists obj,
     ClosestRayResultCallback.m_collisionObject callback = Some obj /\
     same_object obj (ghostObject s) = false) /\
  (forall c, In c (scanDown_candidates world s) -> notGhost s c = true ->
     ClosestRayResultCallback.m_closestHitFraction callback
     <= LocalRayResult.m_hitFraction (fst c)) /\
  scanDown world s = set_isHovering (isHovering (scanDown world s)) s.
Proof.
  intros callback.
  pose proof (ray_result (ghostObject s) (scanDown_candidates world s)
                (ClosestRayResultCallback.init (Vec3.mk 0 0 0) (Vec3.mk 0 0 0)))
    as R.
  pose proof (ray_closest (ghostObject s) (scanDown_candidates world s)
                (ClosestRayResultCallback.init (Vec3.mk 0 0 0) (Vec3.mk 0 0 0)))
    as [_ C].
  change (rayTest
            (KinematicClosestNotMeRayResultCallback.addSingleResult
               (ghostObject s))
            (scanDown_candidates world s)
            (ClosestRayResultCallback.init (Vec3.mk 0 0 0) (Vec3.mk 0 0 0)))
    with callback in R, C.
  split; [|split; [|split]].
  - split.
    + intros H. destruct R as [E | (c & I & O & Lt & _)].
      * rewrite E in H. discriminate.
      * exists c. auto.
    + intros (c & I & O & Lt). destruct R as [E | (c' & _ & _ & _ & Ob & _)].
      * specialize (C c I O). rewrite E in C. cbn in C. lra.
      * unfold ClosestRayResultCallback.hasHit. rewrite Ob. reflexivity.
  - intros H. destruct R as [E | (c & I & O & Lt & Ob & Fr)].
    + rewrite E in H. discriminate.
    + split; [rewrite Fr; exact Lt|]. eexists. split; [exact Ob|].
      unfold notGhost in O. apply negb_true_iff in O. exact O.
  - exact C.
  - destruct (scanDown_cases world s) as [E | [E | E]]; rewrite E;
      destruct s; reflexivity.
Qed.

(** ** The sweeps of stepDown *)

Lemma stepDown_add_filters me up start step push minSlopeDot radius0
    halfHeight0 cb c nw :
  StepDownConvexResultCallback.addSingleResult me up start step push
    minSlopeDot radius0 halfHeight0 cb c nw
  = if StepDownAccepts.accepts me up start step push minSlopeDot radius0
         halfHeight0 c nw
    then ClosestConvexResultCallback.addSingleResult cb c nw
    else (cb, 1).
Proof.
  unfold StepDownConvexResultCallback.addSingleResult,
    StepDownAccepts.accepts.
  destruct (same_object _ me); [reflexivity|].
  destruct (hasContactResponse _); [|reflexivity].
  cbn [negb andb].
  destruct (Scalar.ltb _ minSlopeDot); [|reflexivity].
  destruct (Scalar.gtb _ 0); [reflexivity|].
  cbn [negb andb]. destruct (Vec3.angle_gtb _ _); reflexivity.
Qed.

Lemma stepDown_accepts_object me up start step push minSlopeDot radius0
    halfHeight0 c nw :
  StepDownAccepts.accepts me up start step push minSlopeDot radius0
    halfHeight0 c nw = true ->
  same_object (LocalConvexResult.m_hitCollisionObject c) me = false /\
  hasContactResponse (LocalConvexResult.m_hitCollisionObject c) = true.
Proof.
  unfold StepDownAccepts.accepts. intros H.
  apply andb_true_iff in H as [H _]. apply andb_true_iff in H as [H1 H2].
  apply negb_true_iff in H1. auto.
Qed.

Lemma stepDown_sweep_hit me up start step push minSlopeDot radius0
    halfHeight0 candidates from to :
  downHit me
    (mkSweep from to
       (convexSweepTest
          (StepDownConvexResultCallback.addSingleResult me up start step push
             minSlopeDot radius0 halfHeight0)
          candidates ClosestConvexResultCallback.init)).
Proof.
  unfold downHit, sweepHit. cbn [sweepResult]. intros H.
  pose proof (stepDown_add_filters me up start step push minSlopeDot radius0
                halfHeight0) as AF.
  destruct (sweep_result _ _ AF candidates ClosestConvexResultCallback.init)
    as [E | [c [I [A [Lt E]]]]];
    rewrite E in *; [discriminate|].
  cbn [fst ClosestConvexResultCallback.addSingleResult
         ClosestConvexResultCallback.m_closestHitFraction
         ClosestConvexResultCallback.m_hitCollisionObject
         ClosestConvexResultCallback.init] in *.
  split; [exact Lt|]. eexists. split; [reflexivity|].
  apply (stepDown_accepts_object _ _ _ _ _ _ _ _ _ _ A).
Qed.

(** X7.  The callback of [stepDown]: every hit that a downward sweep
    reports lies before the end of the sweep, on an object that is not the
    ghost object and has contact response.  A contact on such an object
    whose normal is walkable (up . normal >= minSlopeDot) is always
    recorded; a steep contact that pushes along the walk direction
    (normal . pushDirection > 0) never is, and neither is a contact on the
    ghost object or on an object without contact response. *)
Theorem stepDown_callback_filter (world : CollisionWorld) (dt : R) (s : State) :
  Forall (downHit (ghostObject s)) (snd (stepDown_sweeps world dt s)) /\
  (forall me up start step push minSlopeDot radius0 halfHeight0 cb c nw,
     let add :=
       StepDownConvexResultCallback.addSingleResult me up start step push
         minSlopeDot radius0 halfHeight0 in
     let obj := LocalConvexResult.m_hitCollisionObject c in
     let n := LocalConvexResult.worldNormal c nw in
     (same_object obj me = false -> hasContactResponse obj = true ->
      minSlopeDot <= Vec3.dot up n ->
      add cb c nw = ClosestConvexResultCallback.addSingleResult cb c nw) /\
     (Vec3.dot up n < minSlopeDot -> 0 < Vec3.dot n push ->
      add cb c nw = (cb, 1)) /\
     (same_object obj me = true \/ hasContactResponse obj = false ->
      add cb c nw = (cb, 1))).
Proof.
  split.
  - unfold stepDown_sweeps. cbv zeta.
    repeat match goal with
    | |- context [if ?c then _ else _] => destruct c
    end; cbn [snd];
      repeat (constructor; [apply stepDown_sweep_hit|]); constructor.
  - intros me up start step push minSlopeDot radius0 halfHeight0 cb c nw
      add obj n.
    unfold add, StepDownConvexResultCallback.addSingleResult. fold obj n.
    split; [|split].
    + intros S R W. rewrite S, R. cbn [negb].
      rewrite (proj2 (ltb_false _ _)) by exact W. reflexivity.
    + intros W P. destruct (same_object obj me); [reflexivity|].
      destruct (negb (hasContactResponse obj)); [reflexivity|].
      rewrite (proj2 (ltb_true _ _)) by exact W.
      rewrite (proj2 (gtb_true _ _)) by exact P. reflexivity.
    + intros [S | R].
      * rewrite S. reflexivity.
      * destruct (same_object obj me); [reflexivity|]. rewrite R. reflexivity.
Qed.

Lemma along_up c f a u : c +v f *v (a *v u) = c +v (f * a) *v u.
Proof. apply vec_eq; simpl; ring. Qed.

Lemma along_up_twice c f a b u :
  c +v a *v u +v f *v (b *v u) = c +v (a + f * b) *v u.
Proof. apply vec_eq; simpl; ring. Qed.

Ltac down_fields :=
  cbn [currentPosition targetPosition currentUp verticalVelocity
         verticalOffset isJumping isOnGround lastStepUp stepDownHeight
         set_currentPosition set_targetPosition set_verticalVelocity
         set_verticalOffset set_isJumping set_isOnGround set_lastStepUp].

(** X8.  [stepDown] moves the character along the up axis only.  When it
    leaves the character on the ground, the vertical velocity and offset
    are 0 and the character is not jumping.  When it leaves the character
    in the air, the character is at the end of the first sweep, that is
    moved by [(verticalVelocity dt - lastStepUp) up], its vertical velocity
    and its jumping flag are as before, and [lastStepUp] is reset to 0
    unless it is jumping. *)
Theorem stepDown_motion (world : CollisionWorld) (dt : R) (s : State) :
  let s' := stepDown world dt s in
  (exists k, currentPosition s' = currentPosition s +v k *v currentUp s) /\
  (isOnGround s' = true ->
   verticalVelocity s' = 0 /\ verticalOffset s' = 0 /\ isJumping s' = false) /\
  (isOnGround s' = false ->
   currentPosition s'
   = currentPosition s
     +v (verticalVelocity s * dt - lastStepUp s) *v currentUp s /\
   verticalVelocity s' = verticalVelocity s /\
   isJumping s' = isJumping s /\
   lastStepUp s' = (if isJumping s then lastStepUp s else 0)).
Proof.
  unfold stepDown, stepDown_sweeps. cbv zeta.
  match goal with
  | |- context [if ClosestConvexResultCallback.hasHit ?c then _ else _] =>
      destruct (ClosestConvexResultCallback.hasHit c) eqn:H1
  end.
  - cbn [fst]. split; [|split].
    + eexists. down_fields. apply along_up.
    + intros _. repeat split.
    + cbn. discriminate.
  - cbn [isJumping set_isOnGround set_targetPosition].
    destruct (isJumping s) eqn:J; cbn [negb].
    + cbn [fst]. split; [|split].
      * eexists. down_fields. reflexivity.
      * cbn. discriminate.
      * intros _. down_fields. rewrite J. repeat split.
    + match goal with
      | |- context [if ClosestConvexResultCallback.hasHit ?c then _ else _] =>
          destruct (ClosestConvexResultCallback.hasHit c) eqn:H2
      end.
      * cbn [fst]. split; [|split].
        -- eexists. down_fields. apply along_up_twice.
        -- intros _. repeat split.
        -- cbn. discriminate.
      * cbn [fst]. split; [|split].
        -- eexists. down_fields. reflexivity.
        -- cbn. discriminate.
        -- intros _. down_fields. rewrite J. repeat split.
Qed.

(** ** playerStep: bookkeeping and invariants *)

Lemma stepDown_frame_more world dt s :
  ghostRotation (stepDown world dt s) = ghostRotation s /\
  velocityTimeInterval (stepDown world dt s) = velocityTimeInterval s /\
  walkDirection (stepDown world dt s) = walkDirection s /\
  enabled (stepDown world dt s) = enabled s.
Proof.
  unfold stepDown, stepDown_sweeps. cbv zeta.
  repeat match goal with
  | |- context [if ?c then _ else _] => destruct c
  end; repeat split.
Qed.

Lemma stepUp_frame_more world s :
  ghostRotation (stepUp world s) = ghostRotation s /\
  enabled (stepUp world s) = enabled s.
Proof.
  unfold stepUp.
  repeat match goal with
  | |- context [if ?c then _ else _] => destruct c
  end; repeat split.
Qed.

Lemma updateFallVelocity_frame_more dt s :
  ghostRotation (updateFallVelocity dt s) = ghostRotation s /\
  velocityTimeInterval (updateFallVelocity dt s) = velocityTimeInterval s /\
  walkDirection (updateFallVelocity dt s) = walkDirection s /\
  enabled (updateFallVelocity dt s) = enabled s.
Proof.
  unfold updateFallVelocity.
  destruct (isHovering s); [repeat split|].
  cbn [verticalVelocity jumpSpeed maxFallSpeed set_verticalVelocity].
  repeat case_cmp; repeat split.
Qed.

Lemma stepDown_grounded world dt s :
  isOnGround (stepDown world dt s) = true ->
  verticalVelocity (stepDown world dt s) = 0 /\
  verticalOffset (stepDown world dt s) = 0 /\
  isJumping (stepDown world dt s) = false.
Proof.
  unfold stepDown, stepDown_sweeps. cbv zeta.
  repeat match goal with
  | |- context [if ?c then _ else _] => destruct c
  end; cbn; intros H; repeat split; discriminate.
Qed.

(** The controller just before the last phase of an enabled [playerStep],
    and what the step leaves of it. *)
Lemma playerStep_enabled world dt s :
  enabled s = true ->
  exists s4,
    playerStep world dt s
    = set_ghostOrigin (currentPosition (stepDown world dt s4))
        (set_ghostRotation (ghostRotation s) (stepDown world dt s4)) /\
    stepDt s4 = stepDt s + dt /\
    velocityTimeInterval s4 = velocityTimeInterval s - dt /\
    walkDirection s4 = walkDirection s /\
    enabled s4 = true.
Proof.
  intros En. unfold playerStep. rewrite En. cbn [negb]. cbv zeta.
  cbn [ghostRotation set_verticalOffset].
  rewrite (proj1 (updateFallVelocity_frame_more dt s)).
  eexists. split; [reflexivity|].
  match goal with
  | |- context [stepForward ?w ?m ?x] =>
      destruct (stepForward_frame w m x) as [c [t ->]]
  end.
  cbn [stepDt velocityTimeInterval walkDirection enabled set_currentPosition
         set_targetPosition set_stepDt set_velocityTimeInterval].
  destruct (stepUp_frame world
              (scanDown world
                 (set_verticalOffset
                    (verticalVelocity (updateFallVelocity dt s) * dt)
                    (updateFallVelocity dt s))))
    as (_ & _ & _ & -> & _ & -> & -> & _).
  rewrite (proj2 (stepUp_frame_more _ _)).
  destruct (updateFallVelocity_frame dt s) as (_ & _ & _ & D & _).
  destruct (updateFallVelocity_frame_more dt s) as (_ & V & W & E).
  destruct (scanDown_cases world
              (set_verticalOffset
                 (verticalVelocity (updateFallVelocity dt s) * dt)
                 (updateFallVelocity dt s))) as [-> | [-> | ->]];
    cbn [stepDt velocityTimeInterval walkDirection enabled set_isHovering
           set_verticalOffset];
    rewrite D, V, W, E, En; repeat split.
Qed.

(** X9.  [playerStep] on a disabled controller does nothing.  On an
    enabled controller it leaves the ghost object at the current position
    with its rotation as before, adds [dt] to the accumulated step time,
    takes [dt] off the pending velocity interval, keeps the walk direction
    and the recorded last position, and when it leaves the character on
    the ground the vertical velocity and offset are 0 and the character is
    not jumping. *)
Theorem playerStep_bookkeeping (world : CollisionWorld) (dt : R) (s : State) :
  let s' := playerStep world dt s in
  (enabled s = false -> s' = s) /\
  (enabled s = true ->
   ghostOrigin s' = currentPosition s' /\
   ghostRotation s' = ghostRotation s /\
   stepDt s' = stepDt s + dt /\
   velocityTimeInterval s' = velocityTimeInterval s - dt /\
   walkDirection s' = walkDirection s /\
   lastPosition s' = lastPosition s /\
   enabled s' = true /\
   (isOnGround s' = true ->
    verticalVelocity s' = 0 /\ verticalOffset s' = 0 /\
    isJumping s' = false)).
Proof.
  cbv zeta. split.
  - intros En. unfold playerStep. rewrite En. reflexivity.
  - intros En.
    pose proof (playerStep_lastPosition world dt s) as LP.
    destruct (playerStep_enabled world dt s En) as (s4 & E & D & V & W & E4).
    rewrite E in *.
    cbn [ghostOrigin ghostRotation currentPosition stepDt
           velocityTimeInterval walkDirection lastPosition enabled isOnGround
           verticalVelocity verticalOffset isJumping set_ghostOrigin
           set_ghostRotation] in *.
    destruct (stepDown_frame world dt s4) as (_ & _ & _ & -> & _).
    destruct (stepDown_frame_more world dt s4) as (_ & -> & -> & ->).
    split; [reflexivity|]. split; [reflexivity|]. split; [exact D|].
    split; [exact V|]. split; [exact W|]. split; [exact LP|].
    split; [exact E4|]. apply stepDown_grounded.
Qed.

Lemma playerStep_bookkeeping_witness :
  stepDt (playerStep emptyWorld (1 / 60) exampleController)
  = stepDt exampleController + 1 / 60.
Proof.
  apply (proj2 (playerStep_bookkeeping emptyWorld (1 / 60) exampleController)).
  reflexivity.
Defined.

Lemma clamped_playerStep m j world dt s :
  0 <= dt <= 1 -> 0 <= m -> 0 <= j ->
  clamped m j s -> clamped m j (playerStep world dt s).
Proof.
  intros Hdt Hm Hj C.
  destruct (enabled s) eqn:En.
  2:{ unfold playerStep. rewrite En. exact C. }
  apply playerStep_keeps_clamped; [exact En | exact Hm | exact Hj|].
  destruct C as (M & J & V).
  destruct (updateFallVelocity_frame dt s) as (M' & J' & _).
  split; [congruence|]. split; [congruence|].
  destruct (isHovering s) eqn:Hov.
  - rewrite <- M, <- J. apply updateFallVelocity_relaxes; try assumption;
      rewrite ?M, ?J; assumption.
  - rewrite <- M, <- J. apply updateFallVelocity_clamps; try assumption;
      rewrite ?M, ?J; assumption.
Qed.

(** X10.  With speed limits that are not negative and time steps between 0
    and 1 second, a vertical velocity within [-maxFallSpeed, +jumpSpeed]
    stays within it over any run of [playerStep]s, hovering or not, in any
    worlds; the limits themselves are not changed. *)
Theorem playerSteps_keep_velocity_clamped
    (steps : list (CollisionWorld * R)) (s : State) :
  Forall (fun step => 0 <= snd step <= 1) steps ->
  0 <= maxFallSpeed s ->
  0 <= jumpSpeed s ->
  - maxFallSpeed s <= verticalVelocity s <= jumpSpeed s ->
  let s' := playerSteps steps s in
  maxFallSpeed s' = maxFallSpeed s /\
  jumpSpeed s' = jumpSpeed s /\
  - maxFallSpeed s <= verticalVelocity s' <= jumpSpeed s.
Proof.
  intros F Hm Hj V.
  assert (C : clamped (maxFallSpeed s) (jumpSpeed s) s)
    by (split; [reflexivity|]; split; [reflexivity | exact V]).
  revert C. generalize (maxFallSpeed s) (jumpSpeed s) Hm Hj.
  clear Hm Hj V. revert s.
  induction steps as [|[w dt] steps IH]; intros s m j Hm Hj C; cbv zeta.
  - exact C.
  - inversion F as [|? ? Hd Ft]; subst. cbn [snd] in Hd.
    unfold playerSteps. cbn [fold_left fst snd].
    apply (IH Ft (playerStep w dt s) m j Hm Hj).
    apply clamped_playerStep; assumption.
Qed.

Lemma playerSteps_keep_velocity_clamped_witness :
  - maxFallSpeed droppingController
  <= verticalVelocity
       (playerSteps [(emptyWorld, 1 / 60); (emptyWorld, 1 / 60)]
          droppingController)
  <= jumpSpeed droppingController.
Proof.
  apply (playerSteps_keep_velocity_clamped
           [(emptyWorld, 1 / 60); (emptyWorld, 1 / 60)] droppingController).
  - repeat constructor; simpl; lra.
  - fields_eval. lra.
  - fields_eval. lra.
  - fields_eval. lra.
Defined.

(** ** recoverFromPenetration and preStep *)

(** A contact either leaves the locals and the controller as they are, or
    reports a penetration. *)
Lemma recoverContact_cases p0 sign acc pt :
  recoverContact p0 sign acc pt = acc \/
  (getDistance pt < 0 /\ snd (fst (recoverContact p0 sign acc pt)) = true).
Proof.
  destruct acc as [[maxPen penetration] s]. unfold recoverContact.
  destruct (Scalar.ltb (getDistance pt) 0) eqn:D; [|now left].
  apply ltb_true in D.
  match goal with
  | |- context [if ?u then _ else (maxPen, penetration, s)] => destruct u
  end; [|now left].
  right. split; [exact D|].
  destruct (Scalar.ltb (getDistance pt) maxPen); reflexivity.
Qed.

Lemma recoverContact_keeps_flag p0 sign acc pt :
  snd (fst acc) = true -> snd (fst (recoverContact p0 sign acc pt)) = true.
Proof.
  intros H. destruct (recoverContact_cases p0 sign acc pt) as [-> | [_ T]];
    assumption.
Qed.

(** The loops report no penetration only when they changed nothing. *)
Lemma recoverContacts_quiet p0 sign pts acc :
  snd (fst (fold_left (recoverContact p0 sign) pts acc)) = false ->
  fold_left (recoverContact p0 sign) pts acc = acc.
Proof.
  revert acc. induction pts as [|pt pts IH]; intros acc H; [reflexivity|].
  cbn [fold_left] in *.
  destruct (recoverContact_cases p0 sign acc pt) as [E | [_ T]].
  - rewrite E in *. apply IH. exact H.
  - exfalso.
    assert (K : forall l a, snd (fst a) = true ->
                  snd (fst (fold_left (recoverContact p0 sign) l a)) = true).
    { induction l as [|x l IHl]; intros a Ha; [exact Ha|].
      cbn [fold_left]. apply IHl. apply recoverContact_keeps_flag. exact Ha. }
    rewrite (K pts _ T) in H. discriminate.
Qed.

Lemma recoverContacts_flag p0 sign pts acc :
  snd (fst acc) = true ->
  snd (fst (fold_left (recoverContact p0 sign) pts acc)) = true.
Proof.
  revert acc. induction pts as [|x l IHl]; intros a Ha; [exact Ha|].
  cbn [fold_left]. apply IHl. apply recoverContact_keeps_flag. exact Ha.
Qed.

Lemma recoverManifolds_flag p0 manifolds acc :
  snd (fst acc) = true ->
  snd (fst (fold_left (recoverManifold p0) manifolds acc)) = true.
Proof.
  revert acc. induction manifolds as [|x l IHl]; intros a Ha; [exact Ha|].
  cbn [fold_left]. apply IHl. unfold recoverManifold.
  apply recoverContacts_flag. exact Ha.
Qed.

Lemma recoverManifolds_quiet p0 manifolds acc :
  snd (fst (fold_left (recoverManifold p0) manifolds acc)) = false ->
  fold_left (recoverManifold p0) manifolds acc = acc.
Proof.
  revert acc. induction manifolds as [|m ms IH]; intros acc H; [reflexivity|].
  cbn [fold_left] in *.
  destruct (snd (fst (recoverManifold p0 acc m))) eqn:F.
  - rewrite (recoverManifolds_flag p0 ms _ F) in H. discriminate.
  - assert (E : recoverManifold p0 acc m = acc)
      by (apply recoverContacts_quiet; exact F).
    rewrite E in *. apply IH. exact H.
Qed.

Lemma recoverPair_flag p0 acc pair :
  snd (fst acc) = true -> snd (fst (recoverPair p0 acc pair)) = true.
Proof.
  intros H. unfold recoverPair. destruct (_ || _); [exact H|].
  apply recoverManifolds_flag. exact H.
Qed.

Lemma recoverPairs_flag p0 pairs acc :
  snd (fst acc) = true ->
  snd (fst (fold_left (recoverPair p0) pairs acc)) = true.
Proof.
  revert acc. induction pairs as [|x l IHl]; intros a Ha; [exact Ha|].
  cbn [fold_left]. apply IHl. apply recoverPair_flag. exact Ha.
Qed.

Lemma recoverPairs_quiet p0 pairs acc :
  snd (fst (fold_left (recoverPair p0) pairs acc)) = false ->
  fold_left (recoverPair p0) pairs acc = acc.
Proof.
  revert acc. induction pairs as [|p ps IH]; intros acc H; [reflexivity|].
  cbn [fold_left] in *.
  destruct (snd (fst (recoverPair p0 acc p))) eqn:F.
  - rewrite (recoverPairs_flag p0 ps _ F) in H. discriminate.
  - assert (E : recoverPair p0 acc p = acc).
    { unfold recoverPair in *. destruct (_ || _); [reflexivity|].
      apply recoverManifolds_quiet. exact F. }
    rewrite E in *. apply IH. exact H.
Qed.

(** Contacts that do not penetrate change nothing. *)
Lemma recoverContacts_apart p0 sign pts acc :
  Forall (fun pt => 0 <= getDistance pt) pts ->
  fold_left (recoverContact p0 sign) pts acc = acc.
Proof.
  revert acc. induction pts as [|pt pts IH]; intros acc F; [reflexivity|].
  inversion F as [|? ? D Ft]; subst. cbn [fold_left].
  destruct (recoverContact_cases p0 sign acc pt) as [-> | [N _]];
    [apply IH; exact Ft | lra].
Qed.

Lemma recoverPairs_apart p0 pairs acc :
  Forall (fun pt => 0 <= getDistance pt) (visitedContacts pairs) ->
  fold_left (recoverPair p0) pairs acc = acc.
Proof.
  revert acc. induction pairs as [|p ps IH]; intros acc F; [reflexivity|].
  unfold visitedContacts in F. cbn [flat_map] in F.
  apply Forall_app in F as [Fp Fs]. cbn [fold_left].
  assert (E : recoverPair p0 acc p = acc).
  { unfold recoverPair. destruct (_ || _); [reflexivity|].
    destruct (m_algorithm p) as [manifolds|]; [|reflexivity].
    clear IH Fs. revert acc. induction manifolds as [|m ms IHm]; intros acc;
      [reflexivity|].
    cbn [flat_map] in Fp. apply Forall_app in Fp as [Fm Fms].
    cbn [fold_left]. unfold recoverManifold at 2.
    rewrite recoverContacts_apart by exact Fm. apply IHm. exact Fms. }
  rewrite E. apply IH. exact Fs.
Qed.

(** X11.  [recoverFromPenetration] writes the position it ends with back
    to the ghost object.  When it returns false it has changed nothing but
    [currentPosition], which it has set to the position of the ghost
    object: the character has not moved and the floor normal is untouched.
    It returns false whenever no visited contact has a negative distance,
    so a return of true shows a visited contact with a negative
    distance. *)
Theorem recoverFromPenetration_quiet (collisionWorld : CollisionWorld)
    (s : State) :
  let result := recoverFromPenetration collisionWorld s in
  let contacts :=
    visitedContacts (overlappingPairs collisionWorld (ghostOrigin s)) in
  ghostOrigin (snd result) = currentPosition (snd result) /\
  (fst result = false ->
   snd result
   = set_ghostOrigin (ghostOrigin s) (set_currentPosition (ghostOrigin s) s)) /\
  (Forall (fun pt => 0 <= getDistance pt) contacts -> fst result = false) /\
  (fst result = true -> exists pt, In pt contacts /\ getDistance pt < 0).
Proof.
  cbv zeta. unfold recoverFromPenetration.
  cbn [currentPosition set_currentPosition].
  set (acc0 := (0, false, set_currentPosition (ghostOrigin s) s)).
  assert (Q := recoverPairs_quiet (ghostOrigin s)
                 (overlappingPairs collisionWorld (ghostOrigin s)) acc0).
  assert (A := recoverPairs_apart (ghostOrigin s)
                 (overlappingPairs collisionWorld (ghostOrigin s)) acc0).
  destruct (fold_left (recoverPair (ghostOrigin s))
              (overlappingPairs collisionWorld (ghostOrigin s)) acc0)
    as [[maxPen penetration] s1].
  cbn [fst snd] in *.
  split; [reflexivity|]. split; [|split].
  - intros ->. specialize (Q eq_refl). unfold acc0 in Q.
    injection Q as _ ->. reflexivity.
  - intros F. specialize (A F). unfold acc0 in A. congruence.
  - intros ->.
    destruct (Forall_Exists_dec (fun pt => 0 <= getDistance pt)
                (fun pt => Rle_dec 0 (getDistance pt))
                (visitedContacts
                   (overlappingPairs collisionWorld (ghostOrigin s))))
      as [F | E].
    + specialize (A F). unfold acc0 in A. congruence.
    + apply Exists_exists in E as [pt [I N]]. exists pt. split; [exact I|].
      lra.
Qed.

(** [recoverFromPenetration] changes the current position, the floor normal
    and the position of the ghost object, and nothing else. *)
Lemma moved_refl s :
  s = set_currentPosition (currentPosition s) (set_floorNormal (floorNormal s) s).
Proof. destruct s; reflexivity. Qed.

Lemma recoverContact_moved p0 sign acc pt :
  exists c n,
    snd (recoverContact p0 sign acc pt)
    = set_currentPosition c (set_floorNormal n (snd acc)).
Proof.
  destruct acc as [[maxPen penetration] s]. unfold recoverContact.
  cbn [snd].
  destruct (Scalar.ltb (getDistance pt) 0);
    [|exists (currentPosition s), (floorNormal s); destruct s; reflexivity].
  match goal with
  | |- context [if ?u then _ else (maxPen, penetration, s)] => destruct u
  end; [|exists (currentPosition s), (floorNormal s); destruct s; reflexivity].
  destruct (Scalar.ltb (getDistance pt) maxPen).
  - eexists _, _. reflexivity.
  - eexists _, (floorNormal s). destruct s; reflexivity.
Qed.

Lemma recoverContacts_moved p0 sign pts acc :
  exists c n,
    snd (fold_left (recoverContact p0 sign) pts acc)
    = set_currentPosition c (set_floorNormal n (snd acc)).
Proof.
  revert acc. induction pts as [|pt pts IH]; intros acc.
  - exists (currentPosition (snd acc)), (floorNormal (snd acc)).
    cbn [fold_left]. apply moved_refl.
  - cbn [fold_left]. destruct (IH (recoverContact p0 sign acc pt)) as [c [n E]].
    destruct (recoverContact_moved p0 sign acc pt) as [c1 [n1 E1]].
    exists c, n. rewrite E, E1. reflexivity.
Qed.

Lemma recoverManifolds_moved p0 manifolds acc :
  exists c n,
    snd (fold_left (recoverManifold p0) manifolds acc)
    = set_currentPosition c (set_floorNormal n (snd acc)).
Proof.
  revert acc. induction manifolds as [|m ms IH]; intros acc.
  - exists (currentPosition (snd acc)), (floorNormal (snd acc)).
    cbn [fold_left]. apply moved_refl.
  - cbn [fold_left]. destruct (IH (recoverManifold p0 acc m)) as [c [n E]].
    destruct (recoverContacts_moved p0
                (directionSign (ghostObject (snd acc)) m) (contactPoints m) acc)
      as [c1 [n1 E1]].
    fold (recoverManifold p0 acc m) in E1.
    exists c, n. rewrite E, E1. reflexivity.
Qed.

Lemma recoverPairs_moved p0 pairs acc :
  exists c n,
    snd (fold_left (recoverPair p0) pairs acc)
    = set_currentPosition c (set_floorNormal n (snd acc)).
Proof.
  revert acc. induction pairs as [|p ps IH]; intros acc.
  - exists (currentPosition (snd acc)), (floorNormal (snd acc)).
    cbn [fold_left]. apply moved_refl.
  - cbn [fold_left]. destruct (IH (recoverPair p0 acc p)) as [c [n E]].
    exists c, n. rewrite E. unfold recoverPair.
    destruct (_ || _); [reflexivity|].
    destruct (recoverManifolds_moved p0
                (match m_algorithm p with Some ms => ms | None => [] end) acc)
      as [c1 [n1 E1]].
    rewrite E1. reflexivity.
Qed.

Lemma recoverFromPenetration_frame collisionWorld s :
  exists c n,
    snd (recoverFromPenetration collisionWorld s)
    = set_ghostOrigin c (set_currentPosition c (set_floorNormal n s)).
Proof.
  unfold recoverFromPenetration.
  cbn [currentPosition set_currentPosition].
  destruct (recoverPairs_moved (ghostOrigin s)
              (overlappingPairs collisionWorld (ghostOrigin s))
              (0, false, set_currentPosition (ghostOrigin s) s))
    as [c [n E]].
  destruct (fold_left _ _ _) as [[maxPen penetration] s1].
  cbn [snd] in *. subst s1. exists c, n. reflexivity.
Qed.

Lemma preStep_loop_S collisionWorld fuel n s :
  preStep_loop (S fuel) collisionWorld n s
  = let '(penetration, s1) := recoverFromPenetration collisionWorld s in
    if penetration then
      if (4 <? n + 1)%Z then set_touchingContact true s1
      else preStep_loop fuel collisionWorld (n + 1)
             (set_touchingContact true s1)
    else s1.
Proof. reflexivity. Qed.

Lemma preStep_loop_touching collisionWorld fuel :
  forall n s,
    touchingContact s = true ->
    touchingContact (preStep_loop fuel collisionWorld n s) = true.
Proof.
  induction fuel as [|fuel IH]; intros n s T; [exact T|].
  cbn [preStep_loop].
  destruct (recoverFromPenetration_frame collisionWorld s) as [c [nn E]].
  destruct (recoverFromPenetration collisionWorld s) as [penetration s1].
  cbn [snd] in E. subst s1.
  destruct penetration; [|exact T].
  destruct (4 <? n + 1)%Z; [reflexivity|]. apply IH. reflexivity.
Qed.

(** Five rounds of fuel are as good as any larger number. *)
Lemma preStep_loop_fuel collisionWorld k :
  forall fuel n s,
    (n + Z.of_nat k = 5)%Z -> (1 <= k)%nat -> (k <= fuel)%nat ->
    preStep_loop fuel collisionWorld n s = preStep_loop k collisionWorld n s.
Proof.
  induction k as [|k IH]; intros fuel n s Hn Hk Hf; [lia|].
  destruct fuel as [|fuel]; [lia|].
  cbn [preStep_loop].
  destruct (recoverFromPenetration collisionWorld s) as [penetration s1].
  destruct penetration; [|reflexivity].
  destruct (Z.ltb_spec 4 (n + 1)) as [G | L]; [reflexivity|].
  apply IH; lia.
Qed.

(** X12.  [preStep] does nothing on a disabled controller.  On an enabled
    one it leaves the current position equal to the position of the ghost
    object; the character is flagged as touching a contact exactly when
    the first penetration recovery reports a penetration; and the loop
    calls [recoverFromPenetration] at most five times: with fuel for five
    calls it returns what it returns with any more fuel. *)
Theorem preStep_recovers (collisionWorld : CollisionWorld) (s : State) :
  let s' := preStep collisionWorld s in
  (enabled s = false -> s' = s) /\
  (enabled s = true ->
   currentPosition s' = ghostOrigin s' /\
   touchingContact s'
   = fst (recoverFromPenetration collisionWorld (set_touchingContact false s))) /\
  (forall fuel s0,
     (5 <= fuel)%nat ->
     preStep_loop fuel collisionWorld 0 s0
     = preStep_loop 5 collisionWorld 0 s0).
Proof.
  cbv zeta. split; [|split].
  - intros En. unfold preStep. rewrite En. reflexivity.
  - intros En. unfold preStep. rewrite En. cbn [negb]. cbv zeta.
    split; [reflexivity|].
    cbn [touchingContact set_currentPosition].
    rewrite (preStep_loop_S collisionWorld 4).
    destruct (recoverFromPenetration_frame collisionWorld
                (set_touchingContact false s)) as [c [n E]].
    destruct (recoverFromPenetration collisionWorld
                (set_touchingContact false s)) as [penetration s1].
    cbn [fst snd] in *. subst s1.
    destruct penetration; [|reflexivity].
    destruct (4 <? 0 + 1)%Z; [reflexivity|].
    apply (preStep_loop_touching collisionWorld 4). reflexivity.
  - intros fuel s0 Hf. apply preStep_loop_fuel; lia.
Qed.

Lemma preStep_recovers_witness :
  preStep emptyWorld (set_enabled false exampleController)
  = set_enabled false exampleController.
Proof.
  apply (proj1 (preStep_recovers emptyWorld
                  (set_enabled false exampleController))).
  reflexivity.
Defined.

(** ** setVelocityForTimeInterval, jump and preSimulation *)

(** X13.  [setVelocityForTimeInterval] never fails: it stores the velocity
    as walk direction, adds the interval to the pending one, and stores as
    normalized direction the zero vector when the velocity is shorter than
    FLT_EPSILON and the velocity scaled to length one otherwise.  A second
    call replaces the directions and adds its interval to the first. *)
Theorem setVelocityForTimeInterval_accumulates (v1 v2 : Vec3.t) (t1 t2 : R)
    (s : State) :
  exists n1 s1 s2,
    setVelocityForTimeInterval v1 t1 s = Some s1 /\
    s1 = set_velocityTimeInterval (velocityTimeInterval s + t1)
           (set_normalizedDirection n1 (set_walkDirection v1 s)) /\
    (Vec3.length v1 < Scalar.FLT_EPSILON -> n1 = Vec3.mk 0 0 0) /\
    (Scalar.FLT_EPSILON <= Vec3.length v1 ->
     n1 = (1 / Vec3.length v1) *v v1 /\ Vec3.length n1 = 1) /\
    setVelocityForTimeInterval v2 t2 s1 = Some s2 /\
    walkDirection s2 = v2 /\
    velocityTimeInterval s2 = velocityTimeInterval s + t1 + t2.
Proof.
  destruct (setVelocityForTimeInterval_defined v1 t1 s) as (n1 & N1 & E1).
  set (s1 := set_velocityTimeInterval (velocityTimeInterval s + t1)
               (set_normalizedDirection n1 (set_walkDirection v1 s))) in *.
  destruct (setVelocityForTimeInterval_defined v2 t2 s1) as (n2 & N2 & E2).
  exists n1, s1. eexists. split; [exact E1|]. split; [reflexivity|].
  split; [|split; [|split; [exact E2|split; reflexivity]]].
  - intros H. apply ltb_true in H. unfold getNormalizedVector in N1.
    rewrite H in N1. congruence.
  - intros H. split; [|apply (getNormalizedVector_unit v1 n1 H N1)].
    pose proof FLT_EPSILON_pos as P.
    assert (Nz : Vec3.length v1 <> 0) by lra.
    apply ltb_false in H. unfold getNormalizedVector in N1. rewrite H in N1.
    unfold Vec3.div_assign in N1. rewrite (div_some 1 _ Nz) in N1. congruence.
Qed.

Lemma jump_flag_bit n :
  (0 <= n)%Z -> Z.testbit PENDING_FLAG_JUMP n = (3 =? n)%Z.
Proof. intros H. apply (flag_bit 3 n). lia. Qed.

Lemma jumpPending_bit s : jumpPending s = Z.testbit (pendingFlags s) 3.
Proof. apply (flag_test _ 3). lia. Qed.

Lemma consumeJump_spec s :
  jumpPending (consumeJump s) = false /\
  (forall n, (0 <= n < 32)%Z -> n <> 3%Z ->
     Z.testbit (pendingFlags (consumeJump s)) n
     = Z.testbit (pendingFlags s) n) /\
  (jumpPending s = true -> isOnGround s = true ->
   verticalVelocity (consumeJump s) = jumpSpeed s /\
   isJumping (consumeJump s) = true) /\
  (jumpPending s = false \/ isOnGround s = false ->
   verticalVelocity (consumeJump s) = verticalVelocity s /\
   isJumping (consumeJump s) = isJumping s) /\
  exists f v j,
    consumeJump s
    = set_isJumping j (set_verticalVelocity v (set_pendingFlags f s)).
Proof.
  assert (B : forall f n, (0 <= n)%Z ->
                Z.testbit (Z.land f (not32 PENDING_FLAG_JUMP)) n
                = Z.testbit f n && xorb (3 =? n)%Z (n <? 32)%Z).
  { intros f n Hn. rewrite Z.land_spec, not32_bit, jump_flag_bit by exact Hn.
    reflexivity. }
  unfold consumeJump. fold (jumpPending s).
  destruct (jumpPending s) eqn:P.
  - unfold canJump. cbn [isOnGround set_pendingFlags].
    destruct (isOnGround s) eqn:G.
    + split; [|split; [|split; [|split]]].
      * rewrite jumpPending_bit. cbn [pendingFlags set_isJumping
          set_verticalVelocity set_pendingFlags].
        rewrite B by lia. apply andb_false_r.
      * intros n Hn N3. cbn [pendingFlags set_isJumping set_verticalVelocity
          set_pendingFlags].
        rewrite B by lia.
        destruct (Z.eqb_spec 3 n); [lia|].
        destruct (Z.ltb_spec n 32); [|lia]. apply andb_true_r.
      * intros _ _. split; reflexivity.
      * intros [C | C]; discriminate.
      * eexists _, _, _. reflexivity.
    + split; [|split; [|split; [|split]]].
      * rewrite jumpPending_bit. cbn [pendingFlags set_pendingFlags].
        rewrite B by lia. apply andb_false_r.
      * intros n Hn N3. cbn [pendingFlags set_pendingFlags].
        rewrite B by lia.
        destruct (Z.eqb_spec 3 n); [lia|].
        destruct (Z.ltb_spec n 32); [|lia]. apply andb_true_r.
      * intros _ C. discriminate.
      * intros _. split; reflexivity.
      * exists (Z.land (pendingFlags s) (not32 PENDING_FLAG_JUMP)),
          (verticalVelocity s), (isJumping s).
        destruct s; reflexivity.
  - split; [exact P|]. split; [reflexivity|]. split; [discriminate|].
    split; [intros _; split; reflexivity|].
    exists (pendingFlags s), (verticalVelocity s), (isJumping s).
    destruct s; reflexivity.
Qed.

(** [preSimulation] on an enabled, registered controller, step by step. *)
Lemma preSimulation_enabled avatarData timeStep s :
  enabled s = true -> isRegistered s = true ->
  exists n,
    getNormalizedVector (getVelocity avatarData) = Some n /\
    preSimulation avatarData timeStep s
    = Some
        (set_stepDt 0
           (set_lastPosition (shapePosition avatarData s)
              (consumeJump
                 (set_velocityTimeInterval (velocityTimeInterval s + timeStep)
                    (set_normalizedDirection n
                       (set_walkDirection (getVelocity avatarData)
                          (set_ghostOrigin (shapePosition avatarData s)
                             (set_ghostRotation
                                (transformRotation (getOrientation avatarData))
                                (set_currentUp
                                   (Quat.quatRotate (getOrientation avatarData)
                                      LOCAL_UP_AXIS) s))))))))).
Proof.
  intros En Reg. unfold preSimulation. rewrite En, Reg. cbn [andb].
  match goal with
  | |- context [setVelocityForTimeInterval ?v ?t ?x] =>
      destruct (setVelocityForTimeInterval_defined v t x) as (n & N & ->)
  end.
  exists n. split; [exact N|].
  unfold consumeJump, canJump.
  cbn [pendingFlags isOnGround jumpSpeed set_pendingFlags
         set_velocityTimeInterval set_normalizedDirection set_walkDirection
         set_ghostOrigin set_ghostRotation set_currentUp shapeLocalOffset].
  unfold shapePosition.
  destruct (to_bool (Z.land (pendingFlags s) PENDING_FLAG_JUMP));
    [|reflexivity].
  destruct (isOnGround s); reflexivity.
Qed.

(** X14.  [preSimulation] on an enabled, registered controller consumes
    the jump request: afterwards none is pending and the other pending
    flags are as before.  The jump is honoured only if the character is on
    the ground at that moment: then the vertical velocity becomes
    [jumpSpeed] and the character is jumping; a request made in the air is
    dropped, and without a request nothing of this changes.  On a disabled
    or unregistered controller [preSimulation] does nothing. *)
Theorem preSimulation_consumes_jump (avatarData : AvatarData) (timeStep : R)
    (s : State) :
  (enabled s = false \/ isRegistered s = false ->
   preSimulation avatarData timeStep s = Some s) /\
  (enabled s = true -> isRegistered s = true ->
   exists s1,
     preSimulation avatarData timeStep s = Some s1 /\
     jumpPending s1 = false /\
     (forall n, (0 <= n < 32)%Z -> n <> 3%Z ->
        Z.testbit (pendingFlags s1) n = Z.testbit (pendingFlags s) n) /\
     (jumpPending s = true -> isOnGround s = true ->
      verticalVelocity s1 = jumpSpeed s /\ isJumping s1 = true) /\
     (jumpPending s = false \/ isOnGround s = false ->
      verticalVelocity s1 = verticalVelocity s /\
      isJumping s1 = isJumping s)).
Proof.
  split.
  - intros [H | H]; unfold preSimulation; rewrite H;
      [|rewrite andb_false_r]; reflexivity.
  - intros En Reg.
    destruct (preSimulation_enabled avatarData timeStep s En Reg)
      as (n & _ & E).
    eexists. split; [exact E|].
    match goal with
    | |- context [consumeJump ?x] =>
        destruct (consumeJump_spec x) as (P & B & J & K & _);
        generalize dependent (consumeJump x)
    end.
    intros s1 P B J K.
    unfold jumpPending in *.
    cbn [pendingFlags isOnGround verticalVelocity jumpSpeed isJumping
           set_stepDt set_lastPosition set_velocityTimeInterval
           set_normalizedDirection set_walkDirection set_ghostOrigin
           set_ghostRotation set_currentUp] in *.
    auto.
Qed.

Lemma jump_fields now s :
  isHovering (jump now s)
  = (isHovering s
     || (isJumping s
         && ((now - jumpToHoverStart s) mod 2 ^ 64 <? USECS_PER_SECOND)%Z)) /\
  jumpToHoverStart (jump now s)
  = (if negb (isHovering s) && negb (isJumping s) then now
     else jumpToHoverStart s) /\
  jumpPending (jump now s) = true /\
  exists f t h,
    jump now s = set_isHovering h (set_jumpToHoverStart t (set_pendingFlags f s)).
Proof.
  assert (P : forall f, Z.testbit (Z.lor f PENDING_FLAG_JUMP) 3 = true).
  { intros f. rewrite Z.lor_spec, jump_flag_bit by lia. apply orb_true_r. }
  unfold jump. cbn [isHovering isJumping jumpToHoverStart set_pendingFlags].
  destruct (isHovering s) eqn:Hov; cbn [negb orb andb].
  - split; [exact Hov|]. split; [reflexivity|].
    split; [rewrite jumpPending_bit; apply P|].
    exists (Z.lor (pendingFlags s) PENDING_FLAG_JUMP), (jumpToHoverStart s),
          (isHovering s). destruct s; reflexivity.
  - destruct (isJumping s) eqn:J; cbn [negb orb andb].
    + destruct (_ <? _)%Z.
      * split; [reflexivity|]. split; [reflexivity|].
        split; [rewrite jumpPending_bit; apply P|].
        exists (Z.lor (pendingFlags s) PENDING_FLAG_JUMP), (jumpToHoverStart s),
          true. destruct s; reflexivity.
      * split; [exact Hov|]. split; [reflexivity|].
        split; [rewrite jumpPending_bit; apply P|].
        exists (Z.lor (pendingFlags s) PENDING_FLAG_JUMP), (jumpToHoverStart s),
          (isHovering s).
        destruct s; reflexivity.
    + split; [exact Hov|]. split; [reflexivity|].
      split; [rewrite jumpPending_bit; apply P|].
      exists (Z.lor (pendingFlags s) PENDING_FLAG_JUMP), now, (isHovering s). destruct s; reflexivity.
Qed.

(** X15.  Holding the jump key.  On an enabled, registered controller that
    is neither hovering nor jumping, [jump] at clock reading [t0] followed
    by [preSimulation] starts a jump if the character is on the ground,
    with vertical velocity [jumpSpeed]; a further [jump] at reading [t1]
    then starts hovering exactly when less than a second has elapsed since
    [t0].  If the character is in the air, the request is dropped, and the
    further [jump] only restarts the timer at [t1]. *)
Theorem jump_then_preSimulation_then_jump (avatarData : AvatarData)
    (timeStep : R) (t0 t1 : Z) (s : State) :
  enabled s = true -> isRegistered s = true ->
  isHovering s = false -> isJumping s = false ->
  (0 <= t0 <= t1)%Z -> (t1 < 2 ^ 64)%Z ->
  exists s1,
    preSimulation avatarData timeStep (jump t0 s) = Some s1 /\
    (isOnGround s = true ->
     verticalVelocity s1 = jumpSpeed s /\ isJumping s1 = true /\
     isHovering (jump t1 s1) = (t1 - t0 <? USECS_PER_SECOND)%Z) /\
    (isOnGround s = false ->
     isJumping s1 = false /\ isHovering (jump t1 s1) = false /\
     jumpToHoverStart (jump t1 s1) = t1).
Proof.
  intros En Reg Hov J Ht0 Ht1.
  destruct (jump_fields t0 s) as (H0 & T0 & P0 & f & t & h & E0).
  rewrite Hov, J in H0, T0. cbn [negb andb orb] in H0, T0.
  assert (En0 : enabled (jump t0 s) = true) by (rewrite E0; exact En).
  assert (Reg0 : isRegistered (jump t0 s) = true) by (rewrite E0; exact Reg).
  assert (G0 : isOnGround (jump t0 s) = isOnGround s) by (rewrite E0; reflexivity).
  assert (J0 : isJumping (jump t0 s) = false) by (rewrite E0; exact J).
  assert (S0 : jumpSpeed (jump t0 s) = jumpSpeed s) by (rewrite E0; reflexivity).
  destruct (preSimulation_enabled avatarData timeStep (jump t0 s) En0 Reg0)
    as (n & _ & E).
  eexists. split; [exact E|]. clear E.
  match goal with
  | |- context [consumeJump ?x0] => set (x := x0) in *
  end.
  assert (Hx : isHovering x = false) by exact H0.
  assert (Tx : jumpToHoverStart x = t0) by exact T0.
  assert (Px : jumpPending x = true) by exact P0.
  assert (Gx : isOnGround x = isOnGround s) by exact G0.
  assert (Jx : isJumping x = false) by exact J0.
  assert (Sx : jumpSpeed x = jumpSpeed s) by exact S0.
  clearbody x.
  destruct (consumeJump_spec x) as (_ & _ & Yes & No & f1 & v1 & j1 & Fr).
  assert (Hc : isHovering (consumeJump x) = false) by (rewrite Fr; exact Hx).
  assert (Tc : jumpToHoverStart (consumeJump x) = t0)
    by (rewrite Fr; exact Tx).
  clear Fr.
  set (c := consumeJump x) in *. clearbody c.
  set (s1 := set_stepDt 0
               (set_lastPosition (shapePosition avatarData (jump t0 s)) c)).
  assert (H1 : isHovering s1 = false) by exact Hc.
  assert (T1 : jumpToHoverStart s1 = t0) by exact Tc.
  assert (V1 : verticalVelocity s1 = verticalVelocity c) by reflexivity.
  assert (J1 : isJumping s1 = isJumping c) by reflexivity.
  clearbody s1.
  destruct (jump_fields t1 s1) as (HF & TF & _).
  rewrite H1, T1, J1 in HF, TF. cbn [negb orb andb] in HF, TF.
  rewrite V1, J1. split.
  - intros G. rewrite G in Gx. destruct (Yes Px Gx) as [V Jc].
    split; [congruence|]. split; [exact Jc|].
    rewrite HF, Jc. cbn [andb].
    rewrite Z.mod_small by (unfold USECS_PER_SECOND; lia). reflexivity.
  - intros G. rewrite G in Gx. destruct (No (or_intror Gx)) as [_ Jc].
    rewrite Jx in Jc. rewrite Jc in HF, TF. cbn [negb andb] in HF, TF.
    split; [exact Jc|]. split; [exact HF | exact TF].
Qed.

Lemma jump_then_preSimulation_then_jump_witness :
  exists s1,
    preSimulation (mkAvatarData Quat.identity (Vec3.mk 0 0 0) (Vec3.mk 0 0 0))
      (1 / 60) (jump 0 (set_isOnGround true droppingController)) = Some s1.
Proof.
  destruct (jump_then_preSimulation_then_jump
              (mkAvatarData Quat.identity (Vec3.mk 0 0 0) (Vec3.mk 0 0 0))
              (1 / 60) 0 500000 (set_isOnGround true droppingController))
    as (s1 & E & _); try reflexivity; try lia.
  exists s1. exact E.
Defined.

Lemma length_sub_self a : Vec3.length (a -v a) = 0.
Proof.
  replace (a -v a) with (Vec3.mk 0 0 0) by (apply vec_eq; simpl; ring).
  apply length_zero_vec.
Qed.

(** *** The rotation of the ghost's transform *)

Lemma quat_eq (a b : Quat.t) :
  Quat.x a = Quat.x b -> Quat.y a = Quat.y b -> Quat.z a = Quat.z b ->
  Quat.w a = Quat.w b -> a = b.
Proof. destruct a, b; simpl; intros; subst; reflexivity. Qed.

Lemma sqrt_double_square a : 0 <= a -> sqrt (4 * (a * a)) = 2 * a.
Proof.
  intros H. replace (4 * (a * a)) with ((2 * a) * (2 * a)) by ring.
  apply sqrt_square. lra.
Qed.

Lemma sqrt_double_square_neg a : a <= 0 -> sqrt (4 * (a * a)) = 2 * - a.
Proof.
  intros H. replace (4 * (a * a)) with ((2 * - a) * (2 * - a)) by ring.
  apply sqrt_square. lra.
Qed.

(** The basis that [setRotation] builds from a quaternion of length
    one. *)
Lemma setRotation_unit q :
  Quat.length2 q = 1 ->
  Basis.setRotation q
  = let x := Quat.x q in
    let y := Quat.y q in
    let z := Quat.z q in
    let w := Quat.w q in
    Mat3.mk
      (Vec3.mk (1 - 2 * (y * y + z * z)) (2 * (x * y - w * z))
         (2 * (x * z + w * y)))
      (Vec3.mk (2 * (x * y + w * z)) (1 - 2 * (x * x + z * z))
         (2 * (y * z - w * x)))
      (Vec3.mk (2 * (x * z - w * y)) (2 * (y * z + w * x))
         (1 - 2 * (x * x + y * y))).
Proof.
  intros U. unfold Basis.setRotation. cbv zeta. rewrite U.
  replace (2 / 1) with 2 by field.
  f_equal; f_equal; ring.
Qed.

Ltac quat_field :=
  apply quat_eq; cbn [Quat.x Quat.y Quat.z Quat.w Quat.neg];
  try (field; lra); try lra.

(** With the square root [sqrt (4 a a)] of the goal resolved by the sign
    of [a], the quaternion read back is the given one or its negative. *)
Ltac read_back a :=
  match goal with
  | |- context [sqrt ?e] => replace e with (4 * (a * a)) by nra
  end;
  let P := fresh "P" in
  let N := fresh "N" in
  destruct (Rle_or_lt a 0) as [N | P];
  [ rewrite (sqrt_double_square_neg a N);
    assert (a < 0) by nra;
    split; [right; quat_field | split; intros; [exfalso; nra | quat_field]]
  | rewrite (sqrt_double_square a (Rlt_le _ _ P));
    split; [left; quat_field | split; intros; [quat_field | exfalso; nra] ] ].

(** A quaternion [q] of length one that goes through the basis of a
    transform comes back as [q] or as [-q]: as [q] when its [w] is above
    1/2, as [-q] when its [w] is below -1/2. *)
Lemma transformRotation_unit q :
  Quat.length2 q = 1 ->
  (transformRotation q = q \/ transformRotation q = Quat.neg q) /\
  (1 / 2 < Quat.w q -> transformRotation q = q) /\
  (Quat.w q < - (1 / 2) -> transformRotation q = Quat.neg q).
Proof.
  intros U. unfold transformRotation. rewrite (setRotation_unit q U).
  destruct q as [x y z w]. unfold Quat.length2 in U.
  cbn [Quat.x Quat.y Quat.z Quat.w] in *.
  cbv zeta. unfold Basis.getRotation. cbv zeta.
  unfold Basis.el, Basis.row, Basis.coord.
  cbn [Mat3.r0 Mat3.r1 Mat3.r2 Vec3.x Vec3.y Vec3.z].
  destruct (Scalar.gtb _ 0) eqn:T; [apply gtb_true in T | apply gtb_false in T].
  - read_back w.
  - destruct (Scalar.ltb (1 - 2 * (y * y + z * z)) (1 - 2 * (x * x + z * z)))
      eqn:A; [apply ltb_true in A | apply ltb_false in A].
    + destruct (Scalar.ltb (1 - 2 * (x * x + z * z))
                  (1 - 2 * (x * x + y * y)))
        eqn:B; [apply ltb_true in B | apply ltb_false in B];
        cbn [Nat.add Nat.modulo Nat.divmod Nat.eqb fst snd Nat.sub
             Mat3.r0 Mat3.r1 Mat3.r2 Vec3.x Vec3.y Vec3.z].
      * read_back z.
      * read_back y.
    + destruct (Scalar.ltb (1 - 2 * (y * y + z * z))
                  (1 - 2 * (x * x + y * y)))
        eqn:B; [apply ltb_true in B | apply ltb_false in B];
        cbn [Nat.add Nat.modulo Nat.divmod Nat.eqb fst snd Nat.sub
             Mat3.r0 Mat3.r1 Mat3.r2 Vec3.x Vec3.y Vec3.z].
      * read_back z.
      * read_back x.
Qed.

(** [q] and [-q] rotate alike. *)
Lemma rotate_neg q v : Quat.rotate (Quat.neg q) v = Quat.rotate q v.
Proof. destruct q, v. apply vec_eq; simpl; ring. Qed.

(** Bullet's [quatRotate] and glm's [q * v] differ by the vector scaled by
    [length2 q - 1]: they agree for quaternions of length one. *)
Lemma quatRotate_rotate q v :
  Quat.quatRotate q v = Quat.rotate q v +v (Quat.length2 q - 1) *v v.
Proof. destruct q, v. apply vec_eq; simpl; unfold Quat.length2; simpl; ring. Qed.

Lemma quatRotate_unit q v :
  Quat.length2 q = 1 -> Quat.quatRotate q v = Quat.rotate q v.
Proof.
  intros U. rewrite quatRotate_rotate, U. destruct (Quat.rotate q v), v.
  apply vec_eq; simpl; ring.
Qed.

Lemma length2_identity : Quat.length2 Quat.identity = 1.
Proof. unfold Quat.length2. simpl. ring. Qed.

Lemma length2_flipped : Quat.length2 (Quat.mk 0 0 0 (-1)) = 1.
Proof. unfold Quat.length2. simpl. ring. Qed.

(** X16.  Round trip through the adapters, for an avatar whose
    orientation [q] has length one.  On an enabled, registered controller
    with a ghost object, [postSimulation] right after [preSimulation], with
    no step in between, gives the avatar back its position and its
    velocity exactly: the shape offset that [preSimulation] adds is the one
    that [postSimulation] subtracts, and nothing is throttled.  The
    orientation has gone through the basis of the ghost's transform: it
    comes back as [q] or as [-q], which rotates alike; as [q] when the [w]
    of [q] is above 1/2, so that the avatar is then exactly as it was, and
    as [-q] when it is below -1/2.  The up axis that [preSimulation] sets
    is the local up axis rotated by [q]. *)
Theorem preSimulation_postSimulation_round_trip (avatarData : AvatarData)
    (timeStep : R) (s : State) :
  enabled s = true -> isRegistered s = true -> hasGhostObject s = true ->
  Quat.length2 (getOrientation avatarData) = 1 ->
  exists s1 avatarData',
    preSimulation avatarData timeStep s = Some s1 /\
    throttledPosition s1 = Some (shapePosition avatarData s) /\
    currentUp s1 = Quat.rotate (getOrientation avatarData) LOCAL_UP_AXIS /\
    postSimulation s1 avatarData = Some avatarData' /\
    getPosition avatarData' = getPosition avatarData /\
    getVelocity avatarData' = getVelocity avatarData /\
    (getOrientation avatarData' = getOrientation avatarData \/
     getOrientation avatarData' = Quat.neg (getOrientation avatarData)) /\
    (1 / 2 < Quat.w (getOrientation avatarData) ->
     avatarData' = avatarData) /\
    (Quat.w (getOrientation avatarData) < - (1 / 2) ->
     getOrientation avatarData'
     = Quat.neg (getOrientation avatarData)).
Proof.
  intros En Reg Gh U.
  destruct (preSimulation_enabled avatarData timeStep s En Reg) as (n & _ & E).
  eexists. eexists. split; [exact E|]. clear E.
  match goal with
  | |- context [consumeJump ?x0] =>
      destruct (consumeJump_spec x0) as (_ & _ & _ & _ & f & v & j & ->)
  end.
  set (P := shapePosition avatarData s).
  match goal with
  | |- throttledPosition ?x0 = _ /\ _ => set (s1 := x0)
  end.
  assert (GO : ghostOrigin s1 = P) by reflexivity.
  assert (LP : lastPosition s1 = P) by reflexivity.
  assert (SD : stepDt s1 = 0) by reflexivity.
  assert (GR : ghostRotation s1
               = transformRotation (getOrientation avatarData))
    by reflexivity.
  assert (SO : shapeLocalOffset s1 = shapeLocalOffset s) by reflexivity.
  assert (CU : currentUp s1
               = Quat.quatRotate (getOrientation avatarData) LOCAL_UP_AXIS)
    by reflexivity.
  assert (E1 : enabled s1 = true) by exact En.
  assert (G1 : hasGhostObject s1 = true) by exact Gh.
  clearbody s1.
  assert (M : maxStepLength s1 = 0)
    by (unfold maxStepLength; rewrite SD; ring).
  assert (T : throttledPosition s1 = Some P).
  { unfold throttledPosition. rewrite GO, LP, M, length_sub_self.
    rewrite (proj2 (gtb_false 0 0)) by lra. reflexivity. }
  destruct (transformRotation_unit _ U) as (Sign & Pos & Neg).
  assert (Rot : Quat.rotate (transformRotation (getOrientation avatarData))
                  (shapeLocalOffset s)
                = Quat.rotate (getOrientation avatarData) (shapeLocalOffset s)).
  { destruct Sign as [-> | ->]; [reflexivity | apply rotate_neg]. }
  assert (Back : P -v Quat.rotate (getOrientation avatarData)
                        (shapeLocalOffset s)
                 = getPosition avatarData).
  { unfold P, shapePosition. apply vec_eq; simpl; ring. }
  split; [exact T|].
  split; [rewrite CU; apply quatRotate_unit; exact U|].
  split.
  { unfold postSimulation. rewrite E1, G1, T, GR, SO, Rot, Back.
    cbn [andb]. reflexivity. }
  cbn [getPosition getVelocity getOrientation].
  split; [reflexivity|]. split; [reflexivity|]. split; [exact Sign|].
  split; [|exact Neg].
  intros W. rewrite (Pos W). destruct avatarData; reflexivity.
Qed.

Lemma preSimulation_postSimulation_round_trip_witness :
  (exists s1,
     preSimulation
       (mkAvatarData Quat.identity (Vec3.mk 1 2 3) (Vec3.mk 1 0 0))
       (1 / 60) exampleController = Some s1 /\
     postSimulation s1
       (mkAvatarData Quat.identity (Vec3.mk 1 2 3) (Vec3.mk 1 0 0))
     = Some (mkAvatarData Quat.identity (Vec3.mk 1 2 3) (Vec3.mk 1 0 0))) /\
  (exists s1,
     preSimulation
       (mkAvatarData (Quat.mk 0 0 0 (-1)) (Vec3.mk 1 2 3) (Vec3.mk 1 0 0))
       (1 / 60) exampleController = Some s1 /\
     postSimulation s1
       (mkAvatarData (Quat.mk 0 0 0 (-1)) (Vec3.mk 1 2 3) (Vec3.mk 1 0 0))
     = Some (mkAvatarData (Quat.neg (Quat.mk 0 0 0 (-1))) (Vec3.mk 1 2 3)
               (Vec3.mk 1 0 0))).
Proof.
  split.
  - destruct (preSimulation_postSimulation_round_trip
                (mkAvatarData Quat.identity (Vec3.mk 1 2 3) (Vec3.mk 1 0 0))
                (1 / 60) exampleController eq_refl eq_refl eq_refl
                length2_identity)
      as (s1 & a & E & _ & _ & R & _ & _ & _ & Same & _).
    exists s1. split; [exact E|]. rewrite R. f_equal. apply Same.
    simpl. lra.
  - destruct (preSimulation_postSimulation_round_trip
                (mkAvatarData (Quat.mk 0 0 0 (-1)) (Vec3.mk 1 2 3)
                   (Vec3.mk 1 0 0))
                (1 / 60) exampleController eq_refl eq_refl eq_refl
                length2_flipped)
      as (s1 & a & E & _ & _ & R & Ps & Vl & _ & _ & Flip).
    exists s1. split; [exact E|]. rewrite R. f_equal.
    destruct a as [q p v]. cbn [getPosition getVelocity getOrientation] in *.
    rewrite Ps, Vl, Flip by (simpl; lra). reflexivity.
Defined.

(** ** What a step writes *)

Lemma steppedFrom_refl s : steppedFrom s s.
Proof. unfold steppedFrom, stepWrites. destruct s; reflexivity. Qed.

Lemma steppedFrom_trans s1 s2 s3 :
  steppedFrom s1 s2 -> steppedFrom s2 s3 -> steppedFrom s1 s3.
Proof.
  unfold steppedFrom. intros E1 E2.
  rewrite E2 at 1. rewrite E1 at 1. reflexivity.
Qed.

Lemma steppedFrom_scanDown world s : steppedFrom s (scanDown world s).
Proof.
  destruct (scanDown_cases world s) as [-> | [-> | ->]];
    unfold steppedFrom, stepWrites; destruct s; reflexivity.
Qed.

Lemma steppedFrom_stepUp world s : steppedFrom s (stepUp world s).
Proof.
  unfold stepUp.
  repeat match goal with
  | |- context [if ?c then _ else _] => destruct c
  end; unfold steppedFrom, stepWrites; destruct s; reflexivity.
Qed.

Lemma steppedFrom_stepForward world movement s :
  steppedFrom s (stepForward world movement s).
Proof.
  destruct (stepForward_frame world movement s) as [c [t ->]].
  unfold steppedFrom, stepWrites; destruct s; reflexivity.
Qed.

Lemma steppedFrom_stepDown world dt s : steppedFrom s (stepDown world dt s).
Proof.
  unfold stepDown, stepDown_sweeps. cbv zeta.
  repeat match goal with
  | |- context [if ?c then _ else _] => destruct c
  end; cbn [fst]; unfold steppedFrom, stepWrites; destruct s; reflexivity.
Qed.

Lemma steppedFrom_updateFallVelocity dt s :
  steppedFrom s (updateFallVelocity dt s).
Proof.
  unfold updateFallVelocity.
  destruct (isHovering s);
    [unfold steppedFrom, stepWrites; destruct s; reflexivity|].
  cbn [verticalVelocity jumpSpeed maxFallSpeed set_verticalVelocity].
  repeat case_cmp; unfold steppedFrom, stepWrites; destruct s; reflexivity.
Qed.

Lemma steppedFrom_ex s y :
  steppedFrom s y ->
  exists a b c d e f g h i j k, y = stepWrites a b c d e f g h i j k s.
Proof. intros H. repeat eexists. exact H. Qed.

Lemma steppedFrom_bookkeeping s y a b :
  steppedFrom s y ->
  steppedFrom s (set_stepDt a (set_velocityTimeInterval b y)).
Proof.
  intros H.
  destruct (steppedFrom_ex _ _ H) as (?&?&?&?&?&?&?&?&?&?&?&->).
  unfold steppedFrom, stepWrites. destruct s; reflexivity.
Qed.

Lemma steppedFrom_offset s y a :
  steppedFrom s y -> steppedFrom s (set_verticalOffset a y).
Proof.
  intros H.
  destruct (steppedFrom_ex _ _ H) as (?&?&?&?&?&?&?&?&?&?&?&->).
  unfold steppedFrom, stepWrites. destruct s; reflexivity.
Qed.

Lemma steppedFrom_transform s y a :
  steppedFrom s y ->
  steppedFrom s (set_ghostOrigin a (set_ghostRotation (ghostRotation s) y)).
Proof.
  intros H.
  destruct (steppedFrom_ex _ _ H) as (?&?&?&?&?&?&?&?&?&?&?&->).
  unfold steppedFrom, stepWrites. destruct s; reflexivity.
Qed.

Lemma steppedFrom_playerStep world dt s :
  steppedFrom s (playerStep world dt s).
Proof.
  unfold playerStep. destruct (enabled s); [|apply steppedFrom_refl].
  cbn [negb]. cbv zeta. cbn [ghostRotation set_verticalOffset].
  rewrite (proj1 (updateFallVelocity_frame_more dt s)).
  apply steppedFrom_transform.
  eapply steppedFrom_trans; [|apply steppedFrom_stepDown].
  eapply steppedFrom_trans; [|apply steppedFrom_stepForward].
  apply steppedFrom_bookkeeping.
  eapply steppedFrom_trans; [|apply steppedFrom_stepUp].
  eapply steppedFrom_trans; [|apply steppedFrom_scanDown].
  apply steppedFrom_offset. apply steppedFrom_updateFallVelocity.
Qed.

Lemma steppedFrom_playerSteps steps :
  forall s, steppedFrom s (playerSteps steps s).
Proof.
  induction steps as [|[w dt] steps IH]; intros s.
  - apply steppedFrom_refl.
  - unfold playerSteps. cbn [fold_left fst snd].
    eapply steppedFrom_trans; [apply steppedFrom_playerStep|].
    apply (IH (playerStep w dt s)).
Qed.

(** X17.  A run of [playerStep]s writes only these members: the position
    of the ghost object, the current and target positions, the vertical
    velocity and offset, the pending velocity interval, the ground, jump
    and hover flags, [lastStepUp] and the accumulated step time.  Every
    other member is left as it was: among them the enabled flag, the shape
    and its dimensions, the up axis, the walk direction, the speed limits,
    the pending flags and the recorded last position. *)
Theorem playerSteps_write_only (steps : list (CollisionWorld * R)) (s : State) :
  let s' := playerSteps steps s in
  s' = stepWrites (ghostOrigin s') (currentPosition s') (targetPosition s')
         (verticalVelocity s') (verticalOffset s') (velocityTimeInterval s')
         (isOnGround s') (isJumping s') (isHovering s') (lastStepUp s')
         (stepDt s') s /\
  enabled s' = enabled s /\ dynamicsWorld s' = dynamicsWorld s /\
  ghostObject s' = ghostObject s /\ ghostRotation s' = ghostRotation s /\
  currentUp s' = currentUp s /\ walkDirection s' = walkDirection s /\
  radius s' = radius s /\ halfHeight s' = halfHeight s /\
  shapeMargin s' = shapeMargin s /\ gravity s' = gravity s /\
  maxFallSpeed s' = maxFallSpeed s /\ jumpSpeed s' = jumpSpeed s /\
  pendingFlags s' = pendingFlags s /\ lastPosition s' = lastPosition s /\
  shapeLocalOffset s' = shapeLocalOffset s.
Proof.
  intros s'. pose proof (steppedFrom_playerSteps steps s) as H.
  fold s' in H. split; [exact H|].
  destruct (steppedFrom_ex _ _ H) as (?&?&?&?&?&?&?&?&?&?&?&->).
  repeat split.
Qed.

(** X18.  A whole tick, for an avatar whose orientation [q] has length
    one.  On an enabled, registered controller with a ghost object:
    [preSimulation], then any run of [playerStep]s whose time steps are not
    negative, then [postSimulation].  None of them fails; the avatar is
    written the orientation read back from the ghost's transform, which is
    [q] or [-q], its velocity is left alone, and its position, before the
    shape offset rotated by [q] is subtracted, lies within the bound
    [max(5, 2 |walkDirection + verticalVelocity currentUp|) stepDt] of the
    position that [preSimulation] recorded. *)
Theorem tick_position_bound (avatarData : AvatarData) (timeStep : R)
    (steps : list (CollisionWorld * R)) (s : State) :
  enabled s = true -> isRegistered s = true -> hasGhostObject s = true ->
  Quat.length2 (getOrientation avatarData) = 1 ->
  Forall (fun step => 0 <= snd step) steps ->
  exists s1 position rotation,
    preSimulation avatarData timeStep s = Some s1 /\
    throttledPosition (playerSteps steps s1) = Some position /\
    Vec3.length (position -v shapePosition avatarData s)
    <= maxStepLength (playerSteps steps s1) /\
    rotation = transformRotation (getOrientation avatarData) /\
    (rotation = getOrientation avatarData \/
     rotation = Quat.neg (getOrientation avatarData)) /\
    postSimulation (playerSteps steps s1) avatarData
    = Some (mkAvatarData rotation
              (position
               -v Quat.rotate (getOrientation avatarData) (shapeLocalOffset s))
              (getVelocity avatarData)).
Proof.
  intros En Reg Gh U F.
  destruct (preSimulation_enabled avatarData timeStep s En Reg) as (n & _ & E).
  match type of E with
  | context [consumeJump ?x0] =>
      destruct (consumeJump_spec x0) as (_ & _ & _ & _ & f & v & j & Fj);
      rewrite Fj in E; clear Fj
  end.
  match type of E with
  | _ = Some ?x0 => set (s1 := x0) in E
  end.
  assert (LP : lastPosition s1 = shapePosition avatarData s) by reflexivity.
  assert (SD : 0 <= stepDt s1) by (cbn; lra).
  assert (GR : ghostRotation s1
               = transformRotation (getOrientation avatarData))
    by reflexivity.
  assert (SO : shapeLocalOffset s1 = shapeLocalOffset s) by reflexivity.
  assert (E1 : enabled s1 = true) by exact En.
  assert (G1 : hasGhostObject s1 = true) by exact Gh.
  clearbody s1.
  destruct (playerSteps_stepDt steps s1 F SD) as [P L].
  pose proof (steppedFrom_playerSteps steps s1) as Fr.
  destruct (steppedFrom_ex _ _ Fr) as (?&?&?&?&?&?&?&?&?&?&?&Eq).
  assert (E2 : enabled (playerSteps steps s1) = true)
    by (rewrite Eq; exact E1).
  assert (G2 : hasGhostObject (playerSteps steps s1) = true)
    by (rewrite Eq; exact G1).
  assert (GR2 : ghostRotation (playerSteps steps s1)
                = transformRotation (getOrientation avatarData))
    by (rewrite Eq; exact GR).
  assert (SO2 : shapeLocalOffset (playerSteps steps s1) = shapeLocalOffset s)
    by (rewrite Eq; exact SO).
  clear Eq.
  destruct (throttledPosition_spec _ P) as (position & T & B & _).
  rewrite L, LP in B.
  destruct (transformRotation_unit _ U) as (Sign & _).
  assert (Rot : Quat.rotate (transformRotation (getOrientation avatarData))
                  (shapeLocalOffset s)
                = Quat.rotate (getOrientation avatarData) (shapeLocalOffset s)).
  { destruct Sign as [-> | ->]; [reflexivity | apply rotate_neg]. }
  exists s1, position, (transformRotation (getOrientation avatarData)).
  split; [exact E|]. split; [exact T|]. split; [exact B|].
  split; [reflexivity|]. split; [exact Sign|].
  unfold postSimulation. rewrite E2, G2, T, GR2, SO2, Rot. reflexivity.
Qed.

Lemma tick_position_bound_witness :
  exists s1 position,
    preSimulation (mkAvatarData Quat.identity (Vec3.mk 1 2 3) (Vec3.mk 1 0 0))
      (1 / 60) exampleController = Some s1 /\
    throttledPosition (playerSteps [(emptyWorld, 1 / 60)] s1) = Some position.
Proof.
  destruct (tick_position_bound
              (mkAvatarData Quat.identity (Vec3.mk 1 2 3) (Vec3.mk 1 0 0))
              (1 / 60) [(emptyWorld, 1 / 60)] exampleController
              eq_refl eq_refl eq_refl length2_identity)
    as (s1 & position & rotation & E & T & _).
  - repeat constructor. simpl. lra.
  - exists s1, position. split; [exact E | exact T].
Defined.

(** ** setDynamicsWorld and setEnabled *)

Lemma setDynamicsWorld_halves world s :
  setDynamicsWorld world s = settleFlags (changeWorld world s).
Proof. reflexivity. Qed.

Lemma clear_flag_bit k f n :
  (0 <= k)%Z -> (0 <= n)%Z ->
  Z.testbit (Z.land f (not32 (Z.shiftl 1 k))) n
  = Z.testbit f n && xorb (k =? n)%Z (n <? 32)%Z.
Proof.
  intros Hk Hn. rewrite Z.land_spec, not32_bit, flag_bit by lia. reflexivity.
Qed.

Lemma set_flag_bit k f n :
  (0 <= k)%Z -> (0 <= n)%Z ->
  Z.testbit (Z.lor f (Z.shiftl 1 k)) n = Z.testbit f n || (k =? n)%Z.
Proof. intros Hk Hn. rewrite Z.lor_spec, flag_bit by lia. reflexivity. Qed.

Lemma shapeUpdatePending_bit s :
  shapeUpdatePending s = Z.testbit (pendingFlags s) 2.
Proof. apply (flag_test _ 2). lia. Qed.

Lemma land_idem f m : Z.land (Z.land f m) m = Z.land f m.
Proof. rewrite <- Z.land_assoc, Z.land_diag. reflexivity. Qed.

Lemma lor_idem f m : Z.lor (Z.lor f m) m = Z.lor f m.
Proof. rewrite <- Z.lor_assoc, Z.lor_diag. reflexivity. Qed.

Lemma settleFlags_idem s : settleFlags (settleFlags s) = settleFlags s.
Proof.
  destruct (isRegistered s) eqn:Reg.
  - destruct (shapeUpdatePending s) eqn:U.
    + assert (E : settleFlags s
                  = set_pendingFlags
                      (Z.lor (pendingFlags s)
                         (Z.lor PENDING_FLAG_ADD_TO_SIMULATION
                            PENDING_FLAG_REMOVE_FROM_SIMULATION)) s).
      { unfold settleFlags. fold (shapeUpdatePending s).
        rewrite Reg, U. reflexivity. }
      rewrite E. unfold settleFlags.
      match goal with
      | |- context [to_bool (Z.land (pendingFlags ?y) _)] =>
          fold (shapeUpdatePending y)
      end.
      change (isRegistered (set_pendingFlags _ s)) with (isRegistered s).
      rewrite Reg, shapeUpdatePending_bit.
      cbn [pendingFlags set_pendingFlags].
      rewrite Z.lor_spec, <- shapeUpdatePending_bit, U. cbn [orb].
      rewrite lor_idem. reflexivity.
    + assert (E : settleFlags s
                  = set_pendingFlags
                      (Z.land (pendingFlags s)
                         (not32 PENDING_FLAG_ADD_TO_SIMULATION)) s).
      { unfold settleFlags. fold (shapeUpdatePending s).
        rewrite Reg, U. reflexivity. }
      rewrite E. unfold settleFlags.
      match goal with
      | |- context [to_bool (Z.land (pendingFlags ?y) _)] =>
          fold (shapeUpdatePending y)
      end.
      change (isRegistered (set_pendingFlags _ s)) with (isRegistered s).
      rewrite Reg, shapeUpdatePending_bit.
      cbn [pendingFlags set_pendingFlags].
      unfold PENDING_FLAG_ADD_TO_SIMULATION at 1.
      rewrite clear_flag_bit, <- shapeUpdatePending_bit, U by lia.
      cbn [andb]. rewrite land_idem. reflexivity.
  - assert (E : settleFlags s
                = set_pendingFlags
                    (Z.land (pendingFlags s)
                       (not32 PENDING_FLAG_REMOVE_FROM_SIMULATION)) s).
    { unfold settleFlags. rewrite Reg. reflexivity. }
    rewrite E. unfold settleFlags.
    change (isRegistered (set_pendingFlags _ s)) with (isRegistered s).
    rewrite Reg. cbn [pendingFlags set_pendingFlags].
    rewrite land_idem. reflexivity.
Qed.

Lemma same_world_refl w : same_world w w = true.
Proof. destruct w; [apply Nat.eqb_refl | reflexivity]. Qed.

(** Once the world has been changed, changing to the same world again
    does nothing. *)
Lemma changeWorld_settled world s :
  changeWorld world (settleFlags (changeWorld world s))
  = settleFlags (changeWorld world s).
Proof.
  assert (K : forall y,
             (dynamicsWorld y = world \/
              (dynamicsWorld y = None /\ ghostObject y = None)) ->
             changeWorld world (settleFlags y) = settleFlags y).
  { intros y H.
    assert (D : dynamicsWorld (settleFlags y) = dynamicsWorld y)
      by (unfold settleFlags;
          repeat match goal with
                 | |- context [if ?c then _ else _] => destruct c
                 end; reflexivity).
    assert (G : ghostObject (settleFlags y) = ghostObject y)
      by (unfold settleFlags;
          repeat match goal with
                 | |- context [if ?c then _ else _] => destruct c
                 end; reflexivity).
    unfold changeWorld. unfold isRegistered. rewrite D.
    destruct H as [H | [H1 H2]].
    - rewrite H, same_world_refl. reflexivity.
    - rewrite H1. destruct world; [|reflexivity].
      cbn [same_world negb]. rewrite G, H2. reflexivity. }
  apply K. unfold changeWorld.
  destruct (same_world (dynamicsWorld s) world) eqn:S; cbn [negb].
  - left. unfold same_world in S.
    destruct (dynamicsWorld s), world; try discriminate; [|reflexivity].
    apply Nat.eqb_eq in S. congruence.
  - assert (D : isRegistered s = false -> dynamicsWorld s = None).
    { unfold isRegistered. destruct (dynamicsWorld s); [discriminate | auto]. }
    destruct (isRegistered s) eqn:R; destruct world as [w|];
      cbn [ghostObject set_dynamicsWorld];
      try destruct (ghostObject s) eqn:G.
    + left. reflexivity.
    + right. split; [reflexivity | exact G].
    + left. reflexivity.
    + left. reflexivity.
    + left. reflexivity.
    + right. split; [apply D; reflexivity | exact G].
    + left. apply D. reflexivity.
    + left. apply D. reflexivity.
Qed.

Lemma changeWorld_eq world s :
  changeWorld world s
  = if same_world (dynamicsWorld s) world then s
    else
      match world, ghostObject s with
      | Some w, Some _ =>
          reset
            (set_pendingFlags
               (Z.land (pendingFlags s) (not32 PENDING_FLAG_JUMP))
               (set_dynamicsWorld (Some w) s))
      | _, _ => set_dynamicsWorld None s
      end.
Proof.
  unfold changeWorld.
  destruct (same_world (dynamicsWorld s) world) eqn:S; [reflexivity|].
  cbn [negb]. unfold isRegistered.
  destruct s as [en dw gh]. cbn in *.
  destruct dw, world, gh; cbn; try reflexivity; discriminate.
Qed.

Lemma settleFlags_eq s : exists f, settleFlags s = set_pendingFlags f s.
Proof.
  unfold settleFlags.
  repeat match goal with
         | |- context [if ?c then _ else _] => destruct c
         end; eexists; reflexivity.
Qed.

(** What [settleFlags] leaves pending. *)
Lemma settleFlags_flags s :
  needsAddition (settleFlags s)
  = (if isRegistered s then shapeUpdatePending s else needsAddition s) /\
  needsRemoval (settleFlags s)
  = (isRegistered s && (shapeUpdatePending s || needsRemoval s)) /\
  shapeUpdatePending (settleFlags s) = shapeUpdatePending s /\
  jumpPending (settleFlags s) = jumpPending s.
Proof.
  rewrite !needsAddition_bit, !needsRemoval_bit, !shapeUpdatePending_bit,
    !jumpPending_bit.
  unfold settleFlags. fold (shapeUpdatePending s).
  rewrite (shapeUpdatePending_bit s).
  destruct (isRegistered s).
  - destruct (Z.testbit (pendingFlags s) 2) eqn:U;
      cbn [pendingFlags set_pendingFlags];
      rewrite ?Z.lor_spec, ?Z.land_spec, ?U;
      destruct (Z.testbit (pendingFlags s) 0),
        (Z.testbit (pendingFlags s) 1), (Z.testbit (pendingFlags s) 3);
      repeat split; reflexivity.
  - cbn [pendingFlags set_pendingFlags].
    rewrite ?Z.land_spec.
    destruct (Z.testbit (pendingFlags s) 0),
      (Z.testbit (pendingFlags s) 1), (Z.testbit (pendingFlags s) 2),
      (Z.testbit (pendingFlags s) 3);
      repeat split; reflexivity.
Qed.

(** What [changeWorld] leaves pending. *)
Lemma changeWorld_flags world s :
  needsAddition (changeWorld world s) = needsAddition s /\
  needsRemoval (changeWorld world s) = needsRemoval s /\
  shapeUpdatePending (changeWorld world s) = shapeUpdatePending s.
Proof.
  rewrite changeWorld_eq.
  destruct (same_world (dynamicsWorld s) world); [auto|].
  destruct world as [w|]; [|auto].
  destruct (ghostObject s); [|auto].
  rewrite !needsAddition_bit, !needsRemoval_bit, !shapeUpdatePending_bit.
  cbn [reset pendingFlags set_pendingFlags set_dynamicsWorld
       set_verticalVelocity set_verticalOffset set_isOnGround set_isJumping
       set_walkDirection set_velocityTimeInterval].
  rewrite ?Z.land_spec.
  destruct (Z.testbit (pendingFlags s) 0),
    (Z.testbit (pendingFlags s) 1), (Z.testbit (pendingFlags s) 2);
    repeat split; reflexivity.
Qed.

Lemma changeWorld_world world s :
  dynamicsWorld (changeWorld world s) = world \/
  (isRegistered (changeWorld world s) = false /\
   ghostObject s = None /\ world <> None).
Proof.
  rewrite changeWorld_eq.
  destruct (same_world (dynamicsWorld s) world) eqn:S.
  - left. unfold same_world in S.
    destruct (dynamicsWorld s), world; try discriminate; [|reflexivity].
    apply Nat.eqb_eq in S. congruence.
  - destruct world as [w|]; [|left; reflexivity].
    destruct (ghostObject s); [left; reflexivity|].
    right. repeat split. discriminate.
Qed.

(** X19.  Calling [setDynamicsWorld] again with the same
    world changes nothing.  Afterwards a registered controller is
    registered in the world that was passed; with no world, the controller
    is unregistered; with a world and a ghost object it is registered in
    that world.  An unregistered controller has no removal pending; a
    registered one has an addition pending exactly when a shape update is
    pending, and then also a removal.  The call never changes whether a
    shape update is pending. *)
Theorem setDynamicsWorld_settles (world : option nat) (s : State) :
  let s' := setDynamicsWorld world s in
  setDynamicsWorld world s' = s' /\
  (isRegistered s' = true -> dynamicsWorld s' = world) /\
  (world = None -> isRegistered s' = false) /\
  (forall w, world = Some w -> ghostObject s <> None ->
     dynamicsWorld s' = Some w) /\
  (isRegistered s' = false -> needsRemoval s' = false) /\
  (isRegistered s' = true ->
     needsAddition s' = shapeUpdatePending s /\
     (shapeUpdatePending s = true -> needsRemoval s' = true)) /\
  shapeUpdatePending s' = shapeUpdatePending s.
Proof.
  intros s'. unfold s'. rewrite !setDynamicsWorld_halves.
  set (y := changeWorld world s).
  assert (D : dynamicsWorld (settleFlags y) = dynamicsWorld y)
    by (destruct (settleFlags_eq y) as [f ->]; reflexivity).
  assert (R : isRegistered (settleFlags y) = isRegistered y)
    by (unfold isRegistered; rewrite D; reflexivity).
  destruct (settleFlags_flags y) as (FA & FR & FU & _).
  destruct (changeWorld_flags world s) as (CA & CR & CU).
  fold y in CA, CR, CU.
  destruct (changeWorld_world world s) as [W | (W1 & W2 & W3)];
    fold y in W || fold y in W1.
  - split; [|split; [|split; [|split; [|split; [|split]]]]].
    + unfold y. rewrite changeWorld_settled, settleFlags_idem. reflexivity.
    + intros _. rewrite D. exact W.
    + intros ->. rewrite R. unfold isRegistered. rewrite W. reflexivity.
    + intros w -> _. rewrite D. exact W.
    + rewrite R. intros Reg. rewrite FR, Reg. reflexivity.
    + rewrite R. intros Reg. rewrite FA, FR, Reg, CU. split; [reflexivity|].
      intros ->. reflexivity.
    + rewrite FU. exact CU.
  - split; [|split; [|split; [|split; [|split; [|split]]]]].
    + unfold y. rewrite changeWorld_settled, settleFlags_idem. reflexivity.
    + rewrite R, W1. discriminate.
    + intros _. rewrite R. exact W1.
    + intros w _ G. contradiction.
    + rewrite R. intros Reg. rewrite FR, Reg. reflexivity.
    + rewrite R, W1. discriminate.
    + rewrite FU. exact CU.
Qed.

(** X20.  Entering another world with a ghost object
    drops a pending jump and resets the motion state (vertical velocity
    and offset, walk direction, time interval, on-ground and jumping
    marks), while a call with the world the controller is already in
    writes nothing but the pending flags. *)
Theorem setDynamicsWorld_resets_on_change (world : option nat) (s : State) :
  let s' := setDynamicsWorld world s in
  (forall w, world = Some w -> dynamicsWorld s <> Some w ->
     ghostObject s <> None ->
     jumpPending s' = false /\
     verticalVelocity s' = 0 /\ verticalOffset s' = 0 /\
     walkDirection s' = Vec3.mk 0 0 0 /\ velocityTimeInterval s' = 0 /\
     isOnGround s' = false /\ isJumping s' = false /\
     isHovering s' = isHovering s /\ enabled s' = enabled s /\
     ghostOrigin s' = ghostOrigin s) /\
  (dynamicsWorld s = world ->
     exists flags, s' = set_pendingFlags flags s).
Proof.
  intros s'. unfold s'. rewrite setDynamicsWorld_halves. split.
  - intros w -> Dw G.
    destruct (settleFlags_flags (changeWorld (Some w) s)) as (_ & _ & _ & FJ).
    rewrite FJ.
    destruct (settleFlags_eq (changeWorld (Some w) s)) as [f ->].
    rewrite changeWorld_eq.
    assert (S : same_world (dynamicsWorld s) (Some w) = false).
    { unfold same_world. destruct (dynamicsWorld s) as [x|]; [|reflexivity].
      apply Nat.eqb_neq. congruence. }
    rewrite S. destruct (ghostObject s); [|contradiction].
    split; [|repeat split].
    rewrite jumpPending_bit.
    cbn [reset pendingFlags set_pendingFlags set_dynamicsWorld
         set_verticalVelocity set_verticalOffset set_isOnGround set_isJumping
         set_walkDirection set_velocityTimeInterval].
    rewrite Z.land_spec. apply andb_false_r.
  - intros <-. rewrite changeWorld_eq, same_world_refl.
    apply settleFlags_eq.
Qed.

(** X21.  When the owner
    takes a controller that has a ghost object and no shape update pending
    out of its world and puts it into a world, the controller ends up
    registered in that world with neither an addition nor a removal
    pending, whatever was pending before. *)
Theorem reregistration_settles (w : nat) (s : State) :
  ghostObject s <> None ->
  shapeUpdatePending s = false ->
  let s' := setDynamicsWorld (Some w) (setDynamicsWorld None s) in
  dynamicsWorld s' = Some w /\
  needsAddition s' = false /\ needsRemoval s' = false /\
  jumpPending s' = false.
Proof.
  intros G U s'.
  set (t := setDynamicsWorld None s) in *.
  assert (Gt : ghostObject t = ghostObject s).
  { unfold t. rewrite setDynamicsWorld_halves.
    destruct (settleFlags_eq (changeWorld None s)) as [f ->].
    rewrite changeWorld_eq.
    destruct (same_world (dynamicsWorld s) None); reflexivity. }
  assert (Dt : dynamicsWorld t = None).
  { unfold t. rewrite setDynamicsWorld_halves.
    destruct (settleFlags_eq (changeWorld None s)) as [f ->].
    rewrite changeWorld_eq.
    destruct (dynamicsWorld s) eqn:D; cbn [same_world];
      [reflexivity | exact D]. }
  assert (Ft : needsRemoval t = false /\ shapeUpdatePending t = false).
  { unfold t. rewrite setDynamicsWorld_halves.
    destruct (settleFlags_flags (changeWorld None s)) as (_ & FR & FU & _).
    destruct (changeWorld_flags None s) as (_ & _ & CU).
    rewrite FR, FU, CU, U.
    assert (R : isRegistered (changeWorld None s) = false).
    { rewrite changeWorld_eq. unfold isRegistered.
      destruct (dynamicsWorld s) eqn:D; cbn; [reflexivity|].
      rewrite D. reflexivity. }
    rewrite R. auto. }
  destruct Ft as [Rt Ut].
  unfold s'. rewrite setDynamicsWorld_halves.
  destruct (settleFlags_flags (changeWorld (Some w) t)) as (FA & FR & _ & FJ).
  destruct (changeWorld_flags (Some w) t) as (_ & CR & CU).
  assert (E : changeWorld (Some w) t
              = reset
                  (set_pendingFlags
                     (Z.land (pendingFlags t) (not32 PENDING_FLAG_JUMP))
                     (set_dynamicsWorld (Some w) t))).
  { rewrite changeWorld_eq, Dt, Gt. cbn [same_world].
    destruct (ghostObject s); [reflexivity | contradiction]. }
  assert (Reg : isRegistered (changeWorld (Some w) t) = true)
    by (rewrite E; reflexivity).
  rewrite FA, FR, FJ, Reg, CR, CU, Rt, Ut.
  destruct (settleFlags_eq (changeWorld (Some w) t)) as [f ->].
  rewrite E. repeat split.
  rewrite jumpPending_bit.
  cbn [reset pendingFlags set_pendingFlags set_dynamicsWorld
       set_verticalVelocity set_verticalOffset set_isOnGround set_isJumping
       set_walkDirection set_velocityTimeInterval].
  rewrite Z.land_spec. apply andb_false_r.
Qed.

Lemma reregistration_settles_witness :
  ghostObject exampleController <> None /\
  dynamicsWorld
    (setDynamicsWorld (Some 7%nat) (setDynamicsWorld None exampleController))
  = Some 7%nat.
Proof.
  assert (G : ghostObject exampleController <> None) by discriminate.
  split; [exact G|].
  exact (proj1 (reregistration_settles 7 exampleController G eq_refl)).
Defined.

(** ** The capsule shape *)

Lemma capsuleRadius_double scale :
  2 * capsuleRadius scale
  = sqrt (1 / 2 * (Vec3.x scale * Vec3.x scale + Vec3.z scale * Vec3.z scale)).
Proof. unfold capsuleRadius. cbv zeta. lra. Qed.

Lemma abs_square a : Rabs a * Rabs a = a * a.
Proof.
  unfold Rabs. destruct (Rcase_abs a); ring.
Qed.

(** X22.  The capsule
    computed from a bounding box.  Its radius is not negative, and zero
    exactly for a box without width and depth; its diameter lies between
    the smaller and the larger of the box's width and depth; its half
    height is at least [MIN_HALF_HEIGHT]; and the capsule is at least as
    tall as the box, exactly as tall unless the half height was raised to
    the minimum. *)
Theorem capsule_dimensions (scale : Vec3.t) :
  let x := Vec3.x scale in
  let y := Vec3.y scale in
  let z := Vec3.z scale in
  0 <= capsuleRadius scale /\
  (capsuleRadius scale = 0 <-> x = 0 /\ z = 0) /\
  Rmin (Rabs x) (Rabs z) <= 2 * capsuleRadius scale
  <= Rmax (Rabs x) (Rabs z) /\
  MIN_HALF_HEIGHT <= capsuleHalfHeight scale /\
  y <= 2 * (capsuleHalfHeight scale + capsuleRadius scale) /\
  (MIN_HALF_HEIGHT < capsuleHalfHeight scale ->
   2 * (capsuleHalfHeight scale + capsuleRadius scale) = y).
Proof.
  intros x y z.
  pose proof (capsuleRadius_double scale) as E. fold x z in E.
  set (q := 1 / 2 * (x * x + z * z)) in E.
  assert (Hq : 0 <= q) by (unfold q; nra).
  assert (R0 : 0 <= capsuleRadius scale)
    by (pose proof (sqrt_pos q); lra).
  split; [exact R0|]. split; [|split; [|split; [|split]]].
  - split.
    + intros Z. rewrite Z in E.
      assert (S : sqrt q = 0) by lra.
      apply sqrt_eq_0 in S; [|exact Hq]. unfold q in S. split; nra.
    + intros [X Z]. assert (Q : q = 0) by (unfold q; rewrite X, Z; ring).
      rewrite Q, sqrt_0 in E. lra.
  - rewrite E.
    pose proof (Rabs_pos x) as Px. pose proof (Rabs_pos z) as Pz.
    pose proof (Rmin_l (Rabs x) (Rabs z)) as Ml.
    pose proof (Rmin_r (Rabs x) (Rabs z)) as Mr.
    pose proof (Rmax_l (Rabs x) (Rabs z)) as Xl.
    pose proof (Rmax_r (Rabs x) (Rabs z)) as Xr.
    assert (M0 : 0 <= Rmin (Rabs x) (Rabs z))
      by (apply Rmin_glb; assumption).
    assert (Q : q = 1 / 2 * (Rabs x * Rabs x + Rabs z * Rabs z))
      by (unfold q; rewrite !abs_square; reflexivity).
    set (m := Rmin (Rabs x) (Rabs z)) in *.
    set (n := Rmax (Rabs x) (Rabs z)) in *.
    split.
    + apply Rle_trans with (sqrt (m * m)).
      * rewrite sqrt_square by exact M0. lra.
      * apply sqrt_le_1_alt. rewrite Q. nra.
    + apply Rle_trans with (sqrt (n * n)).
      * apply sqrt_le_1_alt. rewrite Q. nra.
      * rewrite sqrt_square by lra. lra.
  - unfold capsuleHalfHeight. cbv zeta.
    destruct (Scalar.ltb _ MIN_HALF_HEIGHT) eqn:C; [lra|].
    apply ltb_false in C. lra.
  - unfold capsuleHalfHeight. cbv zeta. fold y.
    destruct (Scalar.ltb _ MIN_HALF_HEIGHT) eqn:C.
    + apply ltb_true in C. lra.
    + lra.
  - unfold capsuleHalfHeight. cbv zeta. fold y.
    destruct (Scalar.ltb _ MIN_HALF_HEIGHT) eqn:C; lra.
Qed.

Lemma setLocalBoundingBox_spec corner scale c :
  let s := controller c in
  let c1 := setLocalBoundingBox corner scale c in
  boxScale c1 = scale /\
  (exists f,
     controller c1
     = set_shapeLocalOffset (corner +v (1 / 2) *v scale)
         (set_pendingFlags f s)) /\
  needsAddition (controller c1)
  = (needsAddition s || (negb (sameShape scale s) && enabled s)) /\
  needsRemoval (controller c1)
  = (needsRemoval s || (negb (sameShape scale s) && isRegistered s)) /\
  shapeUpdatePending (controller c1)
  = (shapeUpdatePending s || negb (sameShape scale s)) /\
  jumpPending (controller c1) = jumpPending s.
Proof.
  intros s c1. unfold c1, setLocalBoundingBox. cbv zeta. fold s.
  fold (sameShape scale s).
  rewrite !needsAddition_bit, !needsRemoval_bit, !shapeUpdatePending_bit,
    !jumpPending_bit.
  cbn [controller boxScale].
  split; [reflexivity|].
  destruct (sameShape scale s); cbn [negb andb].
  - rewrite !orb_false_r. split; [|repeat split].
    exists (pendingFlags s). destruct s; reflexivity.
  - rewrite !orb_true_r.
    destruct (isRegistered s), (enabled s) eqn:En;
      cbn [enabled pendingFlags set_pendingFlags set_shapeLocalOffset];
      rewrite ?En;
      cbn [enabled pendingFlags set_pendingFlags set_shapeLocalOffset];
      (split; [eexists; reflexivity|]);
      rewrite ?Z.lor_spec;
      destruct (Z.testbit (pendingFlags s) 0),
        (Z.testbit (pendingFlags s) 1), (Z.testbit (pendingFlags s) 2),
        (Z.testbit (pendingFlags s) 3);
      repeat split; reflexivity.
Qed.

Lemma updateShapeIfNecessary_spec avatarData ghost margin c :
  let s := controller c in
  shapeUpdatePending s = true ->
  needsRemoval s = false ->
  exists c3,
    updateShapeIfNecessary avatarData ghost margin c = Some c3 /\
    boxScale c3 = boxScale c /\
    radius (controller c3) = capsuleRadius (boxScale c) /\
    halfHeight (controller c3) = capsuleHalfHeight (boxScale c) /\
    shapeUpdatePending (controller c3) = false /\
    needsAddition (controller c3) = needsAddition s /\
    needsRemoval (controller c3) = false /\
    jumpPending (controller c3) = jumpPending s /\
    dynamicsWorld (controller c3) = dynamicsWorld s /\
    enabled (controller c3) = enabled s /\
    shapeLocalOffset (controller c3) = shapeLocalOffset s /\
    (0 < capsuleRadius (boxScale c) ->
     ghostObject (controller c3) = Some ghost /\
     ghostOrigin (controller c3) = getPosition avatarData /\
     ghostRotation (controller c3)
     = transformRotation (getOrientation avatarData) /\
     stepUpHeight (controller c3)
     = capsuleRadius (boxScale c)
       + 1 / 4 * capsuleHalfHeight (boxScale c) + 1 / 10 /\
     stepDownHeight (controller c3) = capsuleRadius (boxScale c) /\
     shapeMargin (controller c3) = margin) /\
    (capsuleRadius (boxScale c) <= 0 ->
     ghostObject (controller c3) = None /\
     stepUpHeight (controller c3) = stepUpHeight s /\
     stepDownHeight (controller c3) = stepDownHeight s).
Proof.
  intros s U NR. unfold updateShapeIfNecessary. cbv zeta. fold s.
  fold (shapeUpdatePending s). fold (needsRemoval s). rewrite U, NR.
  cbn [negb]. eexists. split; [reflexivity|].
  rewrite !needsAddition_bit, !needsRemoval_bit, !shapeUpdatePending_bit,
    !jumpPending_bit in *.
  cbn [controller boxScale].
  change (radius (set_halfHeight _ (set_radius ?r _))) with r.
  destruct (Scalar.gtb (capsuleRadius (boxScale c)) 0) eqn:G.
  - apply gtb_true in G.
    cbn [radius halfHeight pendingFlags dynamicsWorld enabled
         shapeLocalOffset ghostObject ghostOrigin ghostRotation stepUpHeight
         stepDownHeight shapeMargin
         set_pendingFlags set_ghostObject set_radius set_halfHeight
         set_ghostOrigin set_ghostRotation set_stepUpHeight
         set_stepDownHeight set_shapeMargin].
    rewrite !Z.land_spec, NR.
    destruct (Z.testbit (pendingFlags s) 0), (Z.testbit (pendingFlags s) 3);
      repeat split; try reflexivity; try apply andb_false_r;
      intros; exfalso; lra.
  - apply gtb_false in G.
    cbn [radius halfHeight pendingFlags dynamicsWorld enabled
         shapeLocalOffset ghostObject ghostOrigin ghostRotation stepUpHeight
         stepDownHeight shapeMargin
         set_pendingFlags set_ghostObject set_radius set_halfHeight].
    rewrite !Z.land_spec, NR.
    destruct (Z.testbit (pendingFlags s) 0), (Z.testbit (pendingFlags s) 3);
      repeat split; try reflexivity; try apply andb_false_r;
      intros; exfalso; lra.
Qed.

Lemma sameShape_refl scale s :
  radius s = capsuleRadius scale ->
  halfHeight s = capsuleHalfHeight scale ->
  sameShape scale s = true.
Proof.
  intros Hr Hh. unfold sameShape, Scalar.fabsf. rewrite Hr, Hh.
  replace (capsuleRadius scale - capsuleRadius scale) with 0 by ring.
  replace (capsuleHalfHeight scale - capsuleHalfHeight scale) with 0 by ring.
  rewrite Rabs_R0.
  assert (L : Scalar.ltb 0 Scalar.FLT_EPSILON = true)
    by (apply ltb_true, FLT_EPSILON_pos).
  rewrite L. reflexivity.
Qed.

(** X23.  A pending shape
    update with no removal pending gives the controller the capsule of its
    box and clears the request.  After it, a further call of
    [updateShapeIfNecessary] changes nothing, and announcing the same box
    again, at whatever corner, only moves the local offset of the shape:
    it requests no update, removal or addition. *)
Theorem updateShape_then_same_box (avatarData : AvatarData) (ghost : nat)
    (margin : R) (c : Shaped) :
  shapeUpdatePending (controller c) = true ->
  needsRemoval (controller c) = false ->
  exists c',
    updateShapeIfNecessary avatarData ghost margin c = Some c' /\
    shapeUpdatePending (controller c') = false /\
    radius (controller c') = capsuleRadius (boxScale c) /\
    halfHeight (controller c') = capsuleHalfHeight (boxScale c) /\
    (forall avatarData' ghost' margin',
       updateShapeIfNecessary avatarData' ghost' margin' c' = Some c') /\
    (forall corner,
       setLocalBoundingBox corner (boxScale c) c'
       = mkShaped
           (set_shapeLocalOffset (corner +v (1 / 2) *v boxScale c)
              (controller c'))
           (boxScale c)).
Proof.
  intros U NR.
  destruct (updateShapeIfNecessary_spec avatarData ghost margin c U NR)
    as (c' & E & B & Hr & Hh & U' & _).
  exists c'. repeat split; try assumption.
  - intros a g m. unfold updateShapeIfNecessary. cbv zeta.
    fold (shapeUpdatePending (controller c')). rewrite U'. reflexivity.
  - intros corner. unfold setLocalBoundingBox. cbv zeta.
    fold (sameShape (boxScale c) (controller c')).
    rewrite (sameShape_refl _ _ Hr Hh). reflexivity.
Qed.

Lemma updateShape_then_same_box_witness :
  exists c',
    updateShapeIfNecessary
      (mkAvatarData Quat.identity (Vec3.mk 1 2 3) (Vec3.mk 1 0 0)) 5 (1 / 25)
      (mkShaped (set_pendingFlags PENDING_FLAG_UPDATE_SHAPE exampleController)
         (Vec3.mk 1 2 1))
    = Some c' /\
    shapeUpdatePending (controller c') = false.
Proof.
  destruct (updateShape_then_same_box
              (mkAvatarData Quat.identity (Vec3.mk 1 2 3) (Vec3.mk 1 0 0))
              5 (1 / 25)
              (mkShaped
                 (set_pendingFlags PENDING_FLAG_UPDATE_SHAPE exampleController)
                 (Vec3.mk 1 2 1))
              eq_refl eq_refl)
    as (c' & E & U & _).
  exists c'. split; [exact E | exact U].
Defined.

Lemma setDynamicsWorld_frame world s :
  let s' := setDynamicsWorld world s in
  radius s' = radius s /\ halfHeight s' = halfHeight s /\
  stepUpHeight s' = stepUpHeight s /\ stepDownHeight s' = stepDownHeight s /\
  shapeLocalOffset s' = shapeLocalOffset s /\
  ghostObject s' = ghostObject s /\ enabled s' = enabled s /\
  ghostOrigin s' = ghostOrigin s /\ shapeMargin s' = shapeMargin s.
Proof.
  intros s'. unfold s'. rewrite setDynamicsWorld_halves.
  destruct (settleFlags_eq (changeWorld world s)) as [f ->].
  rewrite changeWorld_eq.
  destruct (same_world (dynamicsWorld s) world);
    [repeat split; reflexivity|].
  destruct world; [destruct (ghostObject s) eqn:G|]; repeat split;
    cbn; rewrite ?G; reflexivity.
Qed.

Lemma changeWorld_None_unregistered s :
  isRegistered (changeWorld None s) = false.
Proof.
  rewrite changeWorld_eq. unfold isRegistered.
  destruct (dynamicsWorld s) eqn:D; cbn; [reflexivity|].
  rewrite D. reflexivity.
Qed.

(** What [setDynamicsWorld] with no world leaves. *)
Lemma setDynamicsWorld_None_spec s :
  let s' := setDynamicsWorld None s in
  dynamicsWorld s' = None /\
  needsAddition s' = needsAddition s /\
  needsRemoval s' = false /\
  shapeUpdatePending s' = shapeUpdatePending s.
Proof.
  intros s'. unfold s'. rewrite setDynamicsWorld_halves.
  destruct (settleFlags_flags (changeWorld None s)) as (FA & FR & FU & _).
  destruct (changeWorld_flags None s) as (CA & _ & CU).
  pose proof (changeWorld_None_unregistered s) as R.
  rewrite FA, FR, FU, R, CA, CU.
  repeat split.
  destruct (settleFlags_eq (changeWorld None s)) as [f ->].
  unfold isRegistered in R.
  change (dynamicsWorld (set_pendingFlags f ?y)) with (dynamicsWorld y).
  destruct (dynamicsWorld (changeWorld None s)); [discriminate | reflexivity].
Qed.

(** What [setDynamicsWorld] with a world leaves of an unregistered
    controller. *)
Lemma setDynamicsWorld_Some_spec w s :
  dynamicsWorld s = None ->
  let s' := setDynamicsWorld (Some w) s in
  shapeUpdatePending s' = shapeUpdatePending s /\
  (ghostObject s <> None ->
   dynamicsWorld s' = Some w /\
   needsAddition s' = shapeUpdatePending s /\
   needsRemoval s' = (shapeUpdatePending s || needsRemoval s)) /\
  (ghostObject s = None ->
   dynamicsWorld s' = None /\
   needsAddition s' = needsAddition s /\
   needsRemoval s' = false).
Proof.
  intros D s'. unfold s'. rewrite setDynamicsWorld_halves.
  destruct (settleFlags_flags (changeWorld (Some w) s)) as (FA & FR & FU & _).
  destruct (changeWorld_flags (Some w) s) as (CA & CR & CU).
  rewrite FA, FR, FU, CA, CR, CU.
  destruct (settleFlags_eq (changeWorld (Some w) s)) as [f ->].
  change (dynamicsWorld (set_pendingFlags f ?y)) with (dynamicsWorld y).
  rewrite changeWorld_eq, D. cbn [same_world].
  split; [reflexivity|]. split.
  - intros G. destruct (ghostObject s); [|contradiction].
    repeat split.
  - intros ->. unfold isRegistered. cbn [dynamicsWorld set_dynamicsWorld].
    repeat split.
Qed.

Lemma capsule_radius_halfHeight scale :
  0 <= capsuleRadius scale /\ 0 < capsuleHalfHeight scale.
Proof.
  split.
  - unfold capsuleRadius. cbv zeta.
    pose proof (sqrt_pos
                  (1 / 2 * (Vec3.x scale * Vec3.x scale
                            + Vec3.z scale * Vec3.z scale))).
    lra.
  - unfold capsuleHalfHeight, MIN_HALF_HEIGHT. cbv zeta.
    destruct (Scalar.ltb _ (1 / 10)) eqn:C; [lra|].
    apply ltb_false in C. lra.
Qed.

(** X24 (setLocalBoundingBox, setDynamicsWorld, updateShapeIfNecessary):
    the resizing of an enabled, registered controller.  A box whose
    capsule differs from the current one requests removal, shape update
    and addition.  Once the owner has taken the controller out of its
    world, the shape update passes its assertion and installs the capsule
    of the box; putting the controller back then leaves it registered with
    nothing pending, with a step-down height of the radius and a larger
    step-up height.  A box without width and depth, however, leaves the
    controller without ghost object, unregistered, and with the addition
    still pending. *)
Theorem resize_protocol (avatarData : AvatarData) (ghost : nat) (margin : R)
    (w : nat) (corner scale : Vec3.t) (c : Shaped) :
  enabled (controller c) = true ->
  dynamicsWorld (controller c) = Some w ->
  sameShape scale (controller c) = false ->
  let c1 := setLocalBoundingBox corner scale c in
  let c2 := onController (setDynamicsWorld None) c1 in
  (needsRemoval (controller c1) = true /\
   shapeUpdatePending (controller c1) = true /\
   needsAddition (controller c1) = true) /\
  exists c3,
    updateShapeIfNecessary avatarData ghost margin c2 = Some c3 /\
    let s4 := setDynamicsWorld (Some w) (controller c3) in
    radius s4 = capsuleRadius scale /\
    halfHeight s4 = capsuleHalfHeight scale /\
    shapeLocalOffset s4 = corner +v (1 / 2) *v scale /\
    shapeUpdatePending s4 = false /\
    needsRemoval s4 = false /\
    (0 < capsuleRadius scale ->
     dynamicsWorld s4 = Some w /\
     ghostObject s4 = Some ghost /\
     needsAddition s4 = false /\
     stepDownHeight s4 = capsuleRadius scale /\
     stepDownHeight s4 < stepUpHeight s4) /\
    (capsuleRadius scale = 0 ->
     dynamicsWorld s4 = None /\
     ghostObject s4 = None /\
     needsAddition s4 = true).
Proof.
  intros En Dw Sh c1 c2.
  destruct (setLocalBoundingBox_spec corner scale c)
    as (B1 & (f1 & E1) & A1 & R1 & U1 & _).
  fold c1 in B1, E1, A1, R1, U1.
  rewrite Sh, En in A1. rewrite Sh in R1, U1.
  unfold isRegistered in R1. rewrite Dw in R1.
  cbn [negb andb] in A1, R1, U1. rewrite orb_true_r in A1, R1, U1.
  split; [auto|].
  assert (O1 : shapeLocalOffset (controller c1) = corner +v (1 / 2) *v scale)
    by (rewrite E1; reflexivity).
  clear E1.
  destruct (setDynamicsWorld_None_spec (controller c1))
    as (D2 & A2 & R2 & U2).
  destruct (setDynamicsWorld_frame None (controller c1))
    as (_ & _ & _ & _ & O2 & _).
  cbv zeta in D2, A2, R2, U2, O2.
  assert (B2 : boxScale c2 = scale) by exact B1.
  change (setDynamicsWorld None (controller c1)) with (controller c2)
    in D2, A2, R2, U2, O2.
  rewrite A1 in A2. rewrite U1 in U2. rewrite O1 in O2.
  clearbody c2. clear c1 B1 A1 R1 U1 O1.
  destruct (updateShapeIfNecessary_spec avatarData ghost margin c2 U2 R2)
    as (c3 & E3 & B3 & Hr & Hh & U3 & A3 & R3 & _ & D3 & _ & O3 & Pos & Zero).
  rewrite B2 in *. rewrite A2 in A3. rewrite D2 in D3. rewrite O2 in O3.
  exists c3. split; [exact E3|]. intros s4.
  destruct (setDynamicsWorld_frame (Some w) (controller c3))
    as (F1 & F2 & F3 & F4 & F5 & F6 & _).
  destruct (setDynamicsWorld_Some_spec w (controller c3) D3)
    as (U4 & WithGhost & NoGhost).
  fold s4 in F1, F2, F3, F4, F5, F6, U4, WithGhost, NoGhost.
  rewrite U3, R3 in *.
  pose proof (capsule_radius_halfHeight scale) as [Rpos Hpos].
  split; [congruence|]. split; [congruence|]. split; [congruence|].
  split; [exact U4|].
  assert (R4 : needsRemoval s4 = false).
  { destruct (ghostObject (controller c3)) eqn:G.
    - destruct WithGhost as (_ & _ & ->); [discriminate | reflexivity].
    - destruct NoGhost as (_ & _ & ->); reflexivity. }
  split; [exact R4|]. split.
  - intros P. destruct (Pos P) as (G & _ & _ & SU & SD & _).
    destruct WithGhost as (D4 & A4 & _); [congruence|].
    repeat split; try congruence.
    rewrite F4, F3, SU, SD. lra.
  - intros Z. destruct Zero as (G & _); [lra|].
    destruct (NoGhost G) as (D4 & A4 & _).
    repeat split; congruence.
Qed.

Lemma flat_box_differs :
  sameShape (Vec3.mk 0 2 0) exampleController = false.
Proof.
  unfold sameShape. apply andb_false_iff. left. apply ltb_false.
  unfold capsuleRadius, Scalar.fabsf, exampleController.
  cbn [Vec3.x Vec3.z radius].
  replace (1 / 2 * (0 * 0 + 0 * 0)) with 0 by ring.
  rewrite sqrt_0.
  replace (1 / 2 * 0 - 3 / 10) with (- (3 / 10)) by lra.
  rewrite Rabs_Ropp, Rabs_pos_eq by lra.
  unfold Scalar.FLT_EPSILON. lra.
Qed.

Lemma resize_protocol_witness :
  sameShape (Vec3.mk 0 2 0) exampleController = false /\
  needsRemoval
    (controller
       (setLocalBoundingBox Vec3.zero (Vec3.mk 0 2 0)
          (mkShaped exampleController (Vec3.mk 1 2 1))))
  = true.
Proof.
  split; [exact flat_box_differs|].
  exact (proj1 (proj1
           (resize_protocol
              (mkAvatarData Quat.identity (Vec3.mk 1 2 3) (Vec3.mk 1 0 0))
              5 (1 / 25) 1 Vec3.zero (Vec3.mk 0 2 0)
              (mkShaped exampleController (Vec3.mk 1 2 1))
              eq_refl eq_refl flat_box_differs))).
Defined.
